(** * openapi2jsonschema: CRD to JSON Schema conversion

    A shallow embedding of [actions/crdjsonschema/openapi2jsonschema.py]
    and the properties of its tree passes, extraction loop and emitter.

    Python values are modelled as trees.  A [dict] is an association list
    in insertion order whose keys are strings; the invariant that a
    dictionary holds every key once is the predicate [wf].  Floats, YAML
    timestamps and keys that are not strings are outside the model.  A
    string is the sequence of the bytes of its UTF-8 encoding; every
    operation of the script on strings but [str.lower] reads the same on
    bytes and on characters, and [str.lower] is a parameter of the run.

    The loaders yield documents that are trees, so the passes and the run
    are stated for documents in which no object is reachable along two
    paths.  The loop that fills [definitions] changes the loaded objects
    in place; it is modelled a second time on objects that carry their
    identity ([obj]), where a YAML alias can be written down, and the
    two models are shown to agree when no object occurs twice.

    What the operating system answers to [open(name, "w")] is a parameter
    of the run.  Writing to a file that was opened, closing it and
    printing a line are taken to succeed. *)

From Stdlib Require Import List String Ascii ZArith Bool Arith Lia.
Import ListNotations.
Local Open Scope string_scope.
Local Open Scope list_scope.

(** ** Values *)

Unset Elimination Schemes.
Inductive json : Type :=
| JNull
| JBool (b : bool)
| JInt (n : Z)
| JStr (s : string)
| JList (xs : list json)
| JDict (items : list (string * json)).
Set Elimination Schemes.

Definition dict := list (string * json).

Section JsonInduction.
Variable P : json -> Prop.
Hypothesis HNull : P JNull.
Hypothesis HBool : forall b, P (JBool b).
Hypothesis HInt : forall n, P (JInt n).
Hypothesis HStr : forall s, P (JStr s).
Hypothesis HList : forall xs, Forall P xs -> P (JList xs).
Hypothesis HDict : forall items, Forall (fun kv => P (snd kv)) items -> P (JDict items).

Fixpoint json_ind (t : json) : P t :=
  match t with
  | JNull => HNull
  | JBool b => HBool b
  | JInt n => HInt n
  | JStr s => HStr s
  | JList xs =>
      HList xs ((fix all (l : list json) : Forall P l :=
                match l with
                | [] => Forall_nil P
                | x :: l' => Forall_cons x (json_ind x) (all l')
                end) xs)
  | JDict items =>
      HDict items ((fix all (l : dict) : Forall (fun kv => P (snd kv)) l :=
                match l with
                | [] => Forall_nil _
                | kv :: l' => Forall_cons kv (json_ind (snd kv)) (all l')
                end) items)
  end.
End JsonInduction.

(** ** Dictionaries *)

(** [k in d] *)
Definition dict_has (k : string) (d : dict) : bool :=
  existsb (fun kv => String.eqb k (fst kv)) d.

(** [d.get(k)] *)
Fixpoint dict_get (k : string) (d : dict) : option json :=
  match d with
  | [] => None
  | (k', v) :: d' => if String.eqb k k' then Some v else dict_get k d'
  end.

(** [d[k] = v]: an existing key keeps its place, a new one goes last. *)
Fixpoint dict_set (d : dict) (k : string) (v : json) : dict :=
  match d with
  | [] => [(k, v)]
  | (k', v') :: d' =>
      if String.eqb k k' then (k', v) :: d' else (k', v') :: dict_set d' k v
  end.

Definition keys (d : dict) : list string := map fst d.

Fixpoint unique (l : list string) : bool :=
  match l with
  | [] => true
  | k :: l' => negb (existsb (String.eqb k) l') && unique l'
  end.

(** Every dictionary of the tree holds each of its keys once. *)
Fixpoint wf (t : json) : bool :=
  match t with
  | JList xs => forallb wf xs
  | JDict items => unique (keys items) && forallb (fun kv => wf (snd kv)) items
  | _ => true
  end.

Fixpoint json_depth (t : json) : nat :=
  match t with
  | JList xs => S (fold_right (fun x n => Nat.max (json_depth x) n) 0 xs)
  | JDict items => S (fold_right (fun kv n => Nat.max (json_depth (snd kv)) n) 0 items)
  | _ => 0
  end.

(** ** Exceptions *)

Inductive exn : Type :=
| KeyError (key : string)
| TypeError
| AttributeError
| NameError (name : string)
| InputError
| IndexError
| ValueError
| OSError.

Inductive result (A : Type) : Type :=
| Ok (a : A)
| Raise (e : exn).
Arguments Ok {A} a.
Arguments Raise {A} e.

Definition bind {A B : Type} (r : result A) (f : A -> result B) : result B :=
  match r with
  | Ok a => f a
  | Raise e => Raise e
  end.

Notation "x <- c1 ;; c2" := (bind c1 (fun x => c2))
  (at level 61, c1 at next level, right associativity).

(** ** The close-by-default pass *)

(** The body of the test on a child [v] that is a dict:
    [if "properties" in v: if "additionalProperties" not in v:
       v["additionalProperties"] = False]. *)
Definition mark_closed (v : dict) : dict :=
  if dict_has "properties" v then
    if negb (dict_has "additionalProperties" v)
    then dict_set v "additionalProperties" (JBool false)
    else v
  else v.

(** [additional_properties(data)] with the state of its argument made
    explicit: the call returns the new tree and leaves [data] changed in
    place (the children that are dicts have been marked).  The result is
    the pair (returned value, [data] after the call).  The recursive call
    is on a child after its mutation, hence the fuel. *)
Fixpoint additional_properties_fuel (fuel : nat) (data : json) : option (json * json) :=
  match fuel with
  | O => None
  | S fuel' =>
      match data with
      | JDict items =>
          (fix loop (todo : dict) (new : dict) (seen : dict) {struct todo}
             : option (json * json) :=
             match todo with
             | [] => Some (JDict new, JDict seen)
             | (k, v) :: rest =>
                 match v with
                 | JDict vitems =>
                     match additional_properties_fuel fuel' (JDict (mark_closed vitems)) with
                     | Some (new_v, v') =>
                         loop rest (dict_set new k new_v) (seen ++ [(k, v')])
                     | None => None
                     end
                 | _ => loop rest (dict_set new k v) (seen ++ [(k, v)])
                 end
             end) items [] []
      | _ => Some (data, data) (* except AttributeError: return data *)
      end
  end.

Definition additional_properties_run (data : json) : option (json * json) :=
  additional_properties_fuel (S (json_depth data)) data.

(** The value returned by [additional_properties(data)]. *)
Definition additional_properties (data : json) : json :=
  match additional_properties_run data with
  | Some (new, _) => new
  | None => data
  end.

(** The object [data] once [additional_properties(data)] has returned. *)
Definition additional_properties_arg (data : json) : json :=
  match additional_properties_run data with
  | Some (_, data') => data'
  | None => data
  end.

(** ** The int-or-string pass *)

Definition is_str (v : json) (s : string) : bool :=
  match v with
  | JStr s' => String.eqb s' s
  | _ => false
  end.

(** ["format" in v and v["format"] == "int-or-string"] *)
Definition is_int_or_string (v : dict) : bool :=
  match dict_get "format" v with
  | Some f => is_str f "int-or-string"
  | None => false
  end.

Definition int_or_string_schema : json :=
  JDict [("oneOf", JList [JDict [("type", JStr "string")];
                          JDict [("type", JStr "integer")]])].

Fixpoint replace_int_or_string (data : json) : json :=
  match data with
  | JDict items =>
      JDict
        ((fix loop (todo : dict) (new : dict) {struct todo} : dict :=
            match todo with
            | [] => new
            | (k, v) :: rest =>
                let new_v :=
                  match v with
                  | JDict vitems =>
                      if is_int_or_string vitems then int_or_string_schema
                      else replace_int_or_string v
                  | JList xs =>
                      JList
                        ((fix each (l : list json) (acc : list json) {struct l}
                            : list json :=
                            match l with
                            | [] => acc
                            | x :: l' => each l' (acc ++ [replace_int_or_string x])
                            end) xs [])
                  | _ => v
                  end in
                loop rest (dict_set new k new_v)
            end) items [])
  | _ => data (* except AttributeError: return data *)
  end.

(** ** Python operators on values *)

(** [a == b]: booleans compare as the integers 0 and 1, lists element by
    element, dictionaries by their entries whatever the order. *)
Fixpoint py_eq (a b : json) {struct a} : bool :=
  match a, b with
  | JNull, JNull => true
  | JBool x, JBool y => Bool.eqb x y
  | JBool x, JInt n => Z.eqb (if x then 1 else 0) n
  | JInt n, JBool x => Z.eqb n (if x then 1 else 0)
  | JInt n, JInt m => Z.eqb n m
  | JStr s, JStr s' => String.eqb s s'
  | JList xs, JList ys =>
      (fix go (l : list json) (r : list json) {struct l} : bool :=
         match l, r with
         | [], [] => true
         | x :: l', y :: r' => py_eq x y && go l' r'
         | _, _ => false
         end) xs ys
  | JDict d, JDict e =>
      Nat.eqb (List.length d) (List.length e) &&
      (fix go (l : dict) {struct l} : bool :=
         match l with
         | [] => true
         | (k, v) :: l' =>
             match dict_get k e with
             | Some v' => py_eq v v'
             | None => false
             end && go l'
         end) d
  | _, _ => false
  end.

(** [needle in hay] on strings. *)
Fixpoint is_substring (needle hay : string) : bool :=
  prefix needle hay ||
  match hay with
  | EmptyString => false
  | String _ hay' => is_substring needle hay'
  end.

(** [x in container] *)
Definition py_contains (container x : json) : result bool :=
  match container with
  | JDict d =>
      match x with
      | JStr k => Ok (dict_has k d)
      | JList _ | JDict _ => Raise TypeError (* unhashable *)
      | _ => Ok false
      end
  | JList xs => Ok (existsb (py_eq x) xs)
  | JStr s =>
      match x with
      | JStr n => Ok (is_substring n s)
      | _ => Raise TypeError
      end
  | _ => Raise TypeError (* not iterable *)
  end.

(** [obj[k]] for a string [k] *)
Definition py_getitem (obj : json) (k : string) : result json :=
  match obj with
  | JDict d =>
      match dict_get k d with
      | Some v => Ok v
      | None => Raise (KeyError k)
      end
  | _ => Raise TypeError
  end.

(** [obj[k] = v] for a string [k] *)
Definition py_setitem (obj : json) (k : string) (v : json) : result json :=
  match obj with
  | JDict d => Ok (JDict (dict_set d k v))
  | _ => Raise TypeError
  end.

(** [lst.append(v)] *)
Definition py_append (lst v : json) : result json :=
  match lst with
  | JList xs => Ok (JList (xs ++ [v]))
  | _ => Raise AttributeError
  end.

(** [bool(v)] *)
Definition py_truthy (v : json) : bool :=
  match v with
  | JNull => false
  | JBool b => b
  | JInt n => negb (Z.eqb n 0)
  | JStr s => negb (String.eqb s "")
  | JList xs => negb (Nat.eqb (List.length xs) 0)
  | JDict d => negb (Nat.eqb (List.length d) 0)
  end.

Fixpoint chars (s : string) : list json :=
  match s with
  | EmptyString => []
  | String c s' => JStr (String c EmptyString) :: chars s'
  end.

(** [for x in v] *)
Definition py_iter (v : json) : result (list json) :=
  match v with
  | JList xs => Ok xs
  | JDict d => Ok (map JStr (keys d))
  | JStr s => Ok (chars s)
  | _ => Raise TypeError
  end.

(** ** The nullable-optional pass *)

(** [grand_parent and "required" in grand_parent], as a truth value. *)
Definition has_required_fields (grand_parent : option json) : result bool :=
  match grand_parent with
  | None => Ok false
  | Some g => if py_truthy g then py_contains g (JStr "required") else Ok false
  end.

(** The name read by the test of the [str] branch is [has_required_field],
    which no assignment binds: evaluating it raises [NameError].  [and]
    evaluates it only when [is_non_null_type] holds. *)
Fixpoint allow_null_optional_fields
  (data : json) (parent grand_parent : option json) (key : option string)
  {struct data} : result json :=
  match data with
  | JDict items =>
      (fix loop (todo : dict) (new : dict) {struct todo} : result json :=
         match todo with
         | [] => Ok (JDict new)
         | (k, v) :: rest =>
             new_v <-
               match v with
               | JDict _ => allow_null_optional_fields v (Some data) parent (Some k)
               | JList xs =>
                   (fix each (l : list json) (acc : list json) {struct l}
                      : result json :=
                      match l with
                      | [] => Ok (JList acc)
                      | x :: l' =>
                          x' <- allow_null_optional_fields x (Some v) parent (Some k) ;;
                          each l' (acc ++ [x'])
                      end) xs []
               | JStr s =>
                   let is_non_null_type :=
                     String.eqb k "type" && negb (String.eqb s "null") in
                   _ <- has_required_fields grand_parent ;;
                   if is_non_null_type
                   then Raise (NameError "has_required_field")
                   else Ok v
               | _ => Ok v
               end ;;
             loop rest (dict_set new k new_v)
         end) items []
  | _ => Ok data (* except AttributeError: return data *)
  end.

(** ** Appending to a list entry *)

Definition append_no_duplicates (obj : json) (key : string) (value : json)
  : result json :=
  present <- py_contains obj (JStr key) ;;
  obj <- (if negb present then py_setitem obj key (JList []) else Ok obj) ;;
  lst <- py_getitem obj key ;;
  found <- py_contains lst value ;;
  if negb found then
    lst' <- py_append lst value ;;  (* the list held by [obj] grows in place *)
    py_setitem obj key lst'
  else Ok obj.

(** ** Strings *)

(** What [str.lower] does to a string of ASCII characters: the letters
    [A] to [Z] become [a] to [z].  On other strings [str.lower] follows
    the Unicode tables of the interpreter and is a parameter of the run
    (see [lower] below). *)
Definition lower_char (c : ascii) : ascii :=
  let n := nat_of_ascii c in
  if (65 <=? n)%nat && (n <=? 90)%nat then ascii_of_nat (n + 32) else c.

Fixpoint lower_ascii (s : string) : string :=
  match s with
  | EmptyString => EmptyString
  | String c s' => String (lower_char c) (lower_ascii s')
  end.

Definition is_ascii_char (c : ascii) : bool := (nat_of_ascii c <? 128)%nat.

Fixpoint is_ascii (s : string) : bool :=
  match s with
  | EmptyString => true
  | String c s' => is_ascii_char c && is_ascii s'
  end.

(** [s.split(".")[0]] *)
Fixpoint first_segment (s : string) : string :=
  match s with
  | EmptyString => EmptyString
  | String c s' => if Ascii.eqb c "." then EmptyString else String c (first_segment s')
  end.

(** [os.path.basename(p)], which is [p[p.rfind("/") + 1:]]. *)
Fixpoint basename_from (p : string) (acc : string) : string :=
  match p with
  | EmptyString => acc
  | String c p' =>
      if Ascii.eqb c "/" then basename_from p' EmptyString
      else basename_from p' (acc ++ String c EmptyString)%string
  end.

Definition basename (p : string) : string := basename_from p EmptyString.

(** ** Format strings

    A format string is modelled by its parse: literal text and
    replacement fields [{name}].  The name of a field is made of ASCII
    letters, digits and [_]; conversions, format specifications,
    attribute or index access and other characters in a name are outside
    the model. *)

Inductive piece : Type :=
| Lit (s : string)
| Field (name : string).

Definition template := list piece.

Fixpoint kw_get (name : string) (kw : list (string * string)) : option string :=
  match kw with
  | [] => None
  | (n, v) :: kw' => if String.eqb name n then Some v else kw_get name kw'
  end.

Definition is_digit (c : ascii) : bool :=
  let n := nat_of_ascii c in ((48 <=? n) && (n <=? 57))%nat.

(** The number a string of digits writes; nothing for another string. *)
Fixpoint decimal (s : string) (acc : Z) : option Z :=
  match s with
  | EmptyString => Some acc
  | String c s' =>
      if is_digit c then decimal s' (10 * acc + Z.of_nat (nat_of_ascii c - 48))%Z
      else None
  end.

(** A field whose name is empty or a number stands for a positional
    argument.  The script passes none, so the field raises [IndexError],
    or [ValueError] when the number is above [sys.maxsize]. *)
Definition positional (name : string) : option exn :=
  match name with
  | EmptyString => Some IndexError
  | _ =>
      match decimal name 0 with
      | Some n => Some (if (n <=? 9223372036854775807)%Z then IndexError else ValueError)
      | None => None
      end
  end.

(** [tpl.format] with the keyword arguments [kw] and no positional
    argument, from left to right: a field that names no keyword raises
    [KeyError]. *)
Fixpoint format (tpl : template) (kw : list (string * string)) : result string :=
  match tpl with
  | [] => Ok EmptyString
  | Lit s :: tpl' => rest <- format tpl' kw ;; Ok (s ++ rest)%string
  | Field name :: tpl' =>
      match positional name with
      | Some e => Raise e
      | None =>
          match kw_get name kw with
          | Some v => rest <- format tpl' kw ;; Ok (v ++ rest)%string
          | None => Raise (KeyError name)
          end
      end
  end.

Definition is_name_char (c : ascii) : bool :=
  let n := nat_of_ascii c in
  ((97 <=? n) && (n <=? 122) || (65 <=? n) && (n <=? 90) || (n =? 95))%nat.

(** The literal text of the format string is ASCII. *)
Definition ascii_template (tpl : template) : bool :=
  forallb (fun p => match p with
                    | Lit s => is_ascii s
                    | Field _ => true
                    end) tpl.

Definition flush (lit : string) : template :=
  match lit with
  | EmptyString => []
  | _ => [Lit lit]
  end.

(** The parse of a format string of the modelled fragment. *)
Fixpoint parse_from (s : string) (lit : string) (field : option string)
  : option template :=
  match s with
  | EmptyString =>
      match field with
      | None => Some (flush lit)
      | Some _ => None
      end
  | String c s' =>
      match field with
      | None =>
          if Ascii.eqb c "{" then
            option_map (app (flush lit)) (parse_from s' EmptyString (Some EmptyString))
          else if Ascii.eqb c "}" then None
          else parse_from s' (lit ++ String c EmptyString)%string None
      | Some name =>
          if Ascii.eqb c "}" then
            option_map (cons (Field name)) (parse_from s' EmptyString None)
          else if is_name_char c || is_digit c then
            parse_from s' EmptyString (Some (name ++ String c EmptyString)%string)
          else None
      end
  end.

Definition parse_template (s : string) : option template :=
  parse_from s EmptyString None.

(** The parse of ["{kind}-{group}-{version}"]. *)
Definition default_filename_format : template :=
  [Field "kind"; Lit "-"; Field "group"; Lit "-"; Field "version"].

(** ** Schema records *)

(** The dataclass [Schema].  Python does not enforce the annotations, so
    a field holds whatever value the document has there. *)
Record Schema : Type := mkSchema {
  kind : json;
  group : json;
  version : json;
  definition : json
}.

(** ** The extraction loop *)

(** ["spec" in y and "validation" in y["spec"]
     and "openAPIV3Schema" in y["spec"]["validation"]] *)
Definition legacy_shape (y : json) : result bool :=
  c <- py_contains y (JStr "spec") ;;
  if negb c then Ok false else
  spec <- py_getitem y "spec" ;;
  c <- py_contains spec (JStr "validation") ;;
  if negb c then Ok false else
  spec <- py_getitem y "spec" ;;
  validation <- py_getitem spec "validation" ;;
  py_contains validation (JStr "openAPIV3Schema").

(** ["spec" in y and "versions" in y["spec"]] *)
Definition modern_shape (y : json) : result bool :=
  c <- py_contains y (JStr "spec") ;;
  if negb c then Ok false else
  spec <- py_getitem y "spec" ;;
  py_contains spec (JStr "versions").

(** The body of [for version in y["spec"]["versions"]]. *)
Definition extract_version (y version : json) (schemas : list Schema)
  : result (list Schema) :=
  c <- py_contains version (JStr "schema") ;;
  if negb c then Ok schemas else
  schema <- py_getitem version "schema" ;;
  c <- py_contains schema (JStr "openAPIV3Schema") ;;
  if negb c then Ok schemas else
  spec <- py_getitem y "spec" ;;
  names <- py_getitem spec "names" ;;
  k <- py_getitem names "kind" ;;
  spec <- py_getitem y "spec" ;;
  g <- py_getitem spec "group" ;;
  v <- py_getitem version "name" ;;
  schema <- py_getitem version "schema" ;;
  d <- py_getitem schema "openAPIV3Schema" ;;
  Ok (schemas ++ [mkSchema k g v d]).

Fixpoint extract_versions (y : json) (versions : list json) (schemas : list Schema)
  : result (list Schema) :=
  match versions with
  | [] => Ok schemas
  | version :: rest =>
      schemas <- extract_version y version schemas ;;
      extract_versions y rest schemas
  end.

(** The body of [for y in yaml.load_all(f, ...)]: the list [schemas]
    after the document [y]. *)
Definition extract_document (y : json) (schemas : list Schema)
  : result (list Schema) :=
  c <- py_contains y (JStr "kind") ;;
  if negb c then Ok schemas else
  k <- py_getitem y "kind" ;;
  if negb (py_eq k (JStr "CustomResourceDefinition")) then Ok schemas else
  legacy <- legacy_shape y ;;
  if legacy then
    spec <- py_getitem y "spec" ;;
    names <- py_getitem spec "names" ;;
    k <- py_getitem names "kind" ;;
    spec <- py_getitem y "spec" ;;
    g <- py_getitem spec "group" ;;
    spec <- py_getitem y "spec" ;;
    v <- py_getitem spec "version" ;;
    spec <- py_getitem y "spec" ;;
    validation <- py_getitem spec "validation" ;;
    d <- py_getitem validation "openAPIV3Schema" ;;
    Ok (schemas ++ [mkSchema k g v d])
  else
    modern <- modern_shape y ;;
    if modern then
      spec <- py_getitem y "spec" ;;
      versions <- py_getitem spec "versions" ;;
      versions <- py_iter versions ;;
      extract_versions y versions schemas
    else Ok schemas.

Fixpoint extract_documents (docs : list json) (schemas : list Schema)
  : result (list Schema) :=
  match docs with
  | [] => Ok schemas
  | y :: rest =>
      schemas <- extract_document y schemas ;;
      extract_documents rest schemas
  end.

(** ** The outside world *)

(** What a run leaves behind: the lines printed, and the files of the
    working directory, each with the documents written to it since it was
    last opened for writing ([json.dumps] is not modelled: a file holds
    the values that were dumped). *)
Record world : Type := mkWorld {
  stdout : list string;
  files : list (string * list json)
}.

Fixpoint fs_open (name : string) (fs : list (string * list json))
  : list (string * list json) :=
  match fs with
  | [] => [(name, [])]
  | (n, c) :: fs' =>
      if String.eqb name n then (n, []) :: fs' else (n, c) :: fs_open name fs'
  end.

Fixpoint fs_write (name : string) (doc : json) (fs : list (string * list json))
  : list (string * list json) :=
  match fs with
  | [] => [(name, [doc])]
  | (n, c) :: fs' =>
      if String.eqb name n then (n, c ++ [doc]) :: fs'
      else (n, c) :: fs_write name doc fs'
  end.

Fixpoint fs_read (name : string) (fs : list (string * list json))
  : option (list json) :=
  match fs with
  | [] => None
  | (n, c) :: fs' => if String.eqb name n then Some c else fs_read name fs'
  end.

Definition print (line : string) (w : world) : world :=
  mkWorld (stdout w ++ [line]) (files w).

(** [open(name, "w")]: the file is created or emptied. *)
Definition open_w (name : string) (w : world) : world :=
  mkWorld (stdout w) (fs_open name (files w)).

Definition write (name : string) (doc : json) (w : world) : world :=
  mkWorld (stdout w) (fs_write name doc (files w)).

(** How a run ends: [exit(code)], or an exception nothing catches. *)
Inductive status : Type :=
| Exit (code : Z)
| Traceback (e : exn).

(** ** The emitter *)

(** [append_no_duplicates(definition["properties"][field], "enum", value)]:
    the object [definition] after the call. *)
Definition add_enum (definition : json) (field : string) (value : json)
  : result json :=
  properties <- py_getitem definition "properties" ;;
  target <- py_getitem properties field ;;
  target <- append_no_duplicates target "enum" value ;;
  properties <- py_setitem properties field target ;;
  py_setitem definition "properties" properties.

Section Program.

(** [urllib.request.urlopen] and [open] followed by [yaml.load_all]: the
    documents the loader yields and the exception that ends the stream,
    if any; or the exception raised on opening. *)
Variable urlopen : string -> result (list json * option exn).
Variable open_file : string -> result (list json * option exn).

(** The parse of the environment variable [FILENAME_FORMAT], if set. *)
Variable FILENAME_FORMAT : option template.

(** [str(v)] for a value that is not a string. *)
Variable str_other : json -> string.

(** [s.lower()] *)
Variable lower : string -> string.

(** [open(name, "w")] in the working directory: the exception it raises,
    if it raises one (an empty name, a name that holds a NUL byte or is
    too long, a directory, a missing permission). *)
Variable open_error : string -> option exn.

(** [write_schema_file(schema, filename)]: the object passed as [schema]
    after the call, and the world, or the exception of [open]. *)
Definition write_schema_file (schema : json) (filename : string) (w : world)
  : json * result world :=
  let passed := additional_properties_arg schema in
  let schema := additional_properties schema in
  let schema := replace_int_or_string schema in
  let filename := basename filename in
  (passed,
   match open_error filename with
   | Some e => Raise e
   | None =>
       let w := open_w filename w in
       let w := write filename schema w in
       Ok (print filename w)
   end).

(** What a replacement field of a format string or f-string shows. *)
Definition py_str (v : json) : string :=
  match v with
  | JStr s => s
  | _ => str_other v
  end.

(** [for crdFile in sys.argv[1:]] *)
Fixpoint load_files (paths : list string) (schemas : list Schema)
  : result (list Schema) :=
  match paths with
  | [] => Ok schemas
  | crdFile :: rest =>
      f <- (if prefix "http" crdFile then urlopen crdFile else open_file crdFile) ;;
      schemas <- extract_documents (fst f) schemas ;;
      schemas <- match snd f with
                 | Some e => Raise e
                 | None => Ok schemas
                 end ;;
      load_files rest schemas
  end.

Definition filename_format : template :=
  match FILENAME_FORMAT with
  | Some tpl => tpl
  | None => default_filename_format
  end.

(** [schema.group.split(".")[0]] *)
Definition group_segment (g : json) : result string :=
  match g with
  | JStr s => Ok (first_segment s)
  | _ => Raise AttributeError
  end.

(** The file name computed in the loop that writes the schema files. *)
Definition schema_filename (schema : Schema) : result string :=
  g <- group_segment (group schema) ;;
  name <- format filename_format
            [("kind", py_str (kind schema)); ("group", g);
             ("version", py_str (version schema))] ;;
  Ok (lower name ++ ".json")%string.

(** The record gets the schema file [n]: its file name can be made, [n]
    is the base name of it, and [open] accepts [n]. *)
Definition schema_file (schema : Schema) (n : string) : Prop :=
  exists filename,
    schema_filename schema = Ok filename /\ basename filename = n /\
    open_error n = None.

(** [for schema in schemas: ... write_schema_file(schema.definition, filename)]:
    the records after the loop (their definitions were changed in place),
    or the exception that stopped it, and the world. *)
Fixpoint write_schema_files (schemas : list Schema) (w : world)
  : result (list Schema) * world :=
  match schemas with
  | [] => (Ok [], w)
  | schema :: rest =>
      match schema_filename schema with
      | Raise e => (Raise e, w)
      | Ok filename =>
          match write_schema_file (definition schema) filename w with
          | (_, Raise e) => (Raise e, w)
          | (d, Ok w) =>
              let schema := mkSchema (kind schema) (group schema) (version schema) d in
              match write_schema_files rest w with
              | (Ok rest, w) => (Ok (schema :: rest), w)
              | (Raise e, w) => (Raise e, w)
              end
          end
      end
  end.

(** The key of a schema in [definitions]. *)
Definition definition_key (schema : Schema) : string :=
  (py_str (group schema) ++ "." ++ py_str (version schema) ++ "."
   ++ py_str (kind schema))%string.

(** The loop that fills [definitions], for records that share no object:
    each definition is changed on its own.  [build_definitions_in_place]
    below is the loop on objects that may be shared. *)
Fixpoint build_definitions (schemas : list Schema) (definitions : dict)
  : result dict :=
  match schemas with
  | [] => Ok definitions
  | schema :: rest =>
      d <- add_enum (definition schema) "apiVersion"
             (JStr (py_str (group schema) ++ "/" ++ py_str (version schema))%string) ;;
      d <- add_enum d "kind" (kind schema) ;;
      build_definitions rest (dict_set definitions (definition_key schema) d)
  end.

Definition all_refs (schemas : list Schema) : list json :=
  map (fun schema =>
         JDict [("$ref",
                 JStr ("_definitions.json#/definitions/" ++ definition_key schema)%string)])
      schemas.

(** The script, run with [sys.argv = argv] in the world [w]. *)
Definition main (argv : list string) (w : world) : status * world :=
  if Nat.eqb (List.length argv) 0 then (Exit 1, print "missing file" w)
  else
    match load_files (tl argv) [] with
    | Raise e => (Traceback e, w)
    | Ok schemas =>
        match write_schema_files schemas w with
        | (Raise e, w) => (Traceback e, w)
        | (Ok schemas, w) =>
            match open_error "_definitions.json" with
            | Some e => (Traceback e, w)
            | None =>
                let w := open_w "_definitions.json" w in
                match build_definitions schemas [] with
                | Raise e => (Traceback e, w)
                | Ok definitions =>
                    let w := write "_definitions.json"
                               (JDict [("definitions", JDict definitions)]) w in
                    match open_error "all.json" with
                    | Some e => (Traceback e, w)
                    | None =>
                        let w := open_w "all.json" w in
                        let w := write "all.json"
                                   (JDict [("oneOf", JList (all_refs schemas))]) w in
                        (Exit 0, w)
                    end
                end
            end
        end
    end.

End Program.


(** ** The passes, read as equations

    What each pass returns on a well-formed tree, by structural
    recursion.  These are the right-hand sides of the equations proved
    below, not models of the code. *)

(** A dict declares [properties] and no [additionalProperties]. *)
Definition closes (d : dict) : bool :=
  dict_has "properties" d && negb (dict_has "additionalProperties" d).

(** What a value held by a visited dict becomes in the close-by-default pass. *)
Fixpoint close_value (v : json) : json :=
  match v with
  | JDict vd =>
      JDict (map (fun kv => (fst kv, close_value (snd kv))) vd
             ++ (if closes vd then [("additionalProperties", JBool false)] else []))
  | _ => v
  end.

(** What the tree passed to the close-by-default pass becomes. *)
Definition close_root (t : json) : json :=
  match t with
  | JDict d => JDict (map (fun kv => (fst kv, close_value (snd kv))) d)
  | _ => t
  end.

(** The node reached from [t] by a path of keys. *)
Fixpoint subtree (t : json) (path : list string) : option json :=
  match path with
  | [] => Some t
  | k :: path' =>
      match t with
      | JDict d =>
          match dict_get k d with
          | Some v => subtree v path'
          | None => None
          end
      | _ => None
      end
  end.

Definition is_root (path : list string) : bool :=
  match path with
  | [] => true
  | _ => false
  end.

Definition is_dict (v : json) : bool :=
  match v with
  | JDict _ => true
  | _ => false
  end.

Definition is_list (v : json) : bool :=
  match v with
  | JList _ => true
  | _ => false
  end.

Definition is_scalar (v : json) : bool :=
  match v with
  | JList _ | JDict _ => false
  | _ => true
  end.

(** What the value of an entry of a visited dict becomes in the
    int-or-string pass. *)
Definition widen_value (v : json) : json :=
  match v with
  | JDict vd =>
      if is_int_or_string vd then int_or_string_schema else replace_int_or_string v
  | JList xs => JList (map replace_int_or_string xs)
  | _ => v
  end.

(** The entry [(k, v)] makes the nullable-optional pass read the unbound
    name: it is [type] with a string other than ["null"], or it holds a
    dict, or a list with an element, where the pass meets such an entry. *)
Fixpoint meets_type (t : json) : bool :=
  match t with
  | JDict d =>
      existsb (fun kv =>
                 match snd kv with
                 | JDict _ => meets_type (snd kv)
                 | JList xs => existsb meets_type xs
                 | JStr s => String.eqb (fst kv) "type" && negb (String.eqb s "null")
                 | _ => false
                 end) d
  | _ => false
  end.

(** The values [parent] and [grand_parent] take in the recursion. *)
Definition container_or_none (o : option json) : bool :=
  match o with
  | None | Some (JDict _) | Some (JList _) => true
  | _ => false
  end.

(** What a call of the nullable-optional pass on [t] comes to, whatever
    the context it is called in. *)
Definition allow_null_outcome (t : json) : Prop :=
  forall parent grand_parent key,
  container_or_none parent = true -> container_or_none grand_parent = true ->
  if meets_type t
  then allow_null_optional_fields t parent grand_parent key
       = Raise (NameError "has_required_field")
  else exists t', allow_null_optional_fields t parent grand_parent key = Ok t' /\
                  (wf t = true -> t' = t).

(** The tree holds, anywhere, an entry [type] whose value is a string
    other than ["null"]. *)
Fixpoint has_type_entry (t : json) : bool :=
  match t with
  | JDict d =>
      existsb (fun kv =>
                 match snd kv with
                 | JStr s => String.eqb (fst kv) "type" && negb (String.eqb s "null")
                 | _ => has_type_entry (snd kv)
                 end) d
  | JList xs => existsb has_type_entry xs
  | _ => false
  end.

(** ** Sample documents *)

(** A schema whose root and whose [spec] declare [properties]; [port] is
    an int-or-string field and [ports] a list of such fields. *)
Definition sample_schema : json :=
  JDict
    [("type", JStr "object");
     ("properties",
      JDict
        [("apiVersion", JDict [("type", JStr "string")]);
         ("kind", JDict [("type", JStr "string")]);
         ("spec",
          JDict
            [("type", JStr "object");
             ("properties",
              JDict
                [("port", JDict [("format", JStr "int-or-string");
                                 ("description", JStr "a port")]);
                 ("ports",
                  JDict [("type", JStr "array");
                         ("items", JList [JDict [("format", JStr "int-or-string")]])])])])])].

(** A node that declares [properties] and nothing else. *)
Definition open_node : json := JDict [("properties", JDict [])].

(** A schema whose only such node is an element of a list. *)
Definition open_in_list : json := JDict [("allOf", JList [open_node])].

(** An int-or-string node with a sibling key. *)
Definition int_or_string_node : json :=
  JDict [("format", JStr "int-or-string"); ("description", JStr "a port")].

(** A [type] entry inside a list that is an element of a list. *)
Definition nested_list_schema : json :=
  JDict [("default", JList [JList [JDict [("type", JStr "string")]]])].

(** A schema without any [type] entry. *)
Definition untyped_schema : json :=
  JDict [("properties", JDict [("replicas", JDict [("minimum", JInt 0)])])].

(** How many elements of [l] equal [value]. *)
Definition occurrences (value : json) (l : list json) : nat :=
  List.length (filter (py_eq value) l).

(** The list a dict holds under [key], empty when the key is absent;
    nothing when the key holds something else. *)
Definition list_at (key : string) (d : dict) : option (list json) :=
  match dict_get key d with
  | None => Some []
  | Some (JList l) => Some l
  | Some _ => None
  end.

(** [l] with [value] appended unless an element equals it. *)
Definition with_value (l : list json) (value : json) : list json :=
  if existsb (py_eq value) l then l else l ++ [value].

(** What reading [spec.names.kind] and then [spec.group] comes to, for a
    [spec] that is the dict [sp]. *)
Definition names_and_group (sp : dict) : result (json * json) :=
  match dict_get "names" sp with
  | None => Raise (KeyError "names")
  | Some (JDict names) =>
      match dict_get "kind" names with
      | None => Raise (KeyError "kind")
      | Some k =>
          match dict_get "group" sp with
          | None => Raise (KeyError "group")
          | Some g => Ok (k, g)
          end
      end
  | Some _ => Raise TypeError
  end.

(** The record made of [spec.names.kind], [spec.group], the version found
    under [field] of the dict [holder], and [schema]; or the [KeyError] of
    the first of them that is missing. *)
Definition record_or_error (sp holder : dict) (field : string) (schema : json)
  (schemas : list Schema) : result (list Schema) :=
  kg <- names_and_group sp ;;
  match dict_get field holder with
  | None => Raise (KeyError field)
  | Some v => Ok (schemas ++ [mkSchema (fst kg) (snd kg) v schema])
  end.

(** The dict [sp] has no [validation], or a [validation] that is a dict
    without [openAPIV3Schema]. *)
Definition no_legacy_schema (sp : dict) : bool :=
  match dict_get "validation" sp with
  | None => true
  | Some (JDict validation) => negb (dict_has "openAPIV3Schema" validation)
  | Some _ => false
  end.

(** A legacy CRD without [spec.names], and a CRD with one version entry
    that has no [name]. *)
Definition crd_without_names : json :=
  JDict [("kind", JStr "CustomResourceDefinition");
         ("spec", JDict [("group", JStr "example.com"); ("version", JStr "v1");
                         ("validation", JDict [("openAPIV3Schema", open_node)])])].

Definition crd_without_version_name : json :=
  JDict [("kind", JStr "CustomResourceDefinition");
         ("spec", JDict [("group", JStr "example.com");
                         ("names", JDict [("kind", JStr "Foo")]);
                         ("versions",
                          JList [JDict [("schema", JDict [("openAPIV3Schema", open_node)])]])])].

(** A CRD with neither [validation] nor [versions]. *)
Definition crd_without_schema : json :=
  JDict [("kind", JStr "CustomResourceDefinition");
         ("spec", JDict [("group", JStr "example.com");
                         ("names", JDict [("kind", JStr "Foo")])])].

(** ** The file name, in the words of the specification *)

Fixpoint has_char (c : ascii) (s : string) : bool :=
  match s with
  | EmptyString => false
  | String c' s' => Ascii.eqb c' c || has_char c s'
  end.

Definition has_slash (s : string) : bool := has_char "/" s.

(** [segment] is the first dot-delimited segment of [g]: what stands
    before the first dot, or [g] when it has none. *)
Definition first_dot_segment (g segment : string) : Prop :=
  has_char "." segment = false /\
  (g = segment \/ exists rest, g = (segment ++ "." ++ rest)%string).

(** [base] is the base name component of [path]: what stands after the
    last [/], or [path] when it has none. *)
Definition base_name_component (path base : string) : Prop :=
  has_slash base = false /\
  (path = base \/ exists dir, path = (dir ++ "/" ++ base)%string).

(** The template: [FILENAME_FORMAT], and ["{kind}-{group}-{version}"]
    when it is not set. *)
Definition spec_template (env : option template) : template :=
  match env with
  | Some tpl => tpl
  | None => [Field "kind"; Lit "-"; Field "group"; Lit "-"; Field "version"]
  end.

(** The placeholders [{kind}], [{group}] and [{version}]. *)
Inductive placeholder (k segment v : string) : string -> string -> Prop :=
| placeholder_kind : placeholder k segment v "kind" k
| placeholder_group : placeholder k segment v "group" segment
| placeholder_version : placeholder k segment v "version" v.

(** [text] is the template with each placeholder replaced. *)
Inductive renders (k segment v : string) : template -> string -> Prop :=
| renders_end : renders k segment v [] EmptyString
| renders_text (s : string) (tpl : template) (text : string) :
    renders k segment v tpl text ->
    renders k segment v (Lit s :: tpl) (s ++ text)%string
| renders_placeholder (name value : string) (tpl : template) (text : string) :
    placeholder k segment v name value ->
    renders k segment v tpl text ->
    renders k segment v (Field name :: tpl) (value ++ text)%string.

(** [n] is the file name of the record [s], whose kind, group and version
    are strings: the template rendered with the kind, the first segment
    of the group and the version, in lower case, followed by [.json], cut
    down to its base name. *)
Definition spec_file_name (lower : string -> string) (env : option template)
  (s : Schema) (n : string) : Prop :=
  exists k g v segment text,
    kind s = JStr k /\ group s = JStr g /\ version s = JStr v /\
    first_dot_segment g segment /\
    renders k segment v (spec_template env) text /\
    base_name_component (lower text ++ ".json")%string n.

(** The record after [write_schema_file] was called on its definition. *)
Definition written (s : Schema) : Schema :=
  mkSchema (kind s) (group s) (version s) (additional_properties_arg (definition s)).

(** The record of the CRD [Foo] of group [example.com], version [v1]. *)
Definition foo_v1 : Schema :=
  mkSchema (JStr "Foo") (JStr "example.com") (JStr "v1") sample_schema.

(** An empty working directory and a silent terminal. *)
Definition fresh : world := mkWorld [] [].

(** A rendering of the values that are not strings. *)
Definition no_str (v : json) : string := EmptyString.

(** An operating system that refuses the empty name, a name that holds a NUL byte and a
    name of more than 255 bytes. *)
Definition posix_open (name : string) : option exn :=
  match name with
  | EmptyString => Some OSError
  | _ =>
      if has_char zero name then Some ValueError
      else if (255 <? String.length name)%nat then Some OSError
      else None
  end.

(** ** The definitions file, read as equations *)

(** The tree [t] with [v] put at the end of a path of keys; the last key
    may be new, the others must lead through dicts. *)
Fixpoint set_path (t : json) (path : list string) (v : json) : json :=
  match path with
  | [] => v
  | k :: path' =>
      match t with
      | JDict d =>
          match path', dict_get k d with
          | [], _ => JDict (dict_set d k v)
          | _, Some child => JDict (dict_set d k (set_path child path' v))
          | _, None => t
          end
      | _ => t
      end
  end.

(** The definition [def] with [value] added, unless already there, to the
    list [properties.field.enum]; defined when [properties.field] is a
    dict whose [enum] is absent or a list. *)
Definition enum_added (def : json) (field : string) (value : json) : option json :=
  match subtree def ["properties"; field] with
  | Some (JDict target) =>
      match list_at "enum" target with
      | Some l =>
          Some (set_path def ["properties"; field; "enum"] (JList (with_value l value)))
      | None => None
      end
  | _ => None
  end.

(** The two lookups the definitions loop makes in a definition, and the
    exception of the first one that fails. *)
Definition target_error (def : json) (field : string) : option exn :=
  match def with
  | JDict d =>
      match dict_get "properties" d with
      | None => Some (KeyError "properties")
      | Some (JDict properties) =>
          match dict_get field properties with
          | None => Some (KeyError field)
          | Some (JDict _) => None
          | Some _ => Some TypeError
          end
      | Some _ => Some TypeError
      end
  | _ => Some TypeError
  end.



Section Entries.

Variable str_other : json -> string.

(** The value the loop adds to [properties.apiVersion.enum]. *)
Definition api_version (s : Schema) : json :=
  JStr (py_str str_other (group s) ++ "/" ++ py_str str_other (version s))%string.

(** The entry of a record in [definitions]: its definition as the write
    loop left it, with the two [enum] lists grown. *)
Definition definitions_entry (s : Schema) : option json :=
  match enum_added (additional_properties_arg (definition s)) "apiVersion" (api_version s) with
  | Some d => enum_added d "kind" (kind s)
  | None => None
  end.

(** [definitions] after the loop, from the records and their entries. *)
Definition definitions_of (schemas : list Schema) (entries : list json) : dict :=
  fold_left (fun acc se => dict_set acc (definition_key str_other (fst se)) (snd se))
            (combine schemas entries) [].

End Entries.

(** A loader that finds the CRD of [foo_v1] in every file. *)
Definition foo_crd : json :=
  JDict [("kind", JStr "CustomResourceDefinition");
         ("spec",
          JDict [("group", JStr "example.com");
                 ("names", JDict [("kind", JStr "Foo")]);
                 ("versions",
                  JList [JDict [("name", JStr "v1");
                                ("schema", JDict [("openAPIV3Schema", sample_schema)])]])])].

Definition foo_loader (path : string) : result (list json * option exn) :=
  Ok ([foo_crd], None).

(** The entry of [foo_v1] in [definitions]. *)
Definition foo_v1_entry : json :=
  Eval vm_compute in
    match definitions_entry no_str foo_v1 with
    | Some e => e
    | None => JNull
    end.






(** ** Objects changed in place

    [append_no_duplicates] changes the object it is given, and the loop
    that fills [definitions] calls it on the objects the loader built.
    When the YAML source uses an alias, one object is reached from two
    places and a change made through one shows through the other.  Here
    a list or a dict carries the identity of its Python object: an
    object that is reached from two places occurs at both, with the same
    identity and the same content.  Cyclic objects are outside the
    model. *)

Unset Elimination Schemes.
Inductive obj : Type :=
| ONull
| OBool (b : bool)
| OInt (n : Z)
| OStr (s : string)
| OList (id : nat) (xs : list obj)
| ODict (id : nat) (items : list (string * obj)).
Set Elimination Schemes.

Section ObjInduction.
Variable P : obj -> Prop.
Hypothesis HNull : P ONull.
Hypothesis HBool : forall b, P (OBool b).
Hypothesis HInt : forall n, P (OInt n).
Hypothesis HStr : forall s, P (OStr s).
Hypothesis HList : forall id xs, Forall P xs -> P (OList id xs).
Hypothesis HDict : forall id items,
  Forall (fun kv => P (snd kv)) items -> P (ODict id items).

Fixpoint obj_ind (o : obj) : P o :=
  match o with
  | ONull => HNull
  | OBool b => HBool b
  | OInt n => HInt n
  | OStr s => HStr s
  | OList id xs =>
      HList id xs ((fix all (l : list obj) : Forall P l :=
                      match l with
                      | [] => Forall_nil P
                      | x :: l' => Forall_cons x (obj_ind x) (all l')
                      end) xs)
  | ODict id items =>
      HDict id items
        ((fix all (l : list (string * obj)) : Forall (fun kv => P (snd kv)) l :=
            match l with
            | [] => Forall_nil _
            | kv :: l' => Forall_cons kv (obj_ind (snd kv)) (all l')
            end) items)
  end.
End ObjInduction.

(** The value of an object: what [json.dumps], [==] and [in] see. *)
Fixpoint erase (o : obj) : json :=
  match o with
  | ONull => JNull
  | OBool b => JBool b
  | OInt n => JInt n
  | OStr s => JStr s
  | OList _ xs => JList (map erase xs)
  | ODict _ items => JDict (map (fun kv => (fst kv, erase (snd kv))) items)
  end.

(** The identities of the lists and dicts of an object, itself first. *)
Fixpoint ids (o : obj) : list nat :=
  match o with
  | OList id xs => id :: flat_map ids xs
  | ODict id items => id :: flat_map (fun kv => ids (snd kv)) items
  | _ => []
  end.

(** [o] once the object of identity [id] has become [new]: it changes
    wherever it occurs. *)
Fixpoint assign (id : nat) (new : obj) (o : obj) : obj :=
  match o with
  | OList id' xs =>
      if Nat.eqb id' id then new else OList id' (map (assign id new) xs)
  | ODict id' items =>
      if Nat.eqb id' id then new
      else ODict id' (map (fun kv => (fst kv, assign id new (snd kv))) items)
  | _ => o
  end.

(** The definitions of the records, in the order of the records. *)
Definition store := list obj.

(** An identity no object of the store has. *)
Definition fresh_id (st : store) : nat :=
  S (fold_right Nat.max 0 (flat_map ids st)).

Fixpoint obj_get (k : string) (items : list (string * obj)) : option obj :=
  match items with
  | [] => None
  | (k', v) :: items' => if String.eqb k k' then Some v else obj_get k items'
  end.

Fixpoint obj_set (items : list (string * obj)) (k : string) (v : obj)
  : list (string * obj) :=
  match items with
  | [] => [(k, v)]
  | (k', v') :: items' =>
      if String.eqb k k' then (k', v) :: items' else (k', v') :: obj_set items' k v
  end.

(** [x in container] *)
Definition obj_contains (container x : obj) : result bool :=
  py_contains (erase container) (erase x).

(** [o[k]] for a string [k] *)
Definition obj_getitem (o : obj) (k : string) : result obj :=
  match o with
  | ODict _ items =>
      match obj_get k items with
      | Some v => Ok v
      | None => Raise (KeyError k)
      end
  | _ => Raise TypeError
  end.

(** [target[k] = v]: the store and [target] after the assignment. *)
Definition obj_setitem (st : store) (target : obj) (k : string) (v : obj)
  : result (store * obj) :=
  match target with
  | ODict id items =>
      let target' := ODict id (obj_set items k v) in
      Ok (map (assign id target') st, target')
  | _ => Raise TypeError
  end.

(** [lst.append(v)]: the store after the call. *)
Definition obj_append (st : store) (lst v : obj) : result store :=
  match lst with
  | OList id xs => Ok (map (assign id (OList id (xs ++ [v]))) st)
  | _ => Raise AttributeError
  end.

(** [append_no_duplicates(obj, key, value)] for a string [value], on the
    object [target] of the store: the store after the call. *)
Definition append_no_duplicates_in_place
  (st : store) (target : obj) (key : string) (value : string) : result store :=
  present <- obj_contains target (OStr key) ;;
  after <- (if negb present
            then obj_setitem st target key (OList (fresh_id st) [])
            else Ok (st, target)) ;;
  lst <- obj_getitem (snd after) key ;;
  found <- obj_contains lst (OStr value) ;;
  if negb found then obj_append (fst after) lst (OStr value) else Ok (fst after).

(** [append_no_duplicates(schema.definition["properties"][field], "enum", value)]
    for the record at place [k]. *)
Definition add_enum_in_place (st : store) (k : nat) (field value : string)
  : result store :=
  properties <- obj_getitem (nth k st ONull) "properties" ;;
  target <- obj_getitem properties field ;;
  append_no_duplicates_in_place st target "enum" value.

(** The kind, group and version of a record whose definition is held by
    the store; they are strings. *)
Record heading : Type := mkHeading {
  h_kind : string;
  h_group : string;
  h_version : string
}.

Definition heading_key (h : heading) : string :=
  (h_group h ++ "." ++ h_version h ++ "." ++ h_kind h)%string.

(** [definitions[key] = schema.definition]: [definitions] holds the
    object, here the place of the record. *)
Fixpoint ref_set (definitions : list (string * nat)) (key : string) (k : nat)
  : list (string * nat) :=
  match definitions with
  | [] => [(key, k)]
  | (key', k') :: rest =>
      if String.eqb key key' then (key', k) :: rest
      else (key', k') :: ref_set rest key k
  end.

(** The loop that fills [definitions], from the record at place [k] on. *)
Fixpoint build_definitions_in_place
  (records : list heading) (k : nat) (st : store) (definitions : list (string * nat))
  : result (store * list (string * nat)) :=
  match records with
  | [] => Ok (st, definitions)
  | schema :: rest =>
      st <- add_enum_in_place st k "apiVersion"
              (h_group schema ++ "/" ++ h_version schema)%string ;;
      st <- add_enum_in_place st k "kind" (h_kind schema) ;;
      build_definitions_in_place rest (S k) st
        (ref_set definitions (heading_key schema) k)
  end.

(** [{"definitions": definitions}] as [json.dumps] reads it when the loop
    is over. *)
Definition definitions_document (st : store) (definitions : list (string * nat))
  : json :=
  JDict [("definitions",
          JDict (map (fun kr => (fst kr, erase (nth (snd kr) st ONull))) definitions))].

(** No object occurs twice in the store. *)
Definition unshared (st : store) : Prop := NoDup (flat_map ids st).

(** ** The objects of a store, by place and path *)

(** The list [l] with [x] at place [k]. *)
Fixpoint put {A : Type} (k : nat) (x : A) (l : list A) : list A :=
  match l, k with
  | [], _ => []
  | _ :: l', O => x :: l'
  | y :: l', S k' => y :: put k' x l'
  end.

(** The object reached from [o] by a path of keys. *)
Fixpoint obj_subtree (o : obj) (path : list string) : option obj :=
  match path with
  | [] => Some o
  | k :: path' =>
      match o with
      | ODict _ items =>
          match obj_get k items with
          | Some v => obj_subtree v path'
          | None => None
          end
      | _ => None
      end
  end.

(** [o] with [new] at the end of a path of keys that leads somewhere. *)
Fixpoint obj_put (o : obj) (path : list string) (new : obj) : obj :=
  match path with
  | [] => new
  | k :: path' =>
      match o with
      | ODict id items =>
          match obj_get k items with
          | Some v => ODict id (obj_set items k (obj_put v path' new))
          | None => o
          end
      | _ => o
      end
  end.

Definition id_of (o : obj) : option nat :=
  match o with
  | OList id _ | ODict id _ => Some id
  | _ => None
  end.




(** The elements of a list as objects, one after the other. *)
Fixpoint label_each (label : json -> nat -> obj * nat) (l : list json) (next : nat)
  : list obj * nat :=
  match l with
  | [] => ([], next)
  | x :: l' =>
      let (o, n1) := label x next in
      let (os, n2) := label_each label l' n1 in
      (o :: os, n2)
  end.

Fixpoint label_items (label : json -> nat -> obj * nat) (l : dict) (next : nat)
  : list (string * obj) * nat :=
  match l with
  | [] => ([], next)
  | (k, v) :: l' =>
      let (o, n1) := label v next in
      let (os, n2) := label_items label l' n1 in
      ((k, o) :: os, n2)
  end.

(** A tree as an object: its lists and dicts get the identities from
    [next] on, each its own.  The result is the object and the next
    identity. *)
Fixpoint label (t : json) (next : nat) : obj * nat :=
  match t with
  | JNull => (ONull, next)
  | JBool b => (OBool b, next)
  | JInt n => (OInt n, next)
  | JStr s => (OStr s, next)
  | JList xs =>
      let r := label_each label xs (S next) in (OList next (fst r), snd r)
  | JDict items =>
      let r := label_items label items (S next) in (ODict next (fst r), snd r)
  end.

Fixpoint label_all (ts : list json) (next : nat) : store :=
  match ts with
  | [] => []
  | t :: ts' => let (o, n) := label t next in o :: label_all ts' n
  end.

(** Two records of one CRD whose versions share one schema through an
    alias, and the same records when each version has its own copy. *)
Definition shared_store : store :=
  let body := fst (label sample_schema 0) in [body; body].

Definition copied_store : store := label_all [sample_schema; sample_schema] 0.



(** The numbers of a list differ from each other. *)
Fixpoint distinct (l : list nat) : bool :=
  match l with
  | [] => true
  | x :: l' => negb (existsb (Nat.eqb x) l') && distinct l'
  end.

(** The heading of a record whose kind, group and version are strings. *)
Definition heading_of (s : Schema) (h : heading) : Prop :=
  kind s = JStr (h_kind h) /\ group s = JStr (h_group h) /\
  version s = JStr (h_version h).

(** ** Further readings of the extraction loop *)

(** The document is a dict whose [kind] is the string
    [CustomResourceDefinition]. *)
Definition is_crd (d : dict) : bool :=
  match dict_get "kind" d with
  | Some k => py_eq k (JStr "CustomResourceDefinition")
  | None => false
  end.

(** What a version entry that is a dict adds, for a CRD of kind [k] and
    group [g]: nothing when it has no [schema] or a [schema] dict without
    [openAPIV3Schema], one record when it has both and a [name]. *)
Definition entry_records (k g : json) (entry : json) : option (list Schema) :=
  match entry with
  | JDict e =>
      match dict_get "schema" e with
      | None => Some []
      | Some (JDict schema) =>
          match dict_get "openAPIV3Schema" schema with
          | None => Some []
          | Some body =>
              match dict_get "name" e with
              | Some v => Some [mkSchema k g v body]
              | None => None
              end
          end
      | Some _ => None
      end
  | _ => None
  end.

(** A CRD of kind [Foo] that serves two versions and has a third entry
    without schema. *)
Definition two_versions_spec : dict :=
  [("group", JStr "example.com");
   ("names", JDict [("kind", JStr "Foo")]);
   ("versions",
    JList [JDict [("name", JStr "v1");
                  ("schema", JDict [("openAPIV3Schema", open_node)])];
           JDict [("name", JStr "v1alpha1")];
           JDict [("name", JStr "v2");
                  ("schema", JDict [("openAPIV3Schema", untyped_schema)])]])].

Definition two_versions_crd : dict :=
  [("kind", JStr "CustomResourceDefinition"); ("spec", JDict two_versions_spec)].

(** A CRD in the legacy shape, with every key. *)
Definition legacy_spec : dict :=
  [("group", JStr "example.com");
   ("names", JDict [("kind", JStr "Foo")]);
   ("version", JStr "v1");
   ("validation", JDict [("openAPIV3Schema", open_node)])].

Definition legacy_crd : dict :=
  [("kind", JStr "CustomResourceDefinition"); ("spec", JDict legacy_spec)].

(** ** Readings of the loading loop *)

Section Inputs.

Variable urlopen : string -> result (list json * option exn).
Variable open_file : string -> result (list json * option exn).

(** What one input argument comes to: the records of its documents, or
    the exception raised by opening it, by one of its documents, or by
    the loader at the end of its stream. *)
Definition file_records (crdFile : string) : result (list Schema) :=
  f <- (if prefix "http" crdFile then urlopen crdFile else open_file crdFile) ;;
  new <- extract_documents (fst f) [] ;;
  match snd f with
  | Some e => Raise e
  | None => Ok new
  end.

End Inputs.

(** A loader for three inputs: [a.yaml] holds the CRD [Foo], [b.yaml]
    cannot be opened, and the stream of any other breaks after the CRD. *)
Definition mixed_loader (path : string) : result (list json * option exn) :=
  if String.eqb path "a.yaml" then Ok ([foo_crd], None)
  else if String.eqb path "b.yaml" then Raise InputError
  else Ok ([foo_crd], Some InputError).

(** A loader that must not be called. *)
Definition no_loader (path : string) : result (list json * option exn) :=
  Raise TypeError.

(** Two records of one CRD whose kinds differ by case only. *)
Definition foo_upper : Schema :=
  mkSchema (JStr "FOO") (JStr "Example.com") (JStr "V1") open_node.

(** A CRD whose group is a number, the record it gives, and a loader
    that finds the CRD [Foo] and then this one. *)
Definition numbered_crd : json :=
  JDict [("kind", JStr "CustomResourceDefinition");
         ("spec",
          JDict [("group", JInt 7);
                 ("names", JDict [("kind", JStr "Bar")]);
                 ("versions",
                  JList [JDict [("name", JStr "v1");
                                ("schema", JDict [("openAPIV3Schema", open_node)])]])])].

Definition numbered_v1 : Schema :=
  mkSchema (JStr "Bar") (JInt 7) (JStr "v1") open_node.

Definition foo_then_numbered (path : string) : result (list json * option exn) :=
  Ok ([foo_crd; numbered_crd], None).
(** * Properties *)

(** ** Dictionaries *)

Lemma existsb_eqb_In (k : string) (l : list string) :
  existsb (String.eqb k) l = true <-> In k l.
Proof.
  rewrite existsb_exists. split.
  - intros [x [Hin Heq]]. apply String.eqb_eq in Heq. now subst.
  - intros Hin. exists k. split; [assumption | apply String.eqb_refl].
Qed.

Lemma dict_has_keys (k : string) (d : dict) :
  dict_has k d = existsb (String.eqb k) (keys d).
Proof.
  unfold dict_has, keys. induction d as [|[k' v] d IH]; simpl; [reflexivity|].
  now rewrite IH.
Qed.

Lemma dict_has_In (k : string) (d : dict) :
  dict_has k d = true <-> In k (keys d).
Proof. rewrite dict_has_keys. apply existsb_eqb_In. Qed.

Lemma dict_has_app (k : string) (d e : dict) :
  dict_has k (d ++ e) = dict_has k d || dict_has k e.
Proof. unfold dict_has. apply existsb_app. Qed.

Lemma dict_get_has (k : string) (d : dict) :
  dict_has k d = match dict_get k d with Some _ => true | None => false end.
Proof.
  induction d as [|[k' v] d IH]; simpl; [reflexivity|].
  unfold dict_has in *. simpl. destruct (String.eqb k k'); simpl; auto.
Qed.

Lemma dict_set_absent (d : dict) (k : string) (v : json) :
  dict_has k d = false -> dict_set d k v = d ++ [(k, v)].
Proof.
  induction d as [|[k' v'] d IH]; simpl; intros H; [reflexivity|].
  unfold dict_has in H. simpl in H. apply orb_false_iff in H as [H1 H2].
  rewrite H1. f_equal. now apply IH.
Qed.


Lemma dict_get_set_same (d : dict) (k : string) (v : json) :
  dict_get k (dict_set d k v) = Some v.
Proof.
  induction d as [|[k' v'] d IH]; simpl.
  - now rewrite String.eqb_refl.
  - destruct (String.eqb k k') eqn:E; simpl; rewrite E; [reflexivity | exact IH].
Qed.

Lemma dict_get_set_other (d : dict) (k k' : string) (v : json) :
  String.eqb k' k = false -> dict_get k' (dict_set d k v) = dict_get k' d.
Proof.
  intros Hne. induction d as [|[k0 v0] d IH]; simpl.
  - now rewrite Hne.
  - destruct (String.eqb k k0) eqn:E; simpl.
    + apply String.eqb_eq in E. subst k0. now rewrite Hne.
    + destruct (String.eqb k' k0); [reflexivity | exact IH].
Qed.

Lemma dict_get_app (k : string) (d e : dict) :
  dict_get k (d ++ e) =
  match dict_get k d with Some v => Some v | None => dict_get k e end.
Proof.
  induction d as [|[k' v] d IH]; simpl; [reflexivity|].
  destruct (String.eqb k k'); [reflexivity | exact IH].
Qed.

Lemma dict_get_map (g : json -> json) (k : string) (d : dict) :
  dict_get k (map (fun kv => (fst kv, g (snd kv))) d) = option_map g (dict_get k d).
Proof.
  induction d as [|[k' v] d IH]; simpl; [reflexivity|].
  destruct (String.eqb k k'); [reflexivity | exact IH].
Qed.

Lemma keys_map (g : json -> json) (d : dict) :
  keys (map (fun kv => (fst kv, g (snd kv))) d) = keys d.
Proof. unfold keys. rewrite map_map. reflexivity. Qed.

Lemma dict_has_map (g : json -> json) (k : string) (d : dict) :
  dict_has k (map (fun kv => (fst kv, g (snd kv))) d) = dict_has k d.
Proof. now rewrite !dict_has_keys, keys_map. Qed.


Lemma unique_app (l r : list string) :
  unique (l ++ r) = true ->
  unique l = true /\ unique r = true /\
  forall k, In k l -> existsb (String.eqb k) r = false.
Proof.
  induction l as [|a l IH]; simpl; intros H.
  - repeat split; auto. intros k [].
  - apply andb_true_iff in H as [Ha Hu]. apply negb_true_iff in Ha.
    rewrite existsb_app in Ha. apply orb_false_iff in Ha as [Hl Hr].
    destruct (IH Hu) as (Hul & Hur & Hd).
    rewrite Hl, Hul. repeat split; auto.
    intros k [<- | Hin]; auto.
Qed.

Lemma unique_snoc (l : list string) (k : string) :
  unique l = true -> existsb (String.eqb k) l = false -> unique (l ++ [k]) = true.
Proof.
  induction l as [|a l IH]; simpl; intros Hu Hk; [reflexivity|].
  apply andb_true_iff in Hu as [Ha Hu].
  apply orb_false_iff in Hk as [Hka Hk].
  rewrite existsb_app. simpl. apply negb_true_iff in Ha. rewrite Ha. simpl.
  rewrite String.eqb_sym, Hka. simpl. now apply IH.
Qed.

(** A key of the entries still to copy is not yet in the copy. *)
Lemma fresh_key (new todo : dict) (k : string) (v : json) :
  unique (keys new ++ keys ((k, v) :: todo)) = true -> dict_has k new = false.
Proof.
  intros Hu. destruct (dict_has k new) eqn:E; [|reflexivity].
  apply dict_has_In in E. destruct (unique_app _ _ Hu) as (_ & _ & Hdis).
  specialize (Hdis k E). simpl in Hdis. now rewrite String.eqb_refl in Hdis.
Qed.

Lemma unique_shift (new todo : dict) (k : string) (v v' : json) :
  unique (keys new ++ keys ((k, v) :: todo)) = true ->
  unique (keys (new ++ [(k, v')]) ++ keys todo) = true.
Proof.
  intros Hu. unfold keys in *. rewrite map_app. simpl. now rewrite <- app_assoc.
Qed.

(** A loop [for k, v in d.items(): new[k] = g(v)] over a dictionary copies
    it entry by entry. *)
Lemma fold_set_map (g : json -> json) (todo new : dict) :
  unique (keys new ++ keys todo) = true ->
  fold_left (fun acc kv => dict_set acc (fst kv) (g (snd kv))) todo new =
  new ++ map (fun kv => (fst kv, g (snd kv))) todo.
Proof.
  revert new. induction todo as [|[k v] todo IH]; simpl; intros new Hu.
  - now rewrite app_nil_r.
  - rewrite dict_set_absent by exact (fresh_key new todo k v Hu).
    rewrite IH by exact (unique_shift new todo k v _ Hu).
    now rewrite <- app_assoc.
Qed.

(** ** The close-by-default pass *)

Lemma depth_snoc_scalar (d : dict) (k : string) (b : bool) :
  json_depth (JDict (d ++ [(k, JBool b)])) = json_depth (JDict d).
Proof. simpl. now rewrite fold_right_app. Qed.

Lemma mark_closed_eq (vd : dict) :
  mark_closed vd =
  vd ++ (if closes vd then [("additionalProperties", JBool false)] else []).
Proof.
  unfold mark_closed, closes.
  destruct (dict_has "properties" vd); simpl; [|now rewrite app_nil_r].
  destruct (dict_has "additionalProperties" vd) eqn:E; simpl.
  - now rewrite app_nil_r.
  - now apply dict_set_absent.
Qed.

Lemma depth_mark_closed (vd : dict) :
  json_depth (JDict (mark_closed vd)) = json_depth (JDict vd).
Proof.
  rewrite mark_closed_eq. destruct (closes vd).
  - apply depth_snoc_scalar.
  - now rewrite app_nil_r.
Qed.

Lemma closes_absent (vd : dict) :
  closes vd = true -> existsb (String.eqb "additionalProperties") (keys vd) = false.
Proof.
  unfold closes. intros H. apply andb_true_iff in H as [_ H].
  apply negb_true_iff in H. now rewrite <- dict_has_keys.
Qed.

Lemma wf_dict (d : dict) :
  wf (JDict d) = true <->
  unique (keys d) = true /\ Forall (fun kv => wf (snd kv) = true) d.
Proof.
  simpl. rewrite andb_true_iff, forallb_forall, Forall_forall. reflexivity.
Qed.

Lemma wf_mark_closed (vd : dict) :
  wf (JDict vd) = true -> wf (JDict (mark_closed vd)) = true.
Proof.
  rewrite mark_closed_eq. intros H. destruct (closes vd) eqn:E.
  - apply wf_dict in H as [Hu Hf]. apply wf_dict. split.
    + unfold keys. rewrite map_app. simpl. apply unique_snoc; [exact Hu|].
      now apply closes_absent.
    + apply Forall_app. split; [exact Hf|]. now repeat constructor.
  - now rewrite app_nil_r.
Qed.

Lemma close_root_mark (vd : dict) :
  close_root (JDict (mark_closed vd)) = close_value (JDict vd).
Proof.
  rewrite mark_closed_eq. simpl. rewrite map_app.
  destruct (closes vd); reflexivity.
Qed.

Lemma depth_child (k : string) (v : json) (d : dict) :
  In (k, v) d -> json_depth v < json_depth (JDict d).
Proof.
  simpl. induction d as [|[k' v'] d IH]; simpl; intros H; [contradiction|].
  destruct H as [[= -> ->] | H]; [lia|]. specialize (IH H). lia.
Qed.


(** The pass terminates on every tree: fuel above the depth of the tree
    is enough, whatever the keys. *)
Lemma additional_properties_fuel_enough (fuel : nat) :
  forall t, json_depth t < fuel ->
  exists r, additional_properties_fuel fuel t = Some r.
Proof.
  induction fuel as [|fuel IH]; intros t Hd; [lia|].
  destruct t as [| | | | xs | items]; try (simpl; eauto; fail).
  simpl.
  match goal with
  | |- exists r, ?L items [] [] = Some r =>
      assert (G : forall todo new seen,
                 Forall (fun kv => json_depth (snd kv) < fuel) todo ->
                 exists r, L todo new seen = Some r)
  end.
  { induction todo as [|[k v] todo IHt]; intros new seen Hall; [simpl; eauto|].
    inversion Hall as [|? ? Hv Hall']; subst. simpl in Hv.
    destruct v as [| | | | xs | vd]; try (apply IHt; assumption).
    destruct (IH (JDict (mark_closed vd))) as [[new_v v'] Hr].
    - rewrite depth_mark_closed. exact Hv.
    - rewrite Hr. apply IHt. assumption. }
  apply G. rewrite Forall_forall. intros [k v] Hin.
  apply depth_child in Hin. simpl in *. lia.
Qed.

(** So the fuel given by [additional_properties_run] never runs out. *)
Lemma additional_properties_run_total (t : json) :
  exists r, additional_properties_run t = Some r.
Proof. apply additional_properties_fuel_enough. lia. Qed.

(** Enough fuel gives the result, which is [close_root] of the tree, and
    leaves the argument equal to it. *)
Lemma additional_properties_fuel_spec (fuel : nat) :
  forall t, wf t = true -> json_depth t < fuel ->
  additional_properties_fuel fuel t = Some (close_root t, close_root t).
Proof.
  induction fuel as [|fuel IH]; intros t Hwf Hd; [lia|].
  destruct t as [| | | | xs | items]; try reflexivity.
  simpl.
  match goal with
  | |- ?L items [] [] = _ =>
      assert (G : forall todo new seen,
                 unique (keys new ++ keys todo) = true ->
                 Forall (fun kv => wf (snd kv) = true /\ json_depth (snd kv) < fuel) todo ->
                 L todo new seen =
                 Some (JDict (new ++ map (fun kv => (fst kv, close_value (snd kv))) todo),
                       JDict (seen ++ map (fun kv => (fst kv, close_value (snd kv))) todo)))
  end.
  { induction todo as [|[k v] todo IHt]; intros new seen Hu Hall.
    - now rewrite !app_nil_r.
    - inversion Hall as [|? ? [Hwv Hdv] Hall']; subst. simpl in Hwv, Hdv.
      assert (Hk : dict_set new k (close_value v) = new ++ [(k, close_value v)])
        by (apply dict_set_absent; exact (fresh_key new todo k v Hu)).
      assert (Hu' : unique (keys (new ++ [(k, close_value v)]) ++ keys todo) = true)
        by exact (unique_shift new todo k v _ Hu).
      destruct v as [| | | | xs | vd];
        try (simpl in Hk; rewrite Hk, (IHt _ _ Hu' Hall'); simpl;
             rewrite <- !app_assoc; reflexivity).
      rewrite (IH (JDict (mark_closed vd))).
      + rewrite close_root_mark, Hk, (IHt _ _ Hu' Hall').
        rewrite <- !app_assoc. reflexivity.
      + now apply wf_mark_closed.
      + rewrite depth_mark_closed. exact Hdv. }
  rewrite G; [reflexivity | |].
  - simpl. apply wf_dict in Hwf. tauto.
  - apply wf_dict in Hwf as [_ Hf]. rewrite Forall_forall in *.
    intros [k v] Hin. split; [now apply (Hf (k, v))|].
    simpl. apply depth_child in Hin. simpl in Hd, Hin. lia.
Qed.

Lemma additional_properties_spec (t : json) :
  wf t = true -> additional_properties t = close_root t.
Proof.
  intros H. unfold additional_properties, additional_properties_run.
  rewrite additional_properties_fuel_spec; auto.
Qed.

Lemma additional_properties_arg_spec (t : json) :
  wf t = true -> additional_properties_arg t = close_root t.
Proof.
  intros H. unfold additional_properties_arg, additional_properties_run.
  rewrite additional_properties_fuel_spec; auto.
Qed.

(** The pass terminates: any fuel above the depth of the tree gives the
    value and the final state of the argument. *)
Lemma additional_properties_terminates (fuel : nat) (t : json) :
  wf t = true -> json_depth t < fuel ->
  additional_properties_fuel fuel t =
  Some (additional_properties t, additional_properties_arg t).
Proof.
  intros Hwf Hd.
  rewrite additional_properties_spec, additional_properties_arg_spec by assumption.
  now apply additional_properties_fuel_spec.
Qed.

Lemma close_value_scalar (v : json) : is_scalar v = true -> close_value v = v.
Proof. destruct v; simpl; intros H; try reflexivity; discriminate. Qed.

(** What the pass does at a node below the root, reached through keys. *)
Lemma subtree_close_value (path : list string) :
  forall v d, subtree v path = Some (JDict d) ->
  exists d',
    subtree (close_value v) path = Some (JDict d') /\
    keys d' = keys d ++ (if closes d then ["additionalProperties"] else []) /\
    (closes d = true -> dict_get "additionalProperties" d' = Some (JBool false)) /\
    (forall k x, dict_get k d = Some x -> is_scalar x = true -> dict_get k d' = Some x).
Proof.
  induction path as [|k path IH]; intros v d H.
  - simpl in H. injection H as ->. simpl. eexists. split; [reflexivity|].
    split; [|split].
    + unfold keys. rewrite map_app, map_map. simpl. destruct (closes d); reflexivity.
    + intros Hc. rewrite dict_get_app, dict_get_map, Hc.
      apply andb_true_iff in Hc as [_ Hc]. apply negb_true_iff in Hc.
      rewrite dict_get_has in Hc.
      destruct (dict_get "additionalProperties" d); [discriminate | reflexivity].
    + intros k x Hk Hs. rewrite dict_get_app, dict_get_map, Hk. simpl.
      now rewrite close_value_scalar.
  - simpl in H. destruct v as [| | | | xs | vd]; try discriminate.
    destruct (dict_get k vd) as [x|] eqn:Hk; [|discriminate].
    destruct (IH x d H) as (d' & Hs & Hrest).
    exists d'. split; [|exact Hrest].
    simpl. rewrite dict_get_app, dict_get_map, Hk. simpl. exact Hs.
Qed.

Lemma close_value_other (v : json) : is_dict v = false -> close_value v = v.
Proof. destruct v; simpl; intros H; try reflexivity; discriminate. Qed.

(** A value that is no dict, reached through keys, is returned as it is. *)
Lemma subtree_close_value_other (path : list string) :
  forall v x, subtree v path = Some x -> is_dict x = false ->
  subtree (close_value v) path = Some x.
Proof.
  induction path as [|k path IH]; intros v x H Hx.
  - simpl in H. injection H as ->. simpl. now rewrite close_value_other.
  - simpl in H. destruct v as [| | | | xs | vd]; try discriminate.
    destruct (dict_get k vd) as [c|] eqn:Hk; [|discriminate].
    simpl. rewrite dict_get_app, dict_get_map, Hk. simpl. now apply IH.
Qed.

Lemma subtree_close_value_entries (path : list string) :
  forall v d, subtree v path = Some (JDict d) ->
  exists d',
    subtree (close_value v) path = Some (JDict d') /\
    forall k x, dict_get k d = Some x -> is_dict x = false -> dict_get k d' = Some x.
Proof.
  induction path as [|k path IH]; intros v d H.
  - simpl in H. injection H as ->. simpl. eexists. split; [reflexivity|].
    intros k x Hk Hs. rewrite dict_get_app, dict_get_map, Hk. simpl.
    now rewrite close_value_other.
  - simpl in H. destruct v as [| | | | xs | vd]; try discriminate.
    destruct (dict_get k vd) as [x|] eqn:Hk; [|discriminate].
    destruct (IH x d H) as (d' & Hs & Hrest).
    exists d'. split; [|exact Hrest].
    simpl. rewrite dict_get_app, dict_get_map, Hk. simpl. exact Hs.
Qed.

(** C1 (as amended): on a well-formed tree, what the pass returns at
    every place reached from the root through keys.  A dict [d] is a dict
    of the output at the same place.  Below the root it gains the key
    [additionalProperties], last and with the value [False], exactly when
    it has [properties] and no [additionalProperties]; the root and every
    other such dict keep their keys as they are; the entries of [d] that
    are no dicts, lists among them, keep their values.  A list or a
    scalar is returned as it is: nothing in or below a list is changed,
    so a dict there never gains the key, whatever it holds. *)
Theorem additional_properties_closes_below_root (t : json) (path : list string) (v : json) :
  wf t = true ->
  subtree t path = Some v ->
  match v with
  | JDict d =>
      exists d',
        subtree (additional_properties t) path = Some (JDict d') /\
        keys d' = keys d ++ (if negb (is_root path) && closes d
                             then ["additionalProperties"] else []) /\
        (negb (is_root path) && closes d = true ->
         dict_get "additionalProperties" d' = Some (JBool false)) /\
        (forall k x, dict_get k d = Some x -> is_dict x = false -> dict_get k d' = Some x)
  | _ => subtree (additional_properties t) path = Some v
  end.
Proof.
  intros Hwf H. rewrite additional_properties_spec by assumption.
  assert (Hother : is_dict v = false -> subtree (close_root t) path = Some v).
  { intros Hv. destruct path as [|k path].
    - simpl in H. injection H as ->. destruct v; try reflexivity. discriminate.
    - simpl in H. destruct t as [| | | | xs | td]; try discriminate.
      destruct (dict_get k td) as [x|] eqn:Hk; [|discriminate].
      simpl. rewrite dict_get_map, Hk. simpl.
      now apply subtree_close_value_other. }
  destruct v as [| | | | xs | d]; try (now apply Hother). clear Hother.
  destruct path as [|k path].
  - simpl in H. injection H as ->. simpl. eexists. split; [reflexivity|].
    split; [|split].
    + now rewrite keys_map, app_nil_r.
    + discriminate.
    + intros k x Hk Hs. rewrite dict_get_map, Hk. simpl. now rewrite close_value_other.
  - simpl in H. destruct t as [| | | | xs | td]; try discriminate.
    destruct (dict_get k td) as [x|] eqn:Hk; [|discriminate].
    destruct (subtree_close_value path x d H) as (d' & Hs & Hkeys & Hap & _).
    destruct (subtree_close_value_entries path x d H) as (d'' & Hs' & Hent).
    rewrite Hs in Hs'. injection Hs' as <-.
    exists d'. split; [|split; [exact Hkeys | split; [exact Hap | exact Hent]]].
    simpl. rewrite dict_get_map, Hk. exact Hs.
Qed.

Lemma closes_close_value (vd : dict) :
  closes (map (fun kv => (fst kv, close_value (snd kv))) vd
          ++ (if closes vd then [("additionalProperties", JBool false)] else [])) = false.
Proof.
  destruct (closes vd) eqn:E.
  - unfold closes. rewrite !dict_has_app. simpl.
    rewrite orb_true_r. simpl. apply andb_false_r.
  - rewrite app_nil_r. unfold closes in *. now rewrite !dict_has_map.
Qed.

Lemma close_value_idem (v : json) : close_value (close_value v) = close_value v.
Proof.
  induction v as [| | | | xs _ | vd IH] using json_ind; try reflexivity.
  change (close_value (JDict vd)) with
    (JDict (map (fun kv => (fst kv, close_value (snd kv))) vd
            ++ (if closes vd then [("additionalProperties", JBool false)] else []))).
  set (out := map _ vd ++ _).
  change (close_value (JDict out)) with
    (JDict (map (fun kv => (fst kv, close_value (snd kv))) out
            ++ (if closes out then [("additionalProperties", JBool false)] else []))).
  unfold out at 2. rewrite closes_close_value, app_nil_r.
  f_equal. unfold out. rewrite map_app, map_map. f_equal.
  - apply map_ext_Forall. simpl.
    eapply Forall_impl; [|exact IH]. intros kv Hkv. simpl. now rewrite Hkv.
  - destruct (closes vd); reflexivity.
Qed.

Lemma close_root_idem (t : json) : close_root (close_root t) = close_root t.
Proof.
  destruct t as [| | | | xs | d]; try reflexivity.
  simpl. f_equal. rewrite map_map. apply map_ext. intros kv. simpl.
  now rewrite close_value_idem.
Qed.

Lemma wf_close_value (v : json) : wf v = true -> wf (close_value v) = true.
Proof.
  induction v as [| | | | xs _ | vd IH] using json_ind; auto.
  intros H. apply wf_dict in H as [Hu Hf].
  change (close_value (JDict vd)) with
    (JDict (map (fun kv => (fst kv, close_value (snd kv))) vd
            ++ (if closes vd then [("additionalProperties", JBool false)] else []))).
  apply wf_dict. split.
  - unfold keys. rewrite map_app, map_map. simpl.
    destruct (closes vd) eqn:E; simpl.
    + apply unique_snoc; [exact Hu | now apply closes_absent].
    + now rewrite app_nil_r.
  - apply Forall_app. split.
    + rewrite Forall_map. simpl. rewrite Forall_forall in *.
      intros kv Hin. apply IH; auto.
    + destruct (closes vd); repeat constructor.
Qed.

Lemma wf_close_root (t : json) : wf t = true -> wf (close_root t) = true.
Proof.
  destruct t as [| | | | xs | d]; auto.
  intros H. apply wf_dict in H as [Hu Hf]. apply wf_dict. split.
  - now rewrite keys_map.
  - rewrite Forall_map. simpl. rewrite Forall_forall in *.
    intros kv Hin. apply wf_close_value. auto.
Qed.

Lemma additional_properties_idem (t : json) :
  wf t = true ->
  additional_properties (additional_properties t) = additional_properties t.
Proof.
  intros H. rewrite (additional_properties_spec t H).
  rewrite additional_properties_spec by now apply wf_close_root.
  apply close_root_idem.
Qed.

(** ** The int-or-string pass *)

Lemma replace_int_or_string_loop (items : dict) :
  replace_int_or_string (JDict items) =
  JDict (fold_left (fun new kv => dict_set new (fst kv) (widen_value (snd kv))) items []).
Proof.
  simpl. f_equal. generalize (@nil (string * json)).
  induction items as [|[k v] items IH]; intros new; [reflexivity|].
  rewrite IH. simpl. do 2 f_equal.
  destruct v as [| | | | xs | vd]; try reflexivity.
  simpl. f_equal.
  match goal with
  | |- ?L xs [] = _ =>
      assert (G : forall l acc, L l acc = acc ++ map replace_int_or_string l)
  end.
  { induction l as [|x l IHx]; intros acc; simpl.
    - now rewrite app_nil_r.
    - rewrite IHx, <- app_assoc. reflexivity. }
  apply G.
Qed.

Lemma replace_int_or_string_dict (items : dict) :
  unique (keys items) = true ->
  replace_int_or_string (JDict items) =
  JDict (map (fun kv => (fst kv, widen_value (snd kv))) items).
Proof.
  intros H. rewrite replace_int_or_string_loop, fold_set_map; auto.
Qed.

Lemma replace_int_or_string_other (t : json) :
  (forall d, t <> JDict d) -> replace_int_or_string t = t.
Proof. destruct t; intros H; try reflexivity. now elim (H items). Qed.

Lemma is_str_widen_value (f : json) (s : string) :
  is_str (widen_value f) s = is_str f s.
Proof.
  destruct f as [| | | | xs | vd]; try reflexivity.
  simpl. destruct (is_int_or_string vd); reflexivity.
Qed.

Lemma is_int_or_string_map (d : dict) :
  is_int_or_string (map (fun kv => (fst kv, widen_value (snd kv))) d) =
  is_int_or_string d.
Proof.
  unfold is_int_or_string. rewrite dict_get_map.
  destruct (dict_get "format" d); simpl; [apply is_str_widen_value | reflexivity].
Qed.

Lemma wf_widen (t : json) :
  wf t = true ->
  wf (widen_value t) = true /\ wf (replace_int_or_string t) = true.
Proof.
  induction t as [| | | | xs IH | d IH] using json_ind; auto.
  - intros H. split; [|exact H]. simpl in *.
    rewrite forallb_forall in *. intros y Hy.
    apply in_map_iff in Hy as (x & <- & Hx).
    rewrite Forall_forall in IH. now apply IH; auto.
  - intros H. assert (Hr : wf (replace_int_or_string (JDict d)) = true).
    { apply wf_dict in H as [Hu Hf]. rewrite replace_int_or_string_dict by assumption.
      apply wf_dict. split; [now rewrite keys_map|].
      rewrite Forall_map. simpl. rewrite Forall_forall in *.
      intros kv Hin. now apply IH; auto. }
    split; [|exact Hr].
    unfold widen_value. destruct (is_int_or_string d); [reflexivity | exact Hr].
Qed.

Lemma widen_idem (t : json) :
  wf t = true ->
  widen_value (widen_value t) = widen_value t /\
  replace_int_or_string (replace_int_or_string t) = replace_int_or_string t.
Proof.
  induction t as [| | | | xs IH | d IH] using json_ind; auto.
  - intros H. split; [|reflexivity]. simpl. f_equal. rewrite map_map.
    apply map_ext_Forall. simpl in H. rewrite forallb_forall in H.
    rewrite Forall_forall in *. intros x Hx. now apply IH; auto.
  - intros H. apply wf_dict in H as [Hu Hf].
    assert (Hr : replace_int_or_string (replace_int_or_string (JDict d)) =
                 replace_int_or_string (JDict d)).
    { rewrite (replace_int_or_string_dict d Hu).
      rewrite replace_int_or_string_dict by now rewrite keys_map.
      f_equal. rewrite map_map. apply map_ext_Forall. simpl.
      rewrite Forall_forall in *. intros kv Hin. f_equal. now apply IH; auto. }
    split; [|exact Hr].
    unfold widen_value at 2 3. destruct (is_int_or_string d) eqn:E; [reflexivity|].
    rewrite (replace_int_or_string_dict d Hu) in *. unfold widen_value.
    rewrite is_int_or_string_map, E. exact Hr.
Qed.

Lemma replace_int_or_string_idem (t : json) :
  wf t = true ->
  replace_int_or_string (replace_int_or_string t) = replace_int_or_string t.
Proof. intros H. now apply widen_idem. Qed.

(** C2 (as amended): on a well-formed tree the pass visits the tree it is
    given, the values of the dicts it visits and the elements of the lists
    held by them.  A dict it visits keeps its keys, and under each key:
    a dict whose [format] is ["int-or-string"] is replaced by the [oneOf]
    schema, whatever its other keys; any other dict is visited; a list
    becomes the list of its elements visited; a scalar stays.  A tree that
    is not a dict is returned as it is, so the root, the elements of a list
    and the lists inside a list are never replaced. *)
Theorem replace_int_or_string_rewrites (t : json) :
  wf t = true ->
  (forall d, t = JDict d ->
     exists d',
       replace_int_or_string t = JDict d' /\ keys d' = keys d /\
       (forall k vd, dict_get k d = Some (JDict vd) -> is_int_or_string vd = true ->
          dict_get k d' = Some int_or_string_schema) /\
       (forall k vd, dict_get k d = Some (JDict vd) -> is_int_or_string vd = false ->
          dict_get k d' = Some (replace_int_or_string (JDict vd))) /\
       (forall k xs, dict_get k d = Some (JList xs) ->
          dict_get k d' = Some (JList (map replace_int_or_string xs))) /\
       (forall k v, dict_get k d = Some v -> is_scalar v = true ->
          dict_get k d' = Some v)) /\
  ((forall d, t = JDict d -> False) -> replace_int_or_string t = t).
Proof.
  intros Hwf. split.
  - intros d ->. apply wf_dict in Hwf as [Hu _].
    exists (map (fun kv => (fst kv, widen_value (snd kv))) d).
    split; [now apply replace_int_or_string_dict|].
    split; [apply keys_map|].
    repeat split; intros k x Hk; rewrite dict_get_map, Hk; simpl.
    + intros ->. reflexivity.
    + intros ->. reflexivity.
    + reflexivity.
    + destruct x; simpl; intros Hs; try reflexivity; discriminate.
  - intros H. apply replace_int_or_string_other. intros d Hd. exact (H d Hd).
Qed.

(** ** The nullable-optional pass *)

Lemma has_required_fields_ok (g : option json) :
  container_or_none g = true -> exists b, has_required_fields g = Ok b.
Proof.
  destruct g as [[| | | | xs | d]|]; simpl; intros H; try discriminate.
  - destruct (negb _); eauto.
  - destruct (negb _); eauto.
  - eauto.
Qed.

Lemma meets_type_cons (k : string) (v : json) (d : dict) :
  meets_type (JDict ((k, v) :: d)) =
  match v with
  | JDict _ => meets_type v
  | JList xs => existsb meets_type xs
  | JStr s => String.eqb k "type" && negb (String.eqb s "null")
  | _ => false
  end || meets_type (JDict d).
Proof. reflexivity. Qed.

Lemma loop_tail (new todo out : dict) (k : string) (v v' : json) :
  (unique (keys (dict_set new k v') ++ keys todo) = true ->
   forallb (fun kv => wf (snd kv)) todo = true ->
   out = dict_set new k v' ++ todo) ->
  (wf v = true -> v' = v) ->
  unique (keys new ++ keys ((k, v) :: todo)) = true ->
  forallb (fun kv => wf (snd kv)) ((k, v) :: todo) = true ->
  out = new ++ (k, v) :: todo.
Proof.
  intros Hout Hv Hu Hw. simpl in Hw. apply andb_true_iff in Hw as [Hwv Hwt].
  rewrite (Hv Hwv) in Hout.
  rewrite (dict_set_absent new k v (fresh_key new todo k v Hu)) in Hout.
  rewrite Hout; auto.
  - now rewrite <- app_assoc.
  - exact (unique_shift new todo k v v Hu).
Qed.

Lemma allow_null_outcome_all (t : json) :
  allow_null_outcome t /\
  match t with
  | JList xs => Forall allow_null_outcome xs
  | _ => True
  end.
Proof.
  induction t as [| | | | xs IH | d IH] using json_ind;
    try (split; [intros parent grand_parent key Hp Hg; simpl; eauto | exact I]; fail).
  - split.
    + intros parent grand_parent key Hp Hg; simpl; eauto.
    + eapply Forall_impl; [|exact IH]. now intros x [Hx _].
  - split; [|exact I].
    intros parent grand_parent key Hp Hg.
    destruct (has_required_fields_ok _ Hg) as [b Hb].
    change (allow_null_optional_fields (JDict d) parent grand_parent key)
      with ((fun r => r) (allow_null_optional_fields (JDict d) parent grand_parent key)).
    cbv beta. unfold allow_null_optional_fields at 1 2; fold allow_null_optional_fields.
    rewrite Hb.
    match goal with
    | |- if _ then ?L d [] = _ else _ =>
        assert (G : forall todo new,
                   Forall (fun kv => allow_null_outcome (snd kv) /\
                                     match snd kv with
                                     | JList xs => Forall allow_null_outcome xs
                                     | _ => True
                                     end) todo ->
                   if meets_type (JDict todo)
                   then L todo new = Raise (NameError "has_required_field")
                   else exists out, L todo new = Ok (JDict out) /\
                          (unique (keys new ++ keys todo) = true ->
                           forallb (fun kv => wf (snd kv)) todo = true ->
                           out = new ++ todo))
    end.
    { clear IH. induction todo as [|[k v] todo IHt]; intros new Hall.
      - simpl. exists new. split; [reflexivity|]. intros _ _. now rewrite app_nil_r.
      - inversion Hall as [|? ? [Hv Hvl] Hall']; subst. simpl in Hv, Hvl.
        rewrite meets_type_cons.
        assert (IHt' := fun new => IHt new Hall'). clear IHt.
        set (bt := meets_type (JDict todo)) in *. clearbody bt.
        match goal with
        | |- if _ then bind _ ?K = _ else _ =>
            assert (Step : forall v',
                       (wf v = true -> v' = v) ->
                       if bt
                       then K v' = Raise (NameError "has_required_field")
                       else exists out, K v' = Ok (JDict out) /\
                              (unique (keys new ++ keys ((k, v) :: todo)) = true ->
                               forallb (fun kv => wf (snd kv)) ((k, v) :: todo) = true ->
                               out = new ++ (k, v) :: todo))
        end.
        { intros v' Hv'. specialize (IHt' (dict_set new k v')). cbv beta.
          destruct bt; [exact IHt'|].
          destruct IHt' as (out & Ho & He). exists out. split; [exact Ho|].
          intros Hu Hw. eapply loop_tail; eauto. }
        cbv beta in Step.
        destruct v as [| b0 | n | s | xs | vd].
        + exact (Step JNull (fun _ => eq_refl)).
        + exact (Step (JBool b0) (fun _ => eq_refl)).
        + exact (Step (JInt n) (fun _ => eq_refl)).
        + simpl.
          destruct ((k =? "type") && negb (s =? "null")); simpl; [reflexivity|].
          exact (Step (JStr s) (fun _ => eq_refl)).
        + match goal with
          | |- context [bind (?E xs []) _] =>
              assert (Each : forall l acc,
                         Forall allow_null_outcome l ->
                         if existsb meets_type l
                         then E l acc = Raise (NameError "has_required_field")
                         else exists out, E l acc = Ok (JList out) /\
                                (forallb wf l = true -> out = acc ++ l))
          end.
          { induction l as [|x l IHl]; intros acc Hl.
            - simpl. exists acc. split; [reflexivity|]. intros _. now rewrite app_nil_r.
            - inversion Hl as [|? ? Hx Hl']; subst.
              specialize (Hx (Some (JList xs)) parent (Some k) eq_refl Hp).
              simpl. destruct (meets_type x); simpl.
              + now rewrite Hx.
              + destruct Hx as (x' & Hx' & Hxe). rewrite Hx'. simpl.
                specialize (IHl (acc ++ [x']) Hl').
                destruct (existsb meets_type l); [exact IHl|].
                destruct IHl as (out & Ho & He). exists out. split; [exact Ho|].
                intros Hw. apply andb_true_iff in Hw as [Hwx Hwl].
                rewrite (He Hwl), (Hxe Hwx), <- app_assoc. reflexivity. }
          specialize (Each xs [] Hvl).
          destruct (existsb meets_type xs); simpl.
          * now rewrite Each.
          * destruct Each as (out & Ho & He). rewrite Ho.
            apply (Step (JList out)). intros Hw. simpl in Hw. now rewrite (He Hw).
        + specialize (Hv (Some (JDict d)) parent (Some k) eq_refl Hp).
          destruct (meets_type (JDict vd)).
          * rewrite Hv. reflexivity.
          * destruct Hv as (v' & Hv' & Hve). rewrite Hv'. exact (Step v' Hve). }
    specialize (G d []).
    destruct (meets_type (JDict d)).
    + apply G. eapply Forall_impl; [|exact IH]. intros kv Hkv. exact Hkv.
    + destruct G as (out & Ho & He).
      { eapply Forall_impl; [|exact IH]. intros kv Hkv. exact Hkv. }
      exists (JDict out). split; [exact Ho|].
      intros Hw. apply andb_true_iff in Hw as [Hu Hf]. now rewrite (He Hu Hf).
Qed.

Lemma fs_read_open_write (name : string) (doc : json) fs :
  fs_read name (fs_write name doc (fs_open name fs)) = Some [doc].
Proof.
  induction fs as [|[n c] fs IH]; simpl.
  - rewrite String.eqb_refl. simpl. now rewrite String.eqb_refl.
  - destruct (String.eqb name n) eqn:E; simpl; rewrite E; simpl; rewrite ?E;
      [reflexivity | exact IH].
Qed.

(** What [write_schema_file] comes to when [open] accepts the name. *)
Lemma write_schema_file_opened open_error (schema : json) (filename : string) (w : world) :
  open_error (basename filename) = None ->
  write_schema_file open_error schema filename w =
  (additional_properties_arg schema,
   Ok (print (basename filename)
         (write (basename filename) (replace_int_or_string (additional_properties schema))
            (open_w (basename filename) w)))).
Proof. intros H. unfold write_schema_file. now rewrite H. Qed.

(** C3 (as amended): the pass raises [NameError] for the name
    [has_required_field] exactly when it reaches an entry [type] holding a
    string other than ["null"], through the values of dicts and the
    elements of lists held by dicts, starting from a dict; when it reaches
    none it returns a well-formed tree as it is, so it never widens.
    [write_schema_file] does not call the pass: whenever [open] accepts
    the name of the file it returns without an exception, whether the
    pass would raise on the tree or not, and the file holds what the two
    other passes return. *)
Theorem allow_null_optional_fields_raises (t : json) :
  (meets_type t = true ->
   allow_null_optional_fields t None None None = Raise (NameError "has_required_field")) /\
  (meets_type t = false -> wf t = true ->
   allow_null_optional_fields t None None None = Ok t) /\
  (forall (open_error : string -> option exn) filename w,
     open_error (basename filename) = None ->
     exists w',
       snd (write_schema_file open_error t filename w) = Ok w' /\
       fs_read (basename filename) (files w') =
       Some [replace_int_or_string (additional_properties t)]).
Proof.
  destruct (allow_null_outcome_all t) as [H _].
  specialize (H None None None eq_refl eq_refl).
  repeat split.
  - intros Hm. now rewrite Hm in H.
  - intros Hm Hwf. rewrite Hm in H. destruct H as (t' & Ht & Heq).
    now rewrite Ht, (Heq Hwf).
  - intros open_error filename w Ho.
    rewrite (write_schema_file_opened open_error t filename w Ho). simpl.
    eexists. split; [reflexivity|]. simpl. apply fs_read_open_write.
Qed.

(** C6: on a well-formed tree each of the two passes of the write path
    returns, when applied to its own result, that result again; the
    close-by-default pass also returns it when called a second time on the
    tree it was given, which the first call changed in place. *)
Theorem write_passes_idempotent (t : json) :
  wf t = true ->
  additional_properties (additional_properties t) = additional_properties t /\
  additional_properties (additional_properties_arg t) = additional_properties t /\
  replace_int_or_string (replace_int_or_string t) = replace_int_or_string t.
Proof.
  intros H. split; [|split].
  - now apply additional_properties_idem.
  - rewrite (additional_properties_arg_spec t H), <- (additional_properties_spec t H).
    now apply additional_properties_idem.
  - now apply replace_int_or_string_idem.
Qed.

(** ** The passes on the sample documents *)

Lemma additional_properties_closes_below_root_witness :
  wf sample_schema = true /\
  (exists d',
     subtree (additional_properties sample_schema) ["properties"; "spec"] = Some (JDict d') /\
     keys d' = ["type"; "properties"; "additionalProperties"] /\
     dict_get "additionalProperties" d' = Some (JBool false)) /\
  subtree (additional_properties sample_schema)
    ["properties"; "spec"; "properties"; "ports"; "items"] =
  Some (JList [JDict [("format", JStr "int-or-string")]]).
Proof.
  split; [reflexivity|]. split.
  - destruct (additional_properties_closes_below_root sample_schema ["properties"; "spec"]
                (JDict
                   [("type", JStr "object");
                    ("properties",
                     JDict
                       [("port", JDict [("format", JStr "int-or-string");
                                        ("description", JStr "a port")]);
                        ("ports",
                         JDict [("type", JStr "array");
                                ("items", JList [JDict [("format", JStr "int-or-string")]])])])])
                eq_refl eq_refl) as (d' & Hs & Hk & Ha & _).
    exists d'. split; [exact Hs|]. split; [exact Hk|]. apply Ha. reflexivity.
  - exact (additional_properties_closes_below_root sample_schema
             ["properties"; "spec"; "properties"; "ports"; "items"]
             (JList [JDict [("format", JStr "int-or-string")]]) eq_refl eq_refl).
Defined.

(** C1, as stated, fails at the root and in a list: a dict that declares
    [properties] and no [additionalProperties] is returned as it is when
    it is the tree passed to the pass, or an element of a list, and the
    sample schema keeps a root without the key. *)
Lemma additional_properties_leaves_root_open :
  closes [("properties", JDict [])] = true /\
  additional_properties open_node = open_node /\
  additional_properties open_in_list = open_in_list /\
  match additional_properties sample_schema with
  | JDict d => closes d
  | _ => false
  end = true.
Proof. repeat split. Qed.

Lemma replace_int_or_string_rewrites_witness :
  wf sample_schema = true /\
  exists d',
    replace_int_or_string sample_schema = JDict d' /\ keys d' = ["type"; "properties"].
Proof.
  split; [reflexivity|].
  destruct (proj1 (replace_int_or_string_rewrites sample_schema eq_refl) _ eq_refl)
    as (d' & Hr & Hk & _).
  exists d'. split; [exact Hr | exact Hk].
Defined.

(** C2, as stated, fails at the root and at an element of a list: a dict
    whose [format] is ["int-or-string"] is returned as it is when it is the
    tree passed to the pass or an element of a list. *)
Lemma replace_int_or_string_keeps_root_and_elements :
  replace_int_or_string int_or_string_node = int_or_string_node /\
  replace_int_or_string (JDict [("items", JList [int_or_string_node])]) =
  JDict [("items", JList [int_or_string_node])] /\
  replace_int_or_string (JDict [("port", int_or_string_node)]) =
  JDict [("port", int_or_string_schema)].
Proof. repeat split. Qed.

Lemma allow_null_optional_fields_raises_witness :
  meets_type sample_schema = true /\
  allow_null_optional_fields sample_schema None None None =
  Raise (NameError "has_required_field") /\
  meets_type untyped_schema = false /\ wf untyped_schema = true /\
  allow_null_optional_fields untyped_schema None None None = Ok untyped_schema /\
  posix_open (basename "crds/foo-example-v1.json") = None /\
  exists w',
    snd (write_schema_file posix_open sample_schema "crds/foo-example-v1.json" fresh) = Ok w' /\
    fs_read "foo-example-v1.json" (files w') =
    Some [replace_int_or_string (additional_properties sample_schema)].
Proof.
  split; [reflexivity|]. split.
  - apply (proj1 (allow_null_optional_fields_raises sample_schema)). reflexivity.
  - split; [reflexivity|]. split; [reflexivity|]. split.
    + apply (proj1 (proj2 (allow_null_optional_fields_raises untyped_schema))); reflexivity.
    + split; [reflexivity|].
      exact (proj2 (proj2 (allow_null_optional_fields_raises sample_schema))
               posix_open "crds/foo-example-v1.json" fresh eq_refl).
Defined.

(** C3, as stated, fails where the entry sits in a list that is an
    element of a list, or in a tree that is a list: the pass does not go
    there and returns the tree. *)
Lemma allow_null_optional_fields_skips_nested_lists :
  has_type_entry nested_list_schema = true /\
  allow_null_optional_fields nested_list_schema None None None = Ok nested_list_schema /\
  has_type_entry (JList [JDict [("type", JStr "string")]]) = true /\
  allow_null_optional_fields (JList [JDict [("type", JStr "string")]]) None None None =
  Ok (JList [JDict [("type", JStr "string")]]).
Proof. repeat split. Qed.

Lemma write_passes_idempotent_witness :
  wf sample_schema = true /\
  additional_properties (additional_properties sample_schema) =
  additional_properties sample_schema /\
  replace_int_or_string (replace_int_or_string sample_schema) =
  replace_int_or_string sample_schema.
Proof.
  split; [reflexivity|].
  destruct (write_passes_idempotent sample_schema eq_refl) as (H1 & _ & H3).
  split; [exact H1 | exact H3].
Defined.

(** ** Equality of values *)

Lemma dict_get_unique_In (k : string) (v : json) (d : dict) :
  unique (keys d) = true -> In (k, v) d -> dict_get k d = Some v.
Proof.
  induction d as [|[k' v'] d IH]; simpl; intros Hu Hin; [contradiction|].
  apply andb_true_iff in Hu as [Hk Hu]. apply negb_true_iff in Hk.
  destruct Hin as [[= -> ->] | Hin].
  - now rewrite String.eqb_refl.
  - destruct (String.eqb k k') eqn:E; [|now apply IH].
    apply String.eqb_eq in E. subst k'.
    assert (Habs : existsb (String.eqb k) (keys d) = true).
    { apply existsb_eqb_In. unfold keys. apply in_map_iff. now exists (k, v). }
    congruence.
Qed.

Lemma py_eq_refl (v : json) : wf v = true -> py_eq v v = true.
Proof.
  induction v as [| b | n | s | xs IH | d IH] using json_ind; intros Hwf; simpl.
  - reflexivity.
  - now destruct b.
  - apply Z.eqb_refl.
  - apply String.eqb_refl.
  - simpl in Hwf. rewrite forallb_forall in Hwf.
    induction xs as [|x xs IHx]; [reflexivity|].
    inversion IH as [|? ? Hx Hxs]; subst.
    rewrite Hx by (apply Hwf; now left). simpl.
    apply IHx; [exact Hxs|]. intros y Hy. apply Hwf. now right.
  - apply wf_dict in Hwf as [Hu Hf]. rewrite Nat.eqb_refl. simpl.
    match goal with
    | |- ?L d = true =>
        assert (G : forall l, (forall kv, In kv l -> In kv d) -> L l = true)
    end.
    { induction l as [|[k v] l IHl]; intros Hsub; [reflexivity|].
      rewrite (dict_get_unique_In k v d Hu) by (apply Hsub; now left).
      rewrite Forall_forall in IH, Hf.
      assert (Hin : In (k, v) d) by (apply Hsub; now left).
      rewrite (IH (k, v) Hin (Hf (k, v) Hin) : py_eq v v = true). simpl.
      apply IHl. intros kv Hkv. apply Hsub. now right. }
    apply G. auto.
Qed.

(** ** Appending to a list entry *)

Lemma dict_set_same (d : dict) (k : string) (v : json) :
  dict_get k d = Some v -> dict_set d k v = d.
Proof.
  induction d as [|[k' v'] d IH]; simpl; [discriminate|].
  destruct (String.eqb k k') eqn:E.
  - now intros [= ->].
  - intros H. now rewrite IH.
Qed.

Lemma dict_set_set (d : dict) (k : string) (v v' : json) :
  dict_set (dict_set d k v) k v' = dict_set d k v'.
Proof.
  induction d as [|[k0 v0] d IH]; simpl.
  - now rewrite String.eqb_refl.
  - destruct (String.eqb k k0) eqn:E; simpl; rewrite E; [reflexivity | now rewrite IH].
Qed.

Lemma append_no_duplicates_absent (d : dict) (key : string) (value : json) :
  dict_has key d = false ->
  append_no_duplicates (JDict d) key value = Ok (JDict (d ++ [(key, JList [value])])).
Proof.
  intros H. unfold append_no_duplicates. simpl. rewrite H. simpl.
  rewrite dict_get_set_same. simpl. rewrite dict_set_set.
  now rewrite dict_set_absent.
Qed.

Lemma append_no_duplicates_list (d : dict) (key : string) (value : json) (l : list json) :
  dict_get key d = Some (JList l) ->
  append_no_duplicates (JDict d) key value =
  Ok (JDict (if existsb (py_eq value) l then d
             else dict_set d key (JList (l ++ [value])))).
Proof.
  intros H. unfold append_no_duplicates. simpl.
  rewrite dict_get_has, H. simpl. rewrite H. simpl.
  destruct (existsb (py_eq value) l); reflexivity.
Qed.

Lemma existsb_snoc_self (value : json) (l : list json) :
  py_eq value value = true -> existsb (py_eq value) (l ++ [value]) = true.
Proof. intros H. rewrite existsb_app. simpl. rewrite H. apply orb_true_r. Qed.

Lemma occurrences_snoc (value : json) (l : list json) :
  py_eq value value = true -> existsb (py_eq value) l = false ->
  occurrences value (l ++ [value]) = 1.
Proof.
  intros Hr Hl. unfold occurrences. rewrite filter_app. simpl. rewrite Hr.
  rewrite length_app. simpl.
  assert (filter (py_eq value) l = []) as ->; [|reflexivity].
  induction l as [|x l IH]; [reflexivity|]. simpl in *.
  apply orb_false_iff in Hl as [Hx Hl]. rewrite Hx. now apply IH.
Qed.

Lemma append_no_duplicates_once (d : dict) (key : string) (value : json) (l : list json) :
  list_at key d = Some l ->
  append_no_duplicates (JDict d) key value =
  Ok (JDict (dict_set d key (JList (with_value l value)))).
Proof.
  unfold list_at, with_value. destruct (dict_get key d) as [v|] eqn:E.
  - destruct v; try discriminate. intros [= ->].
    rewrite (append_no_duplicates_list d key value l E).
    destruct (existsb (py_eq value) l); [|reflexivity].
    now rewrite dict_set_same.
  - intros [= <-]. simpl.
    assert (Hno : dict_has key d = false) by (rewrite dict_get_has; now rewrite E).
    rewrite (dict_set_absent d key (JList [value]) Hno).
    now apply append_no_duplicates_absent.
Qed.

Lemma list_at_set (d : dict) (key : string) (l : list json) :
  list_at key (dict_set d key (JList l)) = Some l.
Proof. unfold list_at. now rewrite dict_get_set_same. Qed.

Lemma occurrences_found (value : json) (l : list json) :
  existsb (py_eq value) l = true -> 1 <= occurrences value l.
Proof.
  unfold occurrences. induction l as [|x l IH]; simpl; [discriminate|].
  destruct (py_eq value x); simpl; intros H; [lia | auto].
Qed.

Lemma with_value_holds (l : list json) (value : json) :
  py_eq value value = true -> existsb (py_eq value) (with_value l value) = true.
Proof.
  intros Hr. unfold with_value. destruct (existsb (py_eq value) l) eqn:E; [exact E|].
  now apply existsb_snoc_self.
Qed.

Lemma with_value_keeps (l : list json) (value other : json) :
  existsb (py_eq other) l = true -> existsb (py_eq other) (with_value l value) = true.
Proof.
  intros H. unfold with_value. destruct (existsb (py_eq value) l); [exact H|].
  rewrite existsb_app, H. reflexivity.
Qed.

(** C9: on a dict whose [key] is absent or holds a list [l] in which
    [value] occurs at most once.  One call leaves under [key] the list
    [l] followed by [value] if no element of [l] equals it, and [l] as it
    is otherwise; an absent key gets a list that holds [value] alone; the
    elements of [l] stay in place.  After two calls with [value] the list
    holds it exactly once.  After a call with [value] and one with
    another value the list holds both, and when [l] held neither they
    stand after [l] in the order of the calls. *)
Theorem append_no_duplicates_appends
  (d : dict) (key : string) (l : list json) (value other : json) :
  wf value = true -> wf other = true ->
  list_at key d = Some l ->
  occurrences value l <= 1 ->
  append_no_duplicates (JDict d) key value =
    Ok (JDict (dict_set d key (JList (with_value l value)))) /\
  (dict_has key d = false ->
   append_no_duplicates (JDict d) key value = Ok (JDict (d ++ [(key, JList [value])]))) /\
  (exists suffix, with_value l value = l ++ suffix) /\
  (r <- append_no_duplicates (JDict d) key value ;; append_no_duplicates r key value) =
    Ok (JDict (dict_set d key (JList (with_value l value)))) /\
  occurrences value (with_value l value) = 1 /\
  (exists both,
     (r <- append_no_duplicates (JDict d) key value ;; append_no_duplicates r key other) =
       Ok (JDict (dict_set d key (JList both))) /\
     existsb (py_eq value) both = true /\ existsb (py_eq other) both = true /\
     (exists suffix, both = l ++ suffix) /\
     (py_eq other value = false ->
      existsb (py_eq value) l = false -> existsb (py_eq other) l = false ->
      both = l ++ [value; other])).
Proof.
  intros Hwf Hwfo Hl Hocc. pose proof (py_eq_refl value Hwf) as Hrefl.
  pose proof (py_eq_refl other Hwfo) as Hreflo.
  pose proof (append_no_duplicates_once d key value l Hl) as Hone.
  split; [exact Hone|]. split; [|split; [|split; [|split]]].
  - now apply append_no_duplicates_absent.
  - unfold with_value. destruct (existsb (py_eq value) l).
    + exists []. now rewrite app_nil_r.
    + now exists [value].
  - rewrite Hone. simpl.
    rewrite (append_no_duplicates_once _ key value (with_value l value) (list_at_set _ _ _)).
    rewrite dict_set_set. do 3 f_equal.
    unfold with_value at 1. now rewrite (with_value_holds l value Hrefl).
  - unfold with_value. destruct (existsb (py_eq value) l) eqn:E.
    + apply occurrences_found in E. lia.
    + now apply occurrences_snoc.
  - exists (with_value (with_value l value) other).
    split; [|split; [|split; [|split]]].
    + rewrite Hone. simpl.
      rewrite (append_no_duplicates_once _ key other (with_value l value) (list_at_set _ _ _)).
      now rewrite dict_set_set.
    + apply with_value_keeps. now apply with_value_holds.
    + now apply with_value_holds.
    + unfold with_value.
      destruct (existsb (py_eq value) l);
        destruct (existsb (py_eq other) _);
        [exists [] | exists [other] | exists [value] | exists [value; other]];
        rewrite ?app_nil_r, <- ?app_assoc; reflexivity.
    + intros Hne Hv Ho. unfold with_value. rewrite Hv, existsb_app. simpl.
      rewrite Ho, Hne. simpl. now rewrite <- app_assoc.
Qed.

Lemma append_no_duplicates_appends_witness :
  list_at "enum" [("type", JStr "string")] = Some [] /\
  occurrences (JStr "K") [] <= 1 /\
  append_no_duplicates (JDict [("type", JStr "string")]) "enum" (JStr "K") =
  Ok (JDict [("type", JStr "string"); ("enum", JList [JStr "K"])]) /\
  (r <- append_no_duplicates (JDict [("type", JStr "string")]) "enum" (JStr "K") ;;
   append_no_duplicates r "enum" (JStr "K")) =
  Ok (JDict [("type", JStr "string"); ("enum", JList [JStr "K"])]).
Proof.
  assert (Hocc : occurrences (JStr "K") [] <= 1) by exact (le_S 0 0 (le_n 0)).
  destruct (append_no_duplicates_appends [("type", JStr "string")] "enum" []
              (JStr "K") JNull eq_refl eq_refl eq_refl Hocc) as (H1 & _ & _ & H4 & _).
  split; [reflexivity|]. split; [exact Hocc|]. split; [exact H1 | exact H4].
Defined.

(** ** The extraction loop *)

Lemma extract_document_crd (d : dict) (schemas : list Schema) :
  dict_get "kind" d = Some (JStr "CustomResourceDefinition") ->
  extract_document (JDict d) schemas =
  (legacy <- legacy_shape (JDict d) ;;
   if legacy then
     spec <- py_getitem (JDict d) "spec" ;;
     names <- py_getitem spec "names" ;;
     k <- py_getitem names "kind" ;;
     g <- py_getitem spec "group" ;;
     v <- py_getitem spec "version" ;;
     validation <- py_getitem spec "validation" ;;
     s <- py_getitem validation "openAPIV3Schema" ;;
     Ok (schemas ++ [mkSchema k g v s])
   else
     modern <- modern_shape (JDict d) ;;
     if modern then
       spec <- py_getitem (JDict d) "spec" ;;
       versions <- py_getitem spec "versions" ;;
       versions <- py_iter versions ;;
       extract_versions (JDict d) versions schemas
     else Ok schemas).
Proof.
  intros Hk. unfold extract_document. simpl.
  rewrite dict_get_has, Hk. simpl.
  destruct (legacy_shape (JDict d)) as [[|]|e]; simpl; try reflexivity.
  destruct (dict_get "spec" d) as [spec|]; simpl; [|reflexivity].
  destruct (py_getitem spec "names") as [names|]; simpl; [|reflexivity].
  destruct (py_getitem names "kind"); simpl; [|reflexivity].
  destruct (py_getitem spec "group"); simpl; reflexivity.
Qed.

Lemma legacy_shape_spec (d sp : dict) :
  dict_get "spec" d = Some (JDict sp) ->
  legacy_shape (JDict d) =
  match dict_get "validation" sp with
  | None => Ok false
  | Some validation => py_contains validation (JStr "openAPIV3Schema")
  end.
Proof.
  intros Hs. unfold legacy_shape. simpl. rewrite dict_get_has, Hs. simpl.
  rewrite dict_get_has. destruct (dict_get "validation" sp); reflexivity.
Qed.

Lemma modern_shape_spec (d sp : dict) :
  dict_get "spec" d = Some (JDict sp) ->
  modern_shape (JDict d) = Ok (dict_has "versions" sp).
Proof.
  intros Hs. unfold modern_shape. simpl. now rewrite dict_get_has, Hs.
Qed.

Lemma legacy_shape_none (d sp : dict) :
  dict_get "spec" d = Some (JDict sp) -> no_legacy_schema sp = true ->
  legacy_shape (JDict d) = Ok false.
Proof.
  intros Hs Hn. rewrite (legacy_shape_spec d sp Hs). unfold no_legacy_schema in Hn.
  destruct (dict_get "validation" sp) as [[| | | | |va]|]; try discriminate; [|reflexivity].
  simpl. apply negb_true_iff in Hn. now rewrite Hn.
Qed.

(** C4 (as amended): for a document that is a dict of kind
    [CustomResourceDefinition], with the list [schemas] extracted so far.
    Without [spec], or with a [spec] dict that has no legacy schema and no
    [versions], the list is unchanged and nothing is raised; so it is for
    a version entry without [schema], or whose [schema] dict has no
    [openAPIV3Schema].  Where the schema is there, the record is added if
    [spec.names.kind], [spec.group] and the version ([spec.version], or the
    entry's [name]) are there, and the first one missing raises
    [KeyError], which nothing catches. *)
Theorem extract_document_skips_or_raises (d sp : dict) (schemas : list Schema) :
  dict_get "kind" d = Some (JStr "CustomResourceDefinition") ->
  (dict_get "spec" d = None -> extract_document (JDict d) schemas = Ok schemas) /\
  (dict_get "spec" d = Some (JDict sp) ->
   (no_legacy_schema sp = true -> dict_has "versions" sp = false ->
    extract_document (JDict d) schemas = Ok schemas) /\
   (forall validation schema,
      dict_get "validation" sp = Some (JDict validation) ->
      dict_get "openAPIV3Schema" validation = Some schema ->
      extract_document (JDict d) schemas = record_or_error sp sp "version" schema schemas) /\
   (forall versions,
      no_legacy_schema sp = true -> dict_get "versions" sp = Some (JList versions) ->
      extract_document (JDict d) schemas = extract_versions (JDict d) versions schemas) /\
   (forall entry,
      dict_get "schema" entry = None ->
      extract_version (JDict d) (JDict entry) schemas = Ok schemas) /\
   (forall entry schema,
      dict_get "schema" entry = Some (JDict schema) ->
      extract_version (JDict d) (JDict entry) schemas =
      match dict_get "openAPIV3Schema" schema with
      | None => Ok schemas
      | Some body => record_or_error sp entry "name" body schemas
      end)).
Proof.
  intros Hk. split.
  - intros Hs. rewrite (extract_document_crd d schemas Hk).
    unfold legacy_shape, modern_shape. simpl. rewrite dict_get_has, Hs. reflexivity.
  - intros Hs. repeat split.
    + intros Hn Hv. rewrite (extract_document_crd d schemas Hk).
      rewrite (legacy_shape_none d sp Hs Hn), (modern_shape_spec d sp Hs), Hv.
      reflexivity.
    + intros validation schema Hva Hsc. rewrite (extract_document_crd d schemas Hk).
      rewrite (legacy_shape_spec d sp Hs), Hva. simpl.
      rewrite dict_get_has, Hsc. simpl. rewrite Hs. simpl.
      unfold record_or_error, names_and_group.
      destruct (dict_get "names" sp) as [[| | | | |nm]|]; simpl; try reflexivity.
      destruct (dict_get "kind" nm); simpl; [|reflexivity].
      destruct (dict_get "group" sp); simpl; [|reflexivity].
      destruct (dict_get "version" sp); simpl; [|reflexivity].
      rewrite Hva. simpl. now rewrite Hsc.
    + intros versions Hn Hv. rewrite (extract_document_crd d schemas Hk).
      rewrite (legacy_shape_none d sp Hs Hn), (modern_shape_spec d sp Hs).
      rewrite dict_get_has, Hv. simpl. rewrite Hs. simpl. now rewrite Hv.
    + intros entry He. unfold extract_version. simpl. now rewrite dict_get_has, He.
    + intros entry schema He. unfold extract_version. simpl.
      rewrite dict_get_has, He. simpl. rewrite dict_get_has.
      destruct (dict_get "openAPIV3Schema" schema) as [body|] eqn:Hb; simpl; [|reflexivity].
      rewrite Hs. simpl. unfold record_or_error, names_and_group.
      destruct (dict_get "names" sp) as [[| | | | |nm]|]; simpl; try reflexivity.
      destruct (dict_get "kind" nm); simpl; [|reflexivity].
      destruct (dict_get "group" sp); simpl; [|reflexivity].
      destruct (dict_get "name" entry); simpl; reflexivity.
Qed.

Lemma extract_document_skips_or_raises_witness :
  extract_document crd_without_schema [] = Ok [].
Proof.
  refine (proj1 (proj2 (extract_document_skips_or_raises
                   [("kind", JStr "CustomResourceDefinition");
                    ("spec", JDict [("group", JStr "example.com");
                                    ("names", JDict [("kind", JStr "Foo")])])]
                   [("group", JStr "example.com"); ("names", JDict [("kind", JStr "Foo")])]
                   [] eq_refl) eq_refl) eq_refl eq_refl).
Defined.

(** C4, as stated, fails for a document that has a schema and lacks one
    of the other keys: the legacy CRD without [spec.names] and the version
    entry without [name] raise [KeyError]. *)
Lemma extract_document_raises_on_missing_key :
  extract_document crd_without_names [] = Raise (KeyError "names") /\
  extract_document crd_without_version_name [] = Raise (KeyError "name").
Proof. split; reflexivity. Qed.

(** ** The run *)

(** C5: run with an empty [sys.argv] the script prints [missing file] and
    exits with code 1; run with the script name alone, that is with no
    input argument, it prints nothing and, the two summary files being
    opened, writes them empty and exits with code 0 (when [open] refuses
    one of them the run ends there with the exception of [open]), as does
    a run whose inputs hold no CRD.  A run that is given a script name
    ends with code 0 unless an exception ends it. *)
Theorem main_without_input_arguments
  (urlopen open_file : string -> result (list json * option exn))
  (fmt : option template) (str_other : json -> string)
  (lower : string -> string) (open_error : string -> option exn) (w : world) :
  main urlopen open_file fmt str_other lower open_error [] w =
    (Exit 1, print "missing file" w) /\
  (forall script,
     main urlopen open_file fmt str_other lower open_error [script] w =
     match open_error "_definitions.json" with
     | Some e => (Traceback e, w)
     | None =>
         match open_error "all.json" with
         | Some e =>
             (Traceback e,
              write "_definitions.json" (JDict [("definitions", JDict [])])
                (open_w "_definitions.json" w))
         | None =>
             (Exit 0,
              write "all.json" (JDict [("oneOf", JList [])])
                (open_w "all.json"
                   (write "_definitions.json" (JDict [("definitions", JDict [])])
                      (open_w "_definitions.json" w))))
         end
     end) /\
  (forall script args,
     load_files urlopen open_file args [] = Ok [] ->
     main urlopen open_file fmt str_other lower open_error (script :: args) w =
     main urlopen open_file fmt str_other lower open_error [script] w) /\
  (forall script args,
     match fst (main urlopen open_file fmt str_other lower open_error (script :: args) w) with
     | Exit code => code = 0%Z
     | Traceback _ => True
     end).
Proof.
  split; [reflexivity|]. split.
  { intros script. unfold main. simpl.
    destruct (open_error "_definitions.json"); [reflexivity|].
    destruct (open_error "all.json"); reflexivity. }
  split.
  { intros script args H. unfold main. simpl. now rewrite H. }
  intros script args. unfold main. simpl.
  destruct (load_files _ _ _ _) as [schemas|e]; simpl; [|exact I].
  destruct (write_schema_files _ _ _ _ _ _) as [[schemas'|e] w']; simpl; [|exact I].
  destruct (open_error "_definitions.json"); simpl; [exact I|].
  destruct (build_definitions _ _ _); simpl; [|exact I].
  destruct (open_error "all.json"); simpl; [exact I | reflexivity].
Qed.

(** ** File names *)

Lemma string_app_nil_r (s : string) : (s ++ "")%string = s.
Proof. induction s as [|c s IH]; simpl; [reflexivity | now rewrite IH]. Qed.

Lemma string_app_assoc (a b c : string) :
  ((a ++ b) ++ c = a ++ (b ++ c))%string.
Proof. induction a as [|x a IH]; simpl; [reflexivity | now rewrite IH]. Qed.

Lemma has_char_app (c : ascii) (a b : string) :
  has_char c (a ++ b)%string = has_char c a || has_char c b.
Proof.
  induction a as [|x a IH]; simpl; [reflexivity|]. now rewrite IH, orb_assoc.
Qed.

Lemma basename_from_no_slash (p : string) :
  forall acc, has_slash acc = false -> has_slash (basename_from p acc) = false.
Proof.
  induction p as [|c p IH]; intros acc Hacc; simpl; [exact Hacc|].
  destruct (Ascii.eqb c "/") eqn:E.
  - now apply IH.
  - apply IH. unfold has_slash in *. rewrite has_char_app, Hacc. simpl.
    now rewrite E.
Qed.

Lemma basename_from_plain (y : string) :
  forall acc, has_slash y = false -> basename_from y acc = (acc ++ y)%string.
Proof.
  induction y as [|c y IH]; intros acc Hy; simpl.
  - now rewrite string_app_nil_r.
  - unfold has_slash in *. simpl in Hy. apply orb_false_iff in Hy as [Hc Hy].
    rewrite Hc, (IH _ Hy), string_app_assoc. reflexivity.
Qed.

Lemma basename_from_tail (x y : string) :
  has_slash y = false ->
  forall acc, basename_from (x ++ y) acc = (basename_from x acc ++ y)%string.
Proof.
  intros Hy. induction x as [|c x IH]; intros acc; simpl.
  - now apply basename_from_plain.
  - destruct (Ascii.eqb c "/"); apply IH.
Qed.

Lemma basename_from_slash (dir : string) :
  forall acc, basename_from (dir ++ "/") acc = EmptyString.
Proof.
  induction dir as [|c dir IH]; intros acc; simpl; [reflexivity|].
  destruct (Ascii.eqb c "/"); apply IH.
Qed.

(** [os.path.basename] gives the base name component. *)
Lemma basename_component (path base : string) :
  base_name_component path base -> basename path = base.
Proof.
  intros [Hb [-> | [dir ->]]]; unfold basename.
  - now rewrite basename_from_plain.
  - rewrite <- string_app_assoc, (basename_from_tail _ _ Hb), basename_from_slash.
    reflexivity.
Qed.

Lemma basename_from_split (p : string) :
  forall acc,
  has_slash acc = false ->
  (acc ++ p)%string = basename_from p acc \/
  exists dir, (acc ++ p)%string = (dir ++ "/" ++ basename_from p acc)%string.
Proof.
  induction p as [|c p IH]; intros acc Hacc; simpl.
  - left. now rewrite string_app_nil_r.
  - destruct (Ascii.eqb c "/") eqn:E.
    + apply Ascii.eqb_eq in E. subst c. right.
      destruct (IH EmptyString eq_refl) as [H | [dir H]]; simpl in H.
      * exists acc. now rewrite <- H.
      * exists (acc ++ "/" ++ dir)%string.
        rewrite !string_app_assoc. simpl. now rewrite <- H.
    + assert (Hacc' : has_slash (acc ++ String c EmptyString) = false).
      { unfold has_slash in *. rewrite has_char_app, Hacc. simpl. now rewrite E. }
      destruct (IH _ Hacc') as [H | [dir H]]; rewrite string_app_assoc in H; simpl in H.
      * now left.
      * right. now exists dir.
Qed.

Lemma component_basename (path : string) : base_name_component path (basename path).
Proof.
  split; [now apply basename_from_no_slash|].
  exact (basename_from_split path EmptyString eq_refl).
Qed.

(** [split(".")[0]] gives the first dot-delimited segment. *)
Lemma first_segment_dot (g segment : string) :
  first_dot_segment g segment -> first_segment g = segment.
Proof.
  intros [Hs H]. revert g H. induction segment as [|c segment IH]; intros g H.
  - destruct H as [-> | [rest ->]]; reflexivity.
  - simpl in Hs. apply orb_false_iff in Hs as [Hc Hs].
    destruct H as [-> | [rest ->]]; simpl; rewrite Hc; f_equal; apply IH; auto.
    right. now exists rest.
Qed.

Lemma dot_first_segment (g : string) : first_dot_segment g (first_segment g).
Proof.
  induction g as [|c g [IHn IH]]; [split; [reflexivity | now left]|].
  simpl. destruct (Ascii.eqb c ".") eqn:E.
  - apply Ascii.eqb_eq in E. subst c. split; [reflexivity|]. right. now exists g.
  - split; [simpl; now rewrite E|].
    destruct IH as [H | [rest H]].
    + left. now f_equal.
    + right. exists rest. simpl. now f_equal.
Qed.

(** [str.format] replaces the placeholders. *)
Lemma format_renders (k segment v : string) (tpl : template) (text : string) :
  renders k segment v tpl text ->
  format tpl [("kind", k); ("group", segment); ("version", v)] = Ok text.
Proof.
  induction 1 as [|s tpl text Hr IH|name value tpl text Hp Hr IH]; simpl.
  - reflexivity.
  - now rewrite IH.
  - destruct Hp; simpl; now rewrite IH.
Qed.

Lemma renders_default (k segment v : string) :
  renders k segment v (spec_template None) (k ++ "-" ++ segment ++ "-" ++ v)%string.
Proof.
  unfold spec_template.
  apply renders_placeholder; [constructor|].
  apply (renders_text k segment v "-").
  apply renders_placeholder; [constructor|].
  apply (renders_text k segment v "-").
  rewrite <- (string_app_nil_r v) at 2.
  apply renders_placeholder; [constructor | constructor].
Qed.

Lemma spec_template_format (fmt : option template) :
  filename_format fmt = spec_template fmt.
Proof. now destruct fmt. Qed.

(** The name the loop makes for a record is the one the specification
    describes. *)
Lemma spec_file_name_made fmt str_other lower (s : Schema) (n : string) :
  spec_file_name lower fmt s n ->
  exists filename,
    schema_filename fmt str_other lower s = Ok filename /\ basename filename = n.
Proof.
  intros (k & g & v & segment & text & Hk & Hg & Hv & Hseg & Hr & Hb).
  exists (lower text ++ ".json")%string. split; [|now apply basename_component].
  unfold schema_filename. rewrite Hk, Hg, Hv. simpl.
  rewrite (first_segment_dot g segment Hseg), spec_template_format.
  now rewrite (format_renders k segment v _ text Hr).
Qed.

Lemma fs_read_other (n m : string) (doc : json) fs :
  String.eqb n m = false ->
  fs_read n (fs_write m doc (fs_open m fs)) = fs_read n fs.
Proof.
  intros Hne. induction fs as [|[n' c] fs IH]; simpl.
  - rewrite String.eqb_refl. simpl. now rewrite Hne.
  - destruct (String.eqb m n') eqn:E; simpl; rewrite E; simpl.
    + apply String.eqb_eq in E. subst n'. now rewrite Hne.
    + destruct (String.eqb n n'); [reflexivity | exact IH].
Qed.

(** The loop that writes the schema files, when every record gets its
    file. *)
Lemma write_schema_files_run fmt str_other lower open_error
  (schemas : list Schema) (names : list string) :
  Forall2 (schema_file fmt str_other lower open_error) schemas names ->
  forall w,
  fst (write_schema_files fmt str_other lower open_error schemas w) =
    Ok (map written schemas) /\
  stdout (snd (write_schema_files fmt str_other lower open_error schemas w)) =
    stdout w ++ names /\
  (forall n, ~ In n names ->
     fs_read n (files (snd (write_schema_files fmt str_other lower open_error schemas w))) =
     fs_read n (files w)) /\
  (forall n, In n names ->
     exists s, In s schemas /\ schema_file fmt str_other lower open_error s n /\
       fs_read n (files (snd (write_schema_files fmt str_other lower open_error schemas w))) =
       Some [replace_int_or_string (additional_properties (definition s))]).
Proof.
  induction 1 as [|s n0 schemas names Hs Hrest IH]; intros w.
  - simpl. rewrite app_nil_r. repeat split; auto. intros n [].
  - pose proof Hs as (filename & Hf & Hb & Ho).
    simpl. rewrite Hf. rewrite <- Hb in Ho. simpl. rewrite Ho, Hb.
    set (doc := replace_int_or_string (additional_properties (definition s))).
    set (w1 := print n0 (write n0 doc (open_w n0 w))).
    destruct (IH w1) as (Hfst & Hout & Hframe & Hfiles).
    destruct (write_schema_files fmt str_other lower open_error schemas w1) as [[r|e] w2];
      simpl in *; [|discriminate].
    injection Hfst as ->.
    split; [reflexivity|]. split; [|split].
    + rewrite Hout. unfold w1. simpl. now rewrite <- app_assoc.
    + intros n Hnot. rewrite Hframe by tauto. unfold w1. simpl.
      apply fs_read_other. apply String.eqb_neq. intros ->. apply Hnot. now left.
    + intros n Hin. destruct (in_dec string_dec n names) as [Hin'|Hnot].
      * destruct (Hfiles n Hin') as (s' & Hs' & Hn' & Hr).
        exists s'. split; [now right|]. split; assumption.
      * destruct Hin as [<- | Hin]; [|contradiction].
        exists s. split; [now left|]. split; [exact Hs|].
        rewrite (Hframe n0 Hnot). unfold w1. simpl. apply fs_read_open_write.
Qed.

(** C7: when the kind, group and version of every record are strings and
    [open] accepts the names, the loop that writes the schema files
    writes one file per record, in order, and prints its name.  The name
    is the one the specification describes: the format string (the value
    of [FILENAME_FORMAT], ["{kind}-{group}-{version}"] when it is not set)
    rendered with the kind, the first dot-delimited segment of the group
    and the version, put in lower case by [str.lower], followed by
    [.json] and cut to its base name component.  The file holds the
    definition after the two passes.  With the default format the name is
    defined for every kind, group and version. *)
Theorem write_schema_files_names
  (fmt : option template) (str_other : json -> string)
  (lower : string -> string) (open_error : string -> option exn)
  (schemas : list Schema) (names : list string) (w : world) :
  Forall2 (spec_file_name lower fmt) schemas names ->
  Forall (fun n => open_error n = None) names ->
  fst (write_schema_files fmt str_other lower open_error schemas w) =
    Ok (map written schemas) /\
  stdout (snd (write_schema_files fmt str_other lower open_error schemas w)) =
    stdout w ++ names /\
  (forall n, In n names ->
     exists s, In s schemas /\ spec_file_name lower fmt s n /\
       fs_read n (files (snd (write_schema_files fmt str_other lower open_error schemas w))) =
       Some [replace_int_or_string (additional_properties (definition s))]) /\
  (forall k g v, exists segment n,
     first_dot_segment g segment /\
     renders k segment v (spec_template None) (k ++ "-" ++ segment ++ "-" ++ v)%string /\
     base_name_component (lower (k ++ "-" ++ segment ++ "-" ++ v) ++ ".json")%string n).
Proof.
  intros Hnames Hopen.
  assert (Hmade : Forall2 (schema_file fmt str_other lower open_error) schemas names).
  { clear w. induction Hnames as [|s n schemas names Hs Hrest IH];
      inversion Hopen as [|? ? Ho Hos]; subst; constructor; auto.
    destruct (spec_file_name_made fmt str_other lower s n Hs) as (filename & Hf & Hb).
    now exists filename. }
  destruct (write_schema_files_run fmt str_other lower open_error schemas names Hmade w)
    as (H1 & H2 & _ & H4).
  split; [exact H1|]. split; [exact H2|]. split.
  - clear H1 H2 Hmade Hopen. revert H4.
    generalize (files (snd (write_schema_files fmt str_other lower open_error schemas w))).
    intros fs H4 n Hin.
    induction Hnames as [|s n0 schemas names Hs Hrest IH]; [contradiction|].
    destruct (H4 n Hin) as (s' & Hs' & (filename & Hf & Hb & _) & Hr).
    assert (Hall : forall s0, In s0 (s :: schemas) ->
                   schema_filename fmt str_other lower s0 = Ok filename ->
                   basename filename = n ->
                   exists n1, In n1 (n0 :: names) /\ spec_file_name lower fmt s0 n1 /\ n1 = n).
    { clear -Hs Hrest. intros s0 Hin0 Hf0 Hb0.
      assert (G : Forall2 (spec_file_name lower fmt) (s :: schemas) (n0 :: names))
        by now constructor.
      clear Hs Hrest. induction G as [|x y xs ys Hxy Hr IH]; [contradiction|].
      destruct Hin0 as [<- | Hin0].
      - exists y. split; [now left|]. split; [exact Hxy|].
        destruct (spec_file_name_made fmt str_other lower x y Hxy) as (f' & Hf' & Hb').
        rewrite Hf0 in Hf'. injection Hf' as <-. now rewrite <- Hb', Hb0.
      - destruct (IH Hin0) as (n1 & Hn1 & Hsp & He). exists n1. split; [now right | auto]. }
    destruct (Hall s' Hs' Hf Hb) as (n1 & _ & Hsp & ->).
    exists s'. split; [exact Hs'|]. split; [exact Hsp | exact Hr].
  - intros k g v. exists (first_segment g).
    exists (basename (lower (k ++ "-" ++ first_segment g ++ "-" ++ v) ++ ".json")%string).
    split; [apply dot_first_segment|]. split; [apply renders_default|].
    apply component_basename.
Qed.

Lemma write_schema_files_names_witness :
  Forall2 (spec_file_name lower_ascii None) [foo_v1] ["foo-example-v1.json"] /\
  Forall (fun n => posix_open n = None) ["foo-example-v1.json"] /\
  stdout (snd (write_schema_files None no_str lower_ascii posix_open [foo_v1] fresh)) =
  ["foo-example-v1.json"].
Proof.
  assert (H : Forall2 (spec_file_name lower_ascii None) [foo_v1] ["foo-example-v1.json"]).
  { constructor; [|constructor].
    exists "Foo", "example.com", "v1", "example", "Foo-example-v1".
    split; [reflexivity|]. split; [reflexivity|]. split; [reflexivity|].
    split; [split; [reflexivity | right; now exists "com"]|].
    split; [exact (renders_default "Foo" "example" "v1")|].
    split; [reflexivity | now left]. }
  assert (Ho : Forall (fun n => posix_open n = None) ["foo-example-v1.json"])
    by (constructor; [reflexivity | constructor]).
  split; [exact H|]. split; [exact Ho|].
  exact (proj1 (proj2 (write_schema_files_names None no_str lower_ascii posix_open
                         [foo_v1] ["foo-example-v1.json"] fresh H Ho))).
Defined.

(** ** The definitions file *)

Lemma add_enum_added (def : json) (field : string) (value r : json) :
  enum_added def field value = Some r -> add_enum def field value = Ok r.
Proof.
  unfold enum_added, add_enum. simpl.
  destruct def as [| | | | |d]; try discriminate. simpl.
  destruct (dict_get "properties" d) as [[| | | | |p]|] eqn:Hp; try discriminate. simpl.
  destruct (dict_get field p) as [[| | | | |target]|] eqn:Hf; try discriminate.
  destruct (list_at "enum" target) as [l|] eqn:Hl; [|discriminate].
  intros [= <-]. unfold bind.
  rewrite (append_no_duplicates_once target "enum" value l Hl).
  reflexivity.
Qed.


Lemma add_enum_frame (def : json) (field other : string) (value d' : json) :
  String.eqb other field = false ->
  add_enum def field value = Ok d' ->
  target_error d' other = target_error def other /\
  subtree d' ["properties"; other] = subtree def ["properties"; other].
Proof.
  intros Hne. unfold add_enum.
  destruct def as [| | | | |d]; simpl; try discriminate.
  destruct (dict_get "properties" d) as [[| | | | |p]|] eqn:Hp; simpl; try discriminate.
  destruct (dict_get field p) as [target|] eqn:Hf; simpl; [|discriminate].
  destruct (append_no_duplicates target "enum" value) as [target'|]; simpl; [|discriminate].
  intros [= <-]. simpl. rewrite dict_get_set_same.
  now rewrite (dict_get_set_other p field other target' Hne).
Qed.

Lemma subtree_app (t : json) (p q : list string) :
  subtree t (p ++ q) =
  match subtree t p with
  | Some x => subtree x q
  | None => None
  end.
Proof.
  revert t. induction p as [|k p IH]; intros t; simpl; [reflexivity|].
  destruct t as [| | | | |d]; try reflexivity.
  destruct (dict_get k d); [apply IH | reflexivity].
Qed.

Lemma enum_added_enum (def : json) (field : string) (value r : json) :
  enum_added def field value = Some r ->
  exists target l,
    subtree def ["properties"; field] = Some (JDict target) /\
    list_at "enum" target = Some l /\
    subtree r ["properties"; field; "enum"] = Some (JList (with_value l value)).
Proof.
  unfold enum_added.
  destruct (subtree def ["properties"; field]) as [[| | | | |target]|] eqn:Ht;
    try discriminate.
  destruct (list_at "enum" target) as [l|] eqn:Hl; [|discriminate].
  intros [= <-]. exists target, l. split; [reflexivity|]. split; [exact Hl|].
  simpl in Ht. destruct def as [| | | | |d]; try discriminate.
  destruct (dict_get "properties" d) as [[| | | | |p]|] eqn:Hp; try discriminate.
  destruct (dict_get field p) as [x|] eqn:Hf; [|discriminate].
  injection Ht as ->. simpl.
  now rewrite !dict_get_set_same.
Qed.

Lemma enum_added_frame (def : json) (field other : string) (value r : json) :
  String.eqb other field = false ->
  enum_added def field value = Some r ->
  subtree r ["properties"; other] = subtree def ["properties"; other].
Proof.
  intros Hne H. apply add_enum_added in H.
  now destruct (add_enum_frame def field other value r Hne H).
Qed.

Lemma definitions_entry_enums str_other (s : Schema) (e : json) :
  definitions_entry str_other s = Some e ->
  exists api la kd lk,
    subtree (additional_properties_arg (definition s)) ["properties"; "apiVersion"]
      = Some (JDict api) /\
    list_at "enum" api = Some la /\
    subtree (additional_properties_arg (definition s)) ["properties"; "kind"]
      = Some (JDict kd) /\
    list_at "enum" kd = Some lk /\
    subtree e ["properties"; "apiVersion"; "enum"]
      = Some (JList (with_value la (api_version str_other s))) /\
    subtree e ["properties"; "kind"; "enum"] = Some (JList (with_value lk (kind s))).
Proof.
  unfold definitions_entry.
  destruct (enum_added _ "apiVersion" _) as [d1|] eqn:H1; [|discriminate].
  intros H2.
  destruct (enum_added_enum _ _ _ _ H1) as (api & la & Ha & Hla & Hea).
  destruct (enum_added_enum _ _ _ _ H2) as (kd & lk & Hk & Hlk & Hek).
  exists api, la, kd, lk.
  rewrite (enum_added_frame _ "apiVersion" "kind" _ _ eq_refl H1) in Hk.
  repeat split; auto.
  change ["properties"; "apiVersion"; "enum"] with (["properties"; "apiVersion"] ++ ["enum"]).
  rewrite subtree_app.
  rewrite (enum_added_frame _ "kind" "apiVersion" _ _ eq_refl H2).
  rewrite <- subtree_app. exact Hea.
Qed.

Lemma build_definitions_entries str_other (schemas : list Schema) (entries : list json) :
  Forall2 (fun s e => definitions_entry str_other s = Some e) schemas entries ->
  forall acc,
  build_definitions str_other (map written schemas) acc =
  Ok (fold_left (fun acc se => dict_set acc (definition_key str_other (fst se)) (snd se))
                (combine schemas entries) acc).
Proof.
  induction 1 as [|s e schemas entries Hs Hrest IH]; intros acc; [reflexivity|].
  unfold definitions_entry in Hs.
  destruct (enum_added _ "apiVersion" _) as [d1|] eqn:H1; [|discriminate].
  change (build_definitions str_other (map written (s :: schemas)) acc)
    with (d <- add_enum (additional_properties_arg (definition s)) "apiVersion"
                 (api_version str_other s) ;;
          d0 <- add_enum d "kind" (kind s) ;;
          build_definitions str_other (map written schemas)
            (dict_set acc (definition_key str_other s) d0)).
  rewrite (add_enum_added _ _ _ _ H1). unfold bind at 1.
  rewrite (add_enum_added _ _ _ _ Hs). unfold bind at 1.
  apply IH.
Qed.

Lemma all_refs_written str_other (schemas : list Schema) :
  all_refs str_other (map written schemas) = all_refs str_other schemas.
Proof. unfold all_refs. now rewrite map_map. Qed.



Lemma combine_keys {A : Type} (key : A -> string) (schemas : list A) (entries : list json) :
  List.length schemas = List.length entries ->
  map (fun se => key (fst se)) (combine schemas entries) = map key schemas.
Proof.
  revert entries. induction schemas as [|s schemas IH]; intros [|e entries] H;
    simpl in *; try discriminate; [reflexivity|].
  f_equal. apply IH. now injection H.
Qed.

(** ** Objects changed in place *)

Lemma erase_get (k : string) (items : list (string * obj)) :
  dict_get k (map (fun kv => (fst kv, erase (snd kv))) items) =
  option_map erase (obj_get k items).
Proof.
  induction items as [|[k' v] items IH]; simpl; [reflexivity|].
  destruct (String.eqb k k'); [reflexivity | exact IH].
Qed.

Lemma erase_set (items : list (string * obj)) (k : string) (v : obj) :
  map (fun kv => (fst kv, erase (snd kv))) (obj_set items k v) =
  dict_set (map (fun kv => (fst kv, erase (snd kv))) items) k (erase v).
Proof.
  induction items as [|[k' v'] items IH]; simpl; [reflexivity|].
  destruct (String.eqb k k'); simpl; [reflexivity | now rewrite IH].
Qed.

Lemma erase_getitem (o : obj) (k : string) :
  py_getitem (erase o) k =
  match obj_getitem o k with
  | Ok v => Ok (erase v)
  | Raise e => Raise e
  end.
Proof.
  destruct o as [| | | | id xs | id items]; try reflexivity.
  simpl. rewrite erase_get. now destruct (obj_get k items).
Qed.

Lemma obj_get_set_same (items : list (string * obj)) (k : string) (v : obj) :
  obj_get k (obj_set items k v) = Some v.
Proof.
  induction items as [|[k' v'] items IH]; simpl.
  - now rewrite String.eqb_refl.
  - destruct (String.eqb k k') eqn:E; simpl; rewrite E; [reflexivity | exact IH].
Qed.

Lemma obj_set_set (items : list (string * obj)) (k : string) (v v' : obj) :
  obj_set (obj_set items k v) k v' = obj_set items k v'.
Proof.
  induction items as [|[k0 v0] items IH]; simpl.
  - now rewrite String.eqb_refl.
  - destruct (String.eqb k k0) eqn:E; simpl; rewrite E; [reflexivity | now rewrite IH].
Qed.

Lemma obj_set_same (items : list (string * obj)) (k : string) (v : obj) :
  obj_get k items = Some v -> obj_set items k v = items.
Proof.
  induction items as [|[k' v'] items IH]; simpl; [discriminate|].
  destruct (String.eqb k k') eqn:E.
  - now intros [= ->].
  - intros H. now rewrite IH.
Qed.

Lemma NoDup_app_disjoint (l l' : list nat) :
  NoDup (l ++ l') -> forall a, In a l -> In a l' -> False.
Proof.
  induction l as [|x l IH]; simpl; intros H a Hl Hl'; [contradiction|].
  inversion H as [|? ? Hnot Hnd]; subst. destruct Hl as [-> | Hl].
  - apply Hnot. rewrite in_app_iff. now right.
  - now apply (IH Hnd a).
Qed.

(** *** An object that does not occur is not changed *)

Lemma assign_absent (id : nat) (new o : obj) :
  ~ In id (ids o) -> assign id new o = o.
Proof.
  induction o as [| | | | id' xs IH | id' items IH] using obj_ind; try reflexivity.
  - simpl. intros H. destruct (Nat.eqb id' id) eqn:E.
    + apply Nat.eqb_eq in E. tauto.
    + f_equal. assert (Hxs : ~ In id (flat_map ids xs)) by tauto. clear H E.
      induction IH as [|x xs Hx Hrest IHxs]; [reflexivity|].
      simpl in *. rewrite in_app_iff in Hxs. rewrite Hx, IHxs by tauto. reflexivity.
  - simpl. intros H. destruct (Nat.eqb id' id) eqn:E.
    + apply Nat.eqb_eq in E. tauto.
    + f_equal. assert (Hxs : ~ In id (flat_map (fun kv => ids (snd kv)) items)) by tauto.
      clear H E.
      induction IH as [|[k x] items Hx Hrest IHxs]; [reflexivity|].
      simpl in *. rewrite in_app_iff in Hxs. rewrite Hx, IHxs by tauto. reflexivity.
Qed.

Lemma assign_items_absent (id : nat) (new : obj) (items : list (string * obj)) :
  ~ In id (flat_map (fun kv => ids (snd kv)) items) ->
  map (fun kv => (fst kv, assign id new (snd kv))) items = items.
Proof.
  induction items as [|[k x] items IH]; [reflexivity|].
  simpl. rewrite in_app_iff. intros H.
  rewrite assign_absent, IH by tauto. reflexivity.
Qed.

Lemma assign_store_absent (id : nat) (new : obj) (st : store) :
  ~ In id (flat_map ids st) -> map (assign id new) st = st.
Proof.
  induction st as [|x st IH]; [reflexivity|].
  simpl. rewrite in_app_iff. intros H.
  rewrite assign_absent, IH by tauto. reflexivity.
Qed.

Lemma assign_self (id : nat) (new o : obj) :
  id_of o = Some id -> assign id new o = new.
Proof.
  destruct o; simpl; try discriminate; intros [= ->]; now rewrite Nat.eqb_refl.
Qed.

Lemma id_of_ids (o : obj) (id : nat) : id_of o = Some id -> In id (ids o).
Proof. destruct o; simpl; try discriminate; intros [= ->]; now left. Qed.

(** *** The identities below an entry *)

Lemma ids_entry (k : string) (items : list (string * obj)) (c : obj) :
  obj_get k items = Some c ->
  exists l1 l2,
    flat_map (fun kv => ids (snd kv)) items = l1 ++ ids c ++ l2 /\
    forall c', flat_map (fun kv => ids (snd kv)) (obj_set items k c') = l1 ++ ids c' ++ l2.
Proof.
  induction items as [|[k' v] items IH]; simpl; [discriminate|].
  destruct (String.eqb k k') eqn:E.
  - intros [= ->]. exists [], (flat_map (fun kv => ids (snd kv)) items).
    split; [reflexivity|]. intros c'. reflexivity.
  - intros H. destruct (IH H) as (l1 & l2 & H1 & H2).
    exists (ids v ++ l1), l2. split.
    + rewrite H1. now rewrite <- app_assoc.
    + intros c'. simpl. rewrite H2. now rewrite <- app_assoc.
Qed.

Lemma ids_new_entry (k : string) (items : list (string * obj)) (c' : obj) :
  obj_get k items = None ->
  flat_map (fun kv => ids (snd kv)) (obj_set items k c') =
  flat_map (fun kv => ids (snd kv)) items ++ ids c'.
Proof.
  induction items as [|[k' v] items IH]; simpl.
  - intros _. now rewrite app_nil_r.
  - destruct (String.eqb k k'); [discriminate|].
    intros H. simpl. rewrite (IH H). now rewrite app_assoc.
Qed.

Lemma NoDup_middle (l1 a l2 : list nat) : NoDup (l1 ++ a ++ l2) -> NoDup a.
Proof.
  intros H. apply NoDup_app_remove_l in H. now apply NoDup_app_remove_r in H.
Qed.

(** The identities of [o] around those of the object at the end of a
    path, and what they become when that object is replaced. *)
Lemma ids_path (path : list string) :
  forall o c,
  obj_subtree o path = Some c ->
  exists l1 l2,
    ids o = l1 ++ ids c ++ l2 /\
    forall new, ids (obj_put o path new) = l1 ++ ids new ++ l2.
Proof.
  induction path as [|k path IH]; intros o c H.
  - simpl in H. injection H as ->. exists [], []. split.
    + now rewrite app_nil_r.
    + intros new. simpl. now rewrite app_nil_r.
  - simpl in H. destruct o as [| | | | id xs | id items]; try discriminate.
    destruct (obj_get k items) as [v|] eqn:Hk; [|discriminate].
    destruct (IH v c H) as (m1 & m2 & Hv & Hput).
    destruct (ids_entry k items v Hk) as (l1 & l2 & Hi & Hset).
    exists (id :: l1 ++ m1), (m2 ++ l2). split.
    + simpl. rewrite Hi, Hv. now rewrite <- !app_assoc.
    + intros new. simpl. rewrite Hk. simpl. rewrite Hset, Hput.
      now rewrite <- !app_assoc.
Qed.

Lemma ids_place (st : store) :
  forall k, k < List.length st ->
  exists l1 l2,
    flat_map ids st = l1 ++ ids (nth k st ONull) ++ l2 /\
    forall x, flat_map ids (put k x st) = l1 ++ ids x ++ l2.
Proof.
  induction st as [|y st IH]; intros k Hk; simpl in Hk; [lia|].
  destruct k as [|k].
  - exists [], (flat_map ids st). split; reflexivity.
  - destruct (IH k) as (l1 & l2 & H1 & H2); [lia|].
    exists (ids y ++ l1), l2. split.
    + simpl. rewrite H1. now rewrite <- app_assoc.
    + intros x. simpl. rewrite H2. now rewrite <- app_assoc.
Qed.

(** *** Replacing an object that occurs once *)

Lemma assign_entry (id : nat) (new : obj) (k : string) (items : list (string * obj)) (c : obj) :
  NoDup (flat_map (fun kv => ids (snd kv)) items) ->
  obj_get k items = Some c -> In id (ids c) ->
  map (fun kv => (fst kv, assign id new (snd kv))) items =
  obj_set items k (assign id new c).
Proof.
  induction items as [|[k' v] items IH]; simpl; [discriminate|].
  intros Hnd Hk Hin. destruct (String.eqb k k') eqn:E.
  - injection Hk as ->. f_equal. apply assign_items_absent.
    intros Hc. exact (NoDup_app_disjoint _ _ Hnd id Hin Hc).
  - rewrite IH; auto; [|now apply NoDup_app_remove_l in Hnd].
    rewrite assign_absent; [reflexivity|].
    intros Hc. destruct (ids_entry k items c Hk) as (l1 & l2 & Hi & _).
    pose proof (NoDup_app_disjoint _ _ Hnd) as Hd. apply (Hd id Hc).
    rewrite Hi, !in_app_iff. tauto.
Qed.

Lemma assign_path (id : nat) (new : obj) (path : list string) :
  forall o c,
  NoDup (ids o) -> obj_subtree o path = Some c -> id_of c = Some id ->
  assign id new o = obj_put o path new.
Proof.
  induction path as [|k path IH]; intros o c Hnd H Hid.
  - simpl in H. injection H as ->. now apply assign_self.
  - simpl in H. destruct o as [| | | | id' xs | id' items]; try discriminate.
    destruct (obj_get k items) as [v|] eqn:Hk; [|discriminate].
    destruct (ids_path path v c H) as (m1 & m2 & Hv & _).
    destruct (ids_entry k items v Hk) as (l1 & l2 & Hi & _).
    assert (Hinv : In id (ids v)).
    { rewrite Hv, !in_app_iff. right. left. now apply id_of_ids. }
    simpl in Hnd. inversion Hnd as [|? ? Hnot Hnd']; subst.
    simpl. rewrite Hk.
    destruct (Nat.eqb id' id) eqn:E.
    + apply Nat.eqb_eq in E. subst id'. exfalso. apply Hnot.
      rewrite Hi, !in_app_iff. tauto.
    + f_equal. rewrite (assign_entry id new k items v Hnd' Hk Hinv). f_equal.
      apply (IH v c); auto. rewrite Hi in Hnd'. now apply NoDup_middle in Hnd'.
Qed.

Lemma put_nth {A : Type} (l : list A) (d : A) :
  forall k x j, k < List.length l ->
  nth j (put k x l) d = if Nat.eqb j k then x else nth j l d.
Proof.
  induction l as [|y l IH]; intros k x j Hk; simpl in Hk; [lia|].
  destruct k as [|k]; destruct j as [|j]; simpl; try reflexivity.
  apply IH. lia.
Qed.

Lemma put_length {A : Type} (l : list A) :
  forall k x, List.length (put k x l) = List.length l.
Proof.
  induction l as [|y l IH]; intros [|k] x; simpl; try reflexivity. now rewrite IH.
Qed.

Lemma put_same {A : Type} (l : list A) (d : A) :
  forall k, put k (nth k l d) l = l.
Proof.
  induction l as [|y l IH]; intros [|k]; simpl; try reflexivity. now rewrite IH.
Qed.

Lemma put_put {A : Type} (l : list A) :
  forall k x y, put k y (put k x l) = put k y l.
Proof.
  induction l as [|z l IH]; intros [|k] x y; simpl; try reflexivity. now rewrite IH.
Qed.

Lemma map_put {A B : Type} (f : A -> B) (l : list A) :
  forall k x, map f (put k x l) = put k (f x) (map f l).
Proof.
  induction l as [|z l IH]; intros [|k] x; simpl; try reflexivity. now rewrite IH.
Qed.

(** In a store where no object occurs twice, replacing an object changes
    the record that holds it and no other. *)
Lemma assign_place (id : nat) (new : obj) (st : store) :
  forall k,
  unshared st -> k < List.length st -> In id (ids (nth k st ONull)) ->
  map (assign id new) st = put k (assign id new (nth k st ONull)) st.
Proof.
  unfold unshared. induction st as [|y st IH]; intros k Hnd Hk Hin; simpl in Hk; [lia|].
  simpl in Hnd. destruct k as [|k]; simpl in *.
  - f_equal. apply assign_store_absent. intros Hc.
    exact (NoDup_app_disjoint _ _ Hnd id Hin Hc).
  - rewrite (IH k); [| now apply NoDup_app_remove_l in Hnd | lia | exact Hin].
    rewrite assign_absent; [reflexivity|].
    intros Hc. destruct (ids_place st k) as (l1 & l2 & Hi & _); [lia|].
    pose proof (NoDup_app_disjoint _ _ Hnd) as Hd. apply (Hd id Hc).
    rewrite Hi, !in_app_iff. tauto.
Qed.

Lemma unshared_root (st : store) (k : nat) :
  unshared st -> k < List.length st -> NoDup (ids (nth k st ONull)).
Proof.
  intros Hnd Hk. destruct (ids_place st k Hk) as (l1 & l2 & Hi & _).
  unfold unshared in Hnd. rewrite Hi in Hnd. now apply NoDup_middle in Hnd.
Qed.

(** The object at the end of a path of the record at place [k] becomes
    [new]. *)
Lemma assign_in_store (st : store) (k : nat) (path : list string) (c new : obj) (id : nat) :
  unshared st -> k < List.length st ->
  obj_subtree (nth k st ONull) path = Some c -> id_of c = Some id ->
  map (assign id new) st = put k (obj_put (nth k st ONull) path new) st.
Proof.
  intros Hnd Hk Hc Hid.
  destruct (ids_path path _ c Hc) as (m1 & m2 & Hv & _).
  rewrite (assign_place id new st k Hnd Hk).
  - f_equal. apply (assign_path id new path _ c); auto. now apply unshared_root.
  - rewrite Hv, !in_app_iff. right. left. now apply id_of_ids.
Qed.

(** What replacing it does to the identities of the store. *)
Lemma ids_in_store (st : store) (k : nat) (path : list string) (c : obj) :
  k < List.length st -> obj_subtree (nth k st ONull) path = Some c ->
  exists l1 l2,
    flat_map ids st = l1 ++ ids c ++ l2 /\
    forall new,
      flat_map ids (put k (obj_put (nth k st ONull) path new) st) = l1 ++ ids new ++ l2.
Proof.
  intros Hk Hc.
  destruct (ids_path path _ c Hc) as (m1 & m2 & Hv & Hput).
  destruct (ids_place st k Hk) as (l1 & l2 & Hi & Hset).
  exists (l1 ++ m1), (m2 ++ l2). split.
  - rewrite Hi, Hv. now rewrite <- !app_assoc.
  - intros new. rewrite Hset, Hput. now rewrite <- !app_assoc.
Qed.

(** *** Paths *)

Lemma obj_subtree_app (p q : list string) :
  forall o,
  obj_subtree o (p ++ q) =
  match obj_subtree o p with
  | Some c => obj_subtree c q
  | None => None
  end.
Proof.
  induction p as [|k p IH]; intros o; simpl; [reflexivity|].
  destruct o as [| | | | id xs | id items]; try reflexivity.
  destruct (obj_get k items); [apply IH | reflexivity].
Qed.

Lemma obj_put_app (p q : list string) (new : obj) :
  forall o c,
  obj_subtree o p = Some c ->
  obj_put o (p ++ q) new = obj_put o p (obj_put c q new).
Proof.
  induction p as [|k p IH]; intros o c H; simpl in *.
  - now injection H as ->.
  - destruct o as [| | | | id xs | id items]; try discriminate.
    destruct (obj_get k items) as [v|]; [|discriminate].
    now rewrite (IH v c H).
Qed.

Lemma obj_subtree_put (p : list string) (new : obj) :
  forall o c, obj_subtree o p = Some c -> obj_subtree (obj_put o p new) p = Some new.
Proof.
  induction p as [|k p IH]; intros o c H; simpl in *; [reflexivity|].
  destruct o as [| | | | id xs | id items]; try discriminate.
  destruct (obj_get k items) as [v|] eqn:Hk; [|discriminate].
  simpl. rewrite obj_get_set_same. now apply (IH v c).
Qed.

Lemma obj_put_put (p : list string) (x y : obj) :
  forall o c, obj_subtree o p = Some c -> obj_put (obj_put o p x) p y = obj_put o p y.
Proof.
  induction p as [|k p IH]; intros o c H; simpl in *; [reflexivity|].
  destruct o as [| | | | id xs | id items]; try discriminate.
  destruct (obj_get k items) as [v|] eqn:Hk; [|discriminate].
  simpl. rewrite obj_get_set_same, obj_set_set. now rewrite (IH v c H).
Qed.

Lemma obj_put_same (p : list string) :
  forall o c, obj_subtree o p = Some c -> obj_put o p c = o.
Proof.
  induction p as [|k p IH]; intros o c H; simpl in *; [now injection H|].
  destruct o as [| | | | id xs | id items]; try discriminate.
  destruct (obj_get k items) as [v|] eqn:Hk; [|discriminate].
  rewrite (IH v c H). now rewrite obj_set_same.
Qed.

(** *** Fresh identities *)

Lemma max_bound (l : list nat) (x : nat) : In x l -> x <= fold_right Nat.max 0 l.
Proof.
  induction l as [|y l IH]; simpl; [contradiction|].
  intros [-> | H]; [lia|]. specialize (IH H). lia.
Qed.

Lemma fresh_id_fresh (st : store) : ~ In (fresh_id st) (flat_map ids st).
Proof. intros H. apply max_bound in H. unfold fresh_id in H. lia. Qed.

Lemma in_grow (l1 a l2 : list nat) (f x : nat) :
  In x (l1 ++ (a ++ [f]) ++ l2) <-> x = f \/ In x (l1 ++ a ++ l2).
Proof. rewrite !in_app_iff. simpl. intuition congruence. Qed.

Lemma NoDup_grow (l1 a l2 : list nat) (f : nat) :
  NoDup (l1 ++ a ++ l2) -> ~ In f (l1 ++ a ++ l2) -> NoDup (l1 ++ (a ++ [f]) ++ l2).
Proof.
  induction l1 as [|x l1 IH]; simpl.
  - induction a as [|y a IHa]; simpl; intros Hnd Hf.
    + now constructor.
    + inversion Hnd as [|? ? Hnot Hnd']; subst. constructor.
      * intros Hin. apply (in_grow [] a l2 f y) in Hin. simpl in Hin. tauto.
      * apply IHa; tauto.
  - intros Hnd Hf. inversion Hnd as [|? ? Hnot Hnd']; subst. constructor.
    + intros Hin. apply in_grow in Hin. tauto.
    + apply IH; tauto.
Qed.

(** *** The call, in place and on the value *)

(** On a store where no object occurs twice, [append_no_duplicates]
    called on the object at the end of a path of the record at place [k]
    changes that object and nothing else, as the call on its value says;
    the exceptions are the same. *)
Lemma append_in_place_tree
  (st : store) (k : nat) (path : list string) (target : obj) (key value : string) :
  unshared st -> k < List.length st ->
  obj_subtree (nth k st ONull) path = Some target ->
  match append_no_duplicates (erase target) key (JStr value) with
  | Ok t' =>
      exists target',
        append_no_duplicates_in_place st target key value =
          Ok (put k (obj_put (nth k st ONull) path target') st) /\
        erase target' = t' /\
        unshared (put k (obj_put (nth k st ONull) path target') st)
  | Raise e => append_no_duplicates_in_place st target key value = Raise e
  end.
Proof.
  intros Hnd Hk Ht.
  destruct target as [| | | s | id xs | a aitems].
  1-3: reflexivity.
  - unfold append_no_duplicates, append_no_duplicates_in_place, obj_contains. simpl.
    destruct (is_substring key s); reflexivity.
  - unfold append_no_duplicates, append_no_duplicates_in_place, obj_contains. simpl.
    destruct (existsb _ _); reflexivity.
  - set (d := map (fun kv => (fst kv, erase (snd kv))) aitems).
    change (erase (ODict a aitems)) with (JDict d).
    destruct (obj_get key aitems) as [x|] eqn:Hx.
    + (* the key is there *)
      assert (Hd : dict_get key d = Some (erase x)).
      { unfold d. now rewrite erase_get, Hx. }
      unfold append_no_duplicates, append_no_duplicates_in_place, obj_contains.
      change (erase (ODict a aitems)) with (JDict d).
      simpl. rewrite dict_get_has, Hd. simpl. rewrite Hd, Hx. simpl.
      change (JStr value) with (erase (OStr value)).
      destruct (py_contains (erase x) (erase (OStr value))) as [[|]|e]; simpl;
        [| |reflexivity].
      * exists (ODict a aitems). rewrite (obj_put_same path _ _ Ht), put_same.
        repeat split; auto.
      * destruct x as [| | | | e xs | e its]; try reflexivity. simpl.
        assert (Hsub : obj_subtree (nth k st ONull) (path ++ [key]) = Some (OList e xs)).
        { rewrite obj_subtree_app, Ht. simpl. now rewrite Hx. }
        set (lst := OList e (xs ++ [OStr value])).
        exists (ODict a (obj_set aitems key lst)).
        assert (Hput : obj_put (nth k st ONull) (path ++ [key]) lst =
                       obj_put (nth k st ONull) path (ODict a (obj_set aitems key lst))).
        { rewrite (obj_put_app path [key] lst _ _ Ht). simpl. now rewrite Hx. }
        split; [|split].
        -- rewrite (assign_in_store st k (path ++ [key]) (OList e xs) lst e Hnd Hk Hsub eq_refl).
           now rewrite Hput.
        -- simpl. unfold d. rewrite erase_set. simpl. now rewrite map_app.
        -- rewrite <- Hput.
           destruct (ids_in_store st k (path ++ [key]) _ Hk Hsub) as (l1 & l2 & Hi & Hnew).
           unfold unshared in *. rewrite Hnew. rewrite Hi in Hnd.
           unfold lst. simpl in *. rewrite flat_map_app. simpl. now rewrite app_nil_r.
    + (* the key is created *)
      assert (Hd : dict_has key d = false).
      { rewrite dict_get_has. unfold d. now rewrite erase_get, Hx. }
      rewrite (append_no_duplicates_absent d key (JStr value) Hd).
      set (f := fresh_id st).
      set (A1 := ODict a (obj_set aitems key (OList f []))).
      set (A2 := ODict a (obj_set aitems key (OList f [OStr value]))).
      set (D := nth k st ONull) in *.
      exists A2.
      destruct (ids_in_store st k path _ Hk Ht) as (l1 & l2 & Hi & Hnew).
      assert (Hgrow : forall v, NoDup (l1 ++ ids (ODict a (obj_set aitems key (OList f v))) ++ l2)
                                \/ flat_map ids v <> []).
      { intros v. destruct (flat_map ids v) eqn:Ev; [left | right; discriminate].
        simpl. rewrite (ids_new_entry key aitems _ Hx). simpl. rewrite Ev.
        apply (NoDup_grow l1 (a :: flat_map (fun kv => ids (snd kv)) aitems) l2 f).
        - unfold unshared in Hnd. now rewrite Hi in Hnd.
        - intros Hin. apply (fresh_id_fresh st). now rewrite Hi. }
      assert (Hst1 : map (assign a A1) st = put k (obj_put D path A1) st).
      { exact (assign_in_store st k path _ A1 a Hnd Hk Ht eq_refl). }
      assert (Hnd1 : unshared (put k (obj_put D path A1) st)).
      { unfold unshared. rewrite Hnew. destruct (Hgrow []) as [H | H]; [exact H | now elim H]. }
      assert (Hnd2 : unshared (put k (obj_put D path A2) st)).
      { unfold unshared. rewrite Hnew.
        destruct (Hgrow [OStr value]) as [H | H]; [exact H | now elim H]. }
      split; [|split; [|exact Hnd2]].
      * unfold append_no_duplicates_in_place, obj_contains.
        change (erase (ODict a aitems)) with (JDict d).
        simpl. rewrite Hd. simpl. rewrite obj_get_set_same. simpl.
        fold f. fold A1. rewrite Hst1.
        assert (Hk1 : k < List.length (put k (obj_put D path A1) st))
          by now rewrite put_length.
        assert (Hroot : nth k (put k (obj_put D path A1) st) ONull = obj_put D path A1).
        { rewrite put_nth by exact Hk. now rewrite Nat.eqb_refl. }
        assert (Hsub : obj_subtree (nth k (put k (obj_put D path A1) st) ONull)
                         (path ++ [key]) = Some (OList f [])).
        { rewrite Hroot, obj_subtree_app, (obj_subtree_put path A1 D _ Ht).
          simpl. now rewrite obj_get_set_same. }
        rewrite (assign_in_store _ k (path ++ [key]) (OList f []) (OList f [OStr value]) f
                   Hnd1 Hk1 Hsub eq_refl).
        rewrite Hroot, put_put.
        rewrite (obj_put_app path [key] _ _ A1 (obj_subtree_put path A1 D _ Ht)).
        simpl. rewrite obj_get_set_same, obj_set_set.
        now rewrite (obj_put_put path A1 _ D _ Ht).
      * simpl. fold d. unfold d at 1. rewrite erase_set. fold d. simpl.
        now rewrite (dict_set_absent d key _ Hd).
Qed.

Lemma obj_getitem_ok (o v : obj) (k : string) :
  obj_getitem o k = Ok v ->
  exists id items, o = ODict id items /\ obj_get k items = Some v.
Proof.
  destruct o as [| | | | id xs | id items]; simpl; try discriminate.
  destruct (obj_get k items) as [x|] eqn:E; [|discriminate].
  intros [= <-]. now exists id, items.
Qed.

(** The step of the loop on the record at place [k]: on a store where no
    object occurs twice it changes this record and no other, and the
    value of the record becomes what [add_enum] says; the exceptions are
    the same. *)
Lemma add_enum_in_place_tree (st : store) (k : nat) (field value : string) :
  unshared st -> k < List.length st ->
  match add_enum (erase (nth k st ONull)) field (JStr value) with
  | Ok t' =>
      exists root',
        add_enum_in_place st k field value = Ok (put k root' st) /\
        erase root' = t' /\ unshared (put k root' st)
  | Raise e => add_enum_in_place st k field value = Raise e
  end.
Proof.
  intros Hnd Hk. unfold add_enum, add_enum_in_place.
  rewrite erase_getitem.
  destruct (obj_getitem (nth k st ONull) "properties") as [P|e] eqn:HP; simpl;
    [|reflexivity].
  rewrite erase_getitem.
  destruct (obj_getitem P field) as [target|e] eqn:HT; simpl; [|reflexivity].
  destruct (obj_getitem_ok _ _ _ HP) as (d & items & HD & Hp).
  destruct (obj_getitem_ok _ _ _ HT) as (p & pitems & -> & Hf).
  assert (Hsub : obj_subtree (nth k st ONull) ["properties"; field] = Some target).
  { rewrite HD. simpl. now rewrite Hp, Hf. }
  pose proof (append_in_place_tree st k ["properties"; field] target "enum" value
                Hnd Hk Hsub) as H.
  destruct (append_no_duplicates (erase target) "enum" (JStr value)) as [t'|e];
    simpl; [|exact H].
  destruct H as (target' & Hrun & Het & Hnd').
  assert (Hset : forall x,
             py_setitem (erase (nth k st ONull)) "properties" x =
             Ok (JDict (dict_set (map (fun kv => (fst kv, erase (snd kv))) items)
                          "properties" x)))
    by (intros x; now rewrite HD).
  rewrite Hset.
  exists (obj_put (nth k st ONull) ["properties"; field] target').
  split; [exact Hrun|]. split; [|exact Hnd'].
  rewrite HD. simpl. rewrite Hp, Hf. simpl. rewrite erase_set. simpl.
  now rewrite erase_set, Het.
Qed.

Lemma nth_erase (st : store) (k : nat) :
  erase (nth k st ONull) = nth k (map erase st) JNull.
Proof. now rewrite <- (map_nth erase). Qed.

Lemma put_middle {A : Type} (done : list A) (x y : A) (todo : list A) :
  put (List.length done) y (done ++ x :: todo) = done ++ y :: todo.
Proof. induction done as [|z done IH]; simpl; [reflexivity | now rewrite IH]. Qed.

Lemma nth_middle_tree {A : Type} (done : list A) (x d : A) (todo : list A) :
  nth (List.length done) (done ++ x :: todo) d = x.
Proof. induction done as [|z done IH]; simpl; [reflexivity | exact IH]. Qed.


Lemma map_ref_set (f : nat -> json) (definitions : list (string * nat))
  (key : string) (k : nat) :
  map (fun kr => (fst kr, f (snd kr))) (ref_set definitions key k) =
  dict_set (map (fun kr => (fst kr, f (snd kr))) definitions) key (f k).
Proof.
  induction definitions as [|[key' k'] definitions IH]; simpl; [reflexivity|].
  destruct (String.eqb key key'); simpl; [reflexivity | now rewrite IH].
Qed.





Lemma distinct_NoDup (l : list nat) : distinct l = true -> NoDup l.
Proof.
  induction l as [|x l IH]; simpl; intros H; constructor.
  - apply andb_true_iff in H as [H _]. apply negb_true_iff in H.
    intros Hin. assert (existsb (Nat.eqb x) l = true); [|congruence].
    apply existsb_exists. exists x. split; [exact Hin | apply Nat.eqb_refl].
  - apply IH. now apply andb_true_iff in H as [_ H].
Defined.

(** ** The definitions loop on a definition that lacks a key *)










Lemma fs_read_open_other (n m : string) fs :
  String.eqb n m = false -> fs_read n (fs_open m fs) = fs_read n fs.
Proof.
  intros Hne. induction fs as [|[n' c] fs IH]; simpl.
  - now rewrite Hne.
  - destruct (String.eqb m n') eqn:E; simpl.
    + apply String.eqb_eq in E. subst n'. now rewrite Hne.
    + destruct (String.eqb n n'); [reflexivity | exact IH].
Qed.




(** The default of [FILENAME_FORMAT] parses to the default format. *)
Lemma default_filename_format_parse :
  parse_template "{kind}-{group}-{version}" = Some default_filename_format.
Proof. reflexivity. Qed.

(** * Further properties *)

(** ** Extraction only appends *)

Ltac crunch_lookups :=
  repeat (match goal with
          | |- context [py_contains ?a ?b] =>
              destruct (py_contains a b) as [[|]|]; simpl; try reflexivity
          | |- context [py_getitem ?a ?b] =>
              destruct (py_getitem a b); simpl; try reflexivity
          end).

Lemma extract_version_appends (y version : json) (schemas : list Schema) :
  extract_version y version schemas =
  (new <- extract_version y version [] ;; Ok (schemas ++ new)).
Proof.
  unfold extract_version. crunch_lookups.
  all: now rewrite app_nil_r.
Qed.

Lemma extract_versions_appends (y : json) (versions : list json) :
  forall schemas,
  extract_versions y versions schemas =
  (new <- extract_versions y versions [] ;; Ok (schemas ++ new)).
Proof.
  induction versions as [|v versions IH]; intros schemas; simpl.
  - now rewrite app_nil_r.
  - rewrite (extract_version_appends y v schemas).
    destruct (extract_version y v []) as [new|e]; simpl; [|reflexivity].
    rewrite (IH (schemas ++ new)), (IH new).
    destruct (extract_versions y versions []) as [rest|e]; simpl; [|reflexivity].
    now rewrite app_assoc.
Qed.

Lemma extract_document_appends (y : json) (schemas : list Schema) :
  extract_document y schemas =
  (new <- extract_document y [] ;; Ok (schemas ++ new)).
Proof.
  unfold extract_document.
  destruct (py_contains y (JStr "kind")) as [[|]|]; simpl;
    try reflexivity; try now rewrite app_nil_r.
  destruct (py_getitem y "kind") as [k|]; simpl; [|reflexivity].
  destruct (py_eq k _); simpl; [|now rewrite app_nil_r].
  destruct (legacy_shape y) as [[|]|]; simpl; [| |reflexivity].
  - crunch_lookups.
  - destruct (modern_shape y) as [[|]|]; simpl;
      try reflexivity; try now rewrite app_nil_r.
    destruct (py_getitem y "spec") as [spec|]; simpl; [|reflexivity].
    destruct (py_getitem spec "versions") as [versions|]; simpl; [|reflexivity].
    destruct (py_iter versions) as [vs|]; simpl; [|reflexivity].
    apply extract_versions_appends.
Qed.

(** X1: the extraction loop only appends.  What a document, or a stream
    of documents, adds to [schemas] does not depend on the records already
    there, which stay in front, in their order; an exception raised by a
    document is the same whatever was extracted before. *)
Theorem extract_documents_appends (docs : list json) (schemas : list Schema) :
  extract_documents docs schemas =
  (new <- extract_documents docs [] ;; Ok (schemas ++ new)).
Proof.
  revert schemas. induction docs as [|y docs IH]; intros schemas; simpl.
  - now rewrite app_nil_r.
  - rewrite (extract_document_appends y schemas).
    destruct (extract_document y []) as [new|e]; simpl; [|reflexivity].
    rewrite (IH (schemas ++ new)), (IH new).
    destruct (extract_documents docs []) as [rest|e]; simpl; [|reflexivity].
    now rewrite app_assoc.
Qed.

(** ** The records of a CRD *)

Lemma is_crd_kind (d : dict) :
  is_crd d = true -> dict_get "kind" d = Some (JStr "CustomResourceDefinition").
Proof.
  unfold is_crd. destruct (dict_get "kind" d) as [[| | | s | |]|]; try discriminate.
  simpl. intros H. apply String.eqb_eq in H. now subst.
Qed.

Lemma names_and_group_ok (sp : dict) (k g : json) :
  names_and_group sp = Ok (k, g) ->
  exists names,
    dict_get "names" sp = Some (JDict names) /\
    dict_get "kind" names = Some k /\ dict_get "group" sp = Some g.
Proof.
  unfold names_and_group.
  destruct (dict_get "names" sp) as [[| | | | |names]|]; try discriminate.
  destruct (dict_get "kind" names) as [k'|] eqn:Hk; [|discriminate].
  destruct (dict_get "group" sp) as [g'|] eqn:Hg; [|discriminate].
  intros [= <- <-]. exists names. repeat split; assumption || reflexivity.
Qed.

Lemma extract_version_entry (d sp : dict) (k g entry : json)
  (r schemas : list Schema) :
  dict_get "spec" d = Some (JDict sp) ->
  names_and_group sp = Ok (k, g) ->
  entry_records k g entry = Some r ->
  extract_version (JDict d) entry schemas = Ok (schemas ++ r).
Proof.
  intros Hs Hn He. destruct (names_and_group_ok sp k g Hn) as (names & Hnm & Hk & Hg).
  unfold entry_records in He. destruct entry as [| | | | |e]; try discriminate.
  unfold extract_version. simpl. rewrite dict_get_has.
  destruct (dict_get "schema" e) as [[| | | | |schema]|]; try discriminate; simpl.
  - rewrite dict_get_has.
    destruct (dict_get "openAPIV3Schema" schema) as [body|]; simpl.
    + destruct (dict_get "name" e) as [v|]; [|discriminate].
      injection He as <-. rewrite Hs. simpl. rewrite Hnm. simpl. rewrite Hk. simpl.
      now rewrite Hg.
    + injection He as <-. now rewrite app_nil_r.
  - injection He as <-. now rewrite app_nil_r.
Qed.

Lemma entry_records_fields (k g entry : json) (r : list Schema) :
  entry_records k g entry = Some r ->
  List.length r <= 1 /\ Forall (fun s => kind s = k /\ group s = g) r.
Proof.
  unfold entry_records. destruct entry as [| | | | |e]; try discriminate.
  destruct (dict_get "schema" e) as [[| | | | |schema]|]; try discriminate.
  - destruct (dict_get "openAPIV3Schema" schema) as [body|].
    + destruct (dict_get "name" e) as [v|]; [|discriminate].
      intros [= <-]. split; [simpl; lia | repeat constructor].
    + intros [= <-]. split; [simpl; lia | constructor].
  - intros [= <-]. split; [simpl; lia | constructor].
Qed.

(** X2: a CRD in the multi-version shape, whose [spec] has [names.kind]
    and [group] and whose [versions] is a list of dicts, gives one record
    per entry that has [schema.openAPIV3Schema], in the order of the
    entries, with the entry's [name] as version.  The entries without
    [schema], or whose [schema] dict has no [openAPIV3Schema], give
    nothing; all the records carry the kind and the group of the CRD. *)
Theorem extract_document_versions
  (d sp : dict) (k g : json) (entries : list json)
  (recs : list (list Schema)) (schemas : list Schema) :
  is_crd d = true ->
  dict_get "spec" d = Some (JDict sp) ->
  no_legacy_schema sp = true ->
  dict_get "versions" sp = Some (JList entries) ->
  names_and_group sp = Ok (k, g) ->
  Forall2 (fun entry r => entry_records k g entry = Some r) entries recs ->
  extract_document (JDict d) schemas = Ok (schemas ++ List.concat recs) /\
  List.length (List.concat recs) <= List.length entries /\
  Forall (fun s => kind s = k /\ group s = g) (List.concat recs).
Proof.
  intros Hc Hs Hl Hv Hn Hr. split; [|split].
  - rewrite (extract_document_crd d schemas (is_crd_kind d Hc)).
    rewrite (legacy_shape_none d sp Hs Hl), (modern_shape_spec d sp Hs).
    rewrite dict_get_has, Hv. simpl. rewrite Hs. simpl. rewrite Hv. simpl.
    clear Hv. revert schemas.
    induction Hr as [|entry r entries recs He Hrest IH]; intros schemas; simpl.
    + now rewrite app_nil_r.
    + rewrite (extract_version_entry d sp k g entry r schemas Hs Hn He). simpl.
      rewrite IH. now rewrite app_assoc.
  - clear -Hr. induction Hr as [|entry r entries recs He Hrest IH]; simpl; [lia|].
    rewrite length_app. destruct (entry_records_fields k g entry r He). lia.
  - clear -Hr. induction Hr as [|entry r entries recs He Hrest IH]; simpl; [constructor|].
    apply Forall_app. split; [|exact IH]. now destruct (entry_records_fields k g entry r He).
Qed.

Lemma extract_document_versions_witness :
  extract_document (JDict two_versions_crd) [] =
  Ok [mkSchema (JStr "Foo") (JStr "example.com") (JStr "v1") open_node;
      mkSchema (JStr "Foo") (JStr "example.com") (JStr "v2") untyped_schema].
Proof.
  refine (proj1 (extract_document_versions two_versions_crd two_versions_spec
                   (JStr "Foo") (JStr "example.com") _
                   [[mkSchema (JStr "Foo") (JStr "example.com") (JStr "v1") open_node];
                    [];
                    [mkSchema (JStr "Foo") (JStr "example.com") (JStr "v2") untyped_schema]]
                   [] eq_refl eq_refl eq_refl eq_refl eq_refl _)).
  repeat constructor.
Defined.

(** ** The legacy shape comes first *)

Lemma extract_document_legacy (d sp validation : dict) (body : json)
  (schemas : list Schema) :
  is_crd d = true ->
  dict_get "spec" d = Some (JDict sp) ->
  dict_get "validation" sp = Some (JDict validation) ->
  dict_get "openAPIV3Schema" validation = Some body ->
  extract_document (JDict d) schemas = record_or_error sp sp "version" body schemas.
Proof.
  intros Hc Hs Hva Hb. rewrite (extract_document_crd d schemas (is_crd_kind d Hc)).
  rewrite (legacy_shape_spec d sp Hs), Hva. simpl.
  rewrite dict_get_has, Hb. simpl. rewrite Hs. simpl.
  unfold record_or_error, names_and_group.
  destruct (dict_get "names" sp) as [[| | | | |nm]|]; simpl; try reflexivity.
  destruct (dict_get "kind" nm); simpl; [|reflexivity].
  destruct (dict_get "group" sp); simpl; [|reflexivity].
  destruct (dict_get "version" sp); simpl; [|reflexivity].
  rewrite Hva. simpl. now rewrite Hb.
Qed.

(** X3: the legacy shape is tested first, and the multi-version shape
    only otherwise.  A CRD whose [spec.validation] is a dict that holds
    [openAPIV3Schema] gives the same result whatever is put under
    [spec.versions]: the single legacy record, or the [KeyError] of a
    missing legacy key; the version entries are never read. *)
Theorem extract_document_legacy_first
  (d sp validation : dict) (body versions : json) (schemas : list Schema) :
  is_crd d = true ->
  dict_get "spec" d = Some (JDict sp) ->
  dict_get "validation" sp = Some (JDict validation) ->
  dict_get "openAPIV3Schema" validation = Some body ->
  extract_document (JDict (dict_set d "spec" (JDict (dict_set sp "versions" versions))))
    schemas =
  extract_document (JDict d) schemas /\
  extract_document (JDict d) schemas = record_or_error sp sp "version" body schemas.
Proof.
  intros Hc Hs Hva Hb.
  rewrite (extract_document_legacy d sp validation body schemas Hc Hs Hva Hb).
  split; [|reflexivity].
  rewrite (extract_document_legacy (dict_set d "spec" (JDict (dict_set sp "versions" versions)))
             (dict_set sp "versions" versions) validation body schemas).
  - unfold record_or_error, names_and_group.
    now rewrite !(dict_get_set_other sp "versions") by reflexivity.
  - unfold is_crd in *. now rewrite dict_get_set_other by reflexivity.
  - apply dict_get_set_same.
  - now rewrite dict_get_set_other by reflexivity.
  - exact Hb.
Qed.

Lemma extract_document_legacy_first_witness :
  extract_document
    (JDict (dict_set legacy_crd "spec"
              (JDict (dict_set legacy_spec "versions"
                        (JList [JDict [("name", JStr "v2");
                                       ("schema", JDict [("openAPIV3Schema", untyped_schema)])]])))))
    [] =
  extract_document (JDict legacy_crd) [] /\
  extract_document (JDict legacy_crd) [] =
  Ok [mkSchema (JStr "Foo") (JStr "example.com") (JStr "v1") open_node].
Proof.
  exact (extract_document_legacy_first legacy_crd legacy_spec
           [("openAPIV3Schema", open_node)] open_node _ []
           eq_refl eq_refl eq_refl eq_refl).
Defined.

(** ** Documents that are not CRDs *)

(** X4: a document that is a dict without [kind], or whose [kind] is not
    the string [CustomResourceDefinition], is skipped, whatever else it
    holds.  A document that is no dict is not always skipped: [None] (an
    empty YAML document), a boolean or a number raises [TypeError] on the
    test ["kind" not in y]; a string or a list is skipped unless it
    contains ["kind"], and then [y["kind"]] raises [TypeError]. *)
Theorem extract_document_other_documents (y : json) (schemas : list Schema) :
  (forall d, is_crd d = false -> extract_document (JDict d) schemas = Ok schemas) /\
  (is_dict y = false ->
   extract_document y schemas =
   match y with
   | JStr s => if is_substring "kind" s then Raise TypeError else Ok schemas
   | JList xs => if existsb (py_eq (JStr "kind")) xs then Raise TypeError else Ok schemas
   | _ => Raise TypeError
   end).
Proof.
  split.
  - intros d E. unfold extract_document, is_crd in *. simpl. rewrite dict_get_has.
    destruct (dict_get "kind" d) as [k|]; simpl; [|reflexivity].
    now rewrite E.
  - destruct y as [| | | s | xs | d]; intros H; try reflexivity.
    + unfold extract_document. simpl. destruct (is_substring "kind" s); reflexivity.
    + unfold extract_document. simpl. destruct (existsb _ xs); reflexivity.
    + discriminate.
Qed.

Lemma extract_document_other_documents_witness :
  extract_document (JDict [("kind", JStr "Deployment"); ("spec", JNull)]) [] = Ok [] /\
  extract_document JNull [] = Raise TypeError.
Proof.
  split.
  - exact (proj1 (extract_document_other_documents JNull [])
             [("kind", JStr "Deployment"); ("spec", JNull)] eq_refl).
  - exact (proj2 (extract_document_other_documents JNull []) eq_refl).
Defined.

(** ** The loading loop *)

Lemma load_files_cons urlopen open_file (p : string) (paths : list string)
  (schemas : list Schema) :
  load_files urlopen open_file (p :: paths) schemas =
  (new <- file_records urlopen open_file p ;;
   load_files urlopen open_file paths (schemas ++ new)).
Proof.
  simpl. unfold file_records.
  destruct (if prefix "http" p then urlopen p else open_file p) as [[docs err]|e];
    simpl; [|reflexivity].
  rewrite (extract_documents_appends docs schemas).
  destruct (extract_documents docs []) as [new|e]; simpl; [|reflexivity].
  destruct err; reflexivity.
Qed.

Lemma load_files_appends urlopen open_file (paths : list string) :
  forall schemas,
  load_files urlopen open_file paths schemas =
  (new <- load_files urlopen open_file paths [] ;; Ok (schemas ++ new)).
Proof.
  induction paths as [|p paths IH]; intros schemas.
  - simpl. now rewrite app_nil_r.
  - rewrite !load_files_cons.
    destruct (file_records urlopen open_file p) as [new|e]; simpl; [|reflexivity].
    rewrite (IH (schemas ++ new)), (IH new).
    destruct (load_files urlopen open_file paths []) as [rest|e]; simpl; [|reflexivity].
    now rewrite app_assoc.
Qed.

(** X5: the inputs are read in the order of the arguments and each adds
    its records behind those of the inputs before it: reading [p1 ++ p2]
    is reading [p1] and then [p2], and the records of a list of inputs are
    those of its inputs, one after the other, until the first that
    raises. *)
Theorem load_files_in_order urlopen open_file (p1 p2 : list string)
  (schemas : list Schema) :
  load_files urlopen open_file (p1 ++ p2) schemas =
    (s <- load_files urlopen open_file p1 schemas ;;
     load_files urlopen open_file p2 s) /\
  load_files urlopen open_file (p1 ++ p2) [] =
    (r1 <- load_files urlopen open_file p1 [] ;;
     r2 <- load_files urlopen open_file p2 [] ;;
     Ok (r1 ++ r2)) /\
  (forall p paths,
     load_files urlopen open_file (p :: paths) [] =
     (r1 <- file_records urlopen open_file p ;;
      r2 <- load_files urlopen open_file paths [] ;;
      Ok (r1 ++ r2))).
Proof.
  assert (Happ : forall schemas,
             load_files urlopen open_file (p1 ++ p2) schemas =
             (s <- load_files urlopen open_file p1 schemas ;;
              load_files urlopen open_file p2 s)).
  { induction p1 as [|p p1 IH]; intros s0; [reflexivity|].
    rewrite <- app_comm_cons, !load_files_cons.
    destruct (file_records urlopen open_file p) as [new|e]; simpl; [|reflexivity].
    apply IH. }
  split; [apply Happ|]. split.
  - rewrite Happ.
    destruct (load_files urlopen open_file p1 []) as [r1|e]; simpl; [|reflexivity].
    apply load_files_appends.
  - intros p paths. rewrite load_files_cons.
    destruct (file_records urlopen open_file p) as [r1|e]; simpl; [|reflexivity].
    apply load_files_appends.
Qed.

(** X6: an argument that starts with [http] is passed to [urlopen] and
    never to [open], and any other argument to [open] and never to
    [urlopen]: the records depend on [urlopen] only at the arguments with
    that prefix and on [open] only at the others.  So a local file named
    [httpd.yaml] is not read from the disk. *)
Theorem load_files_dispatch
  (urlopen urlopen' open_file open_file' : string -> result (list json * option exn))
  (paths : list string) (schemas : list Schema) :
  (forall p, In p paths -> prefix "http" p = true -> urlopen p = urlopen' p) ->
  (forall p, In p paths -> prefix "http" p = false -> open_file p = open_file' p) ->
  load_files urlopen open_file paths schemas =
  load_files urlopen' open_file' paths schemas.
Proof.
  revert schemas. induction paths as [|p paths IH]; intros schemas Hu Ho; [reflexivity|].
  simpl. destruct (prefix "http" p) eqn:E.
  - rewrite <- (Hu p (or_introl eq_refl) E).
    destruct (urlopen p) as [f|e]; simpl; [|reflexivity].
    destruct (extract_documents (fst f) schemas) as [s|e]; simpl; [|reflexivity].
    destruct (snd f); simpl; [reflexivity|].
    apply IH; intros q Hq; [apply Hu | apply Ho]; now right.
  - rewrite <- (Ho p (or_introl eq_refl) E).
    destruct (open_file p) as [f|e]; simpl; [|reflexivity].
    destruct (extract_documents (fst f) schemas) as [s|e]; simpl; [|reflexivity].
    destruct (snd f); simpl; [reflexivity|].
    apply IH; intros q Hq; [apply Hu | apply Ho]; now right.
Qed.

Lemma load_files_dispatch_witness :
  load_files foo_loader no_loader ["httpd.yaml"; "https://example.com/crd.yaml"] [] =
  load_files foo_loader foo_loader ["httpd.yaml"; "https://example.com/crd.yaml"] [].
Proof.
  apply load_files_dispatch.
  - reflexivity.
  - intros p [<- | [<- | []]]; discriminate.
Defined.

(** X7: nothing is written before every input is read.  When every
    input before [p] gives its records and [p] raises [e], on opening, in
    one of its documents or at the end of its stream, the run ends with
    [e], whatever follows [p], and leaves the terminal and the working
    directory as they were. *)
Theorem main_writes_nothing_on_input_error
  urlopen open_file (fmt : option template) (str_other : json -> string)
  (lower : string -> string) (open_error : string -> option exn)
  (script p : string) (before after : list string) (e : exn) (w : world) :
  Forall (fun q => exists r, file_records urlopen open_file q = Ok r) before ->
  file_records urlopen open_file p = Raise e ->
  main urlopen open_file fmt str_other lower open_error
    (script :: before ++ p :: after) w =
  (Traceback e, w).
Proof.
  intros Hb Hp.
  assert (H : forall schemas,
             load_files urlopen open_file (before ++ p :: after) schemas = Raise e).
  { induction Hb as [|q before [r Hq] Hrest IH]; intros schemas.
    - simpl app. rewrite load_files_cons, Hp. reflexivity.
    - rewrite <- app_comm_cons, load_files_cons, Hq. simpl. apply IH. }
  unfold main. simpl. now rewrite H.
Qed.

Lemma main_writes_nothing_on_input_error_witness :
  main mixed_loader mixed_loader None no_str lower_ascii posix_open
    ["openapi2jsonschema.py"; "a.yaml"; "c.yaml"; "a.yaml"] fresh =
  (Traceback InputError, fresh).
Proof.
  apply (main_writes_nothing_on_input_error mixed_loader mixed_loader None no_str
           lower_ascii posix_open
           "openapi2jsonschema.py" "c.yaml" ["a.yaml"] ["a.yaml"] InputError fresh).
  - constructor; [|constructor]. eexists. reflexivity.
  - reflexivity.
Defined.

(** ** The summary files *)

Lemma main_completes
  urlopen open_file (fmt : option template) (str_other : json -> string)
  (lower : string -> string) (open_error : string -> option exn)
  (script : string) (paths : list string) (w : world)
  (schemas : list Schema) (names : list string) (entries : list json) :
  load_files urlopen open_file paths [] = Ok schemas ->
  Forall2 (schema_file fmt str_other lower open_error) schemas names ->
  Forall2 (fun s e => definitions_entry str_other s = Some e) schemas entries ->
  open_error "_definitions.json" = None -> open_error "all.json" = None ->
  main urlopen open_file fmt str_other lower open_error (script :: paths) w =
  (Exit 0,
   write "all.json" (JDict [("oneOf", JList (all_refs str_other schemas))])
     (open_w "all.json"
        (write "_definitions.json"
           (JDict [("definitions", JDict (definitions_of str_other schemas entries))])
           (open_w "_definitions.json"
              (snd (write_schema_files fmt str_other lower open_error schemas w)))))).
Proof.
  intros Hload Hnames Hentries Hd Ha.
  destruct (write_schema_files_run fmt str_other lower open_error schemas names Hnames w)
    as (Hfst & _).
  unfold main. simpl. rewrite Hload.
  destruct (write_schema_files fmt str_other lower open_error schemas w) as [r w'].
  simpl in Hfst. subst r. simpl. rewrite Hd.
  rewrite (build_definitions_entries str_other schemas entries Hentries []).
  rewrite Ha. now rewrite all_refs_written.
Qed.

Lemma keys_dict_set (d : dict) (k : string) (v : json) :
  keys (dict_set d k v) = if dict_has k d then keys d else keys d ++ [k].
Proof.
  induction d as [|[k' v'] d IH]; [reflexivity|].
  unfold dict_has in *. simpl. destruct (String.eqb k k'); simpl; [reflexivity|].
  rewrite IH. now destruct (existsb _ d).
Qed.

Lemma unique_dict_set (d : dict) (k : string) (v : json) :
  unique (keys d) = true -> unique (keys (dict_set d k v)) = true.
Proof.
  intros Hu. rewrite keys_dict_set. destruct (dict_has k d) eqn:E; [exact Hu|].
  apply unique_snoc; [exact Hu|]. now rewrite <- dict_has_keys.
Qed.

Lemma dict_has_set (d : dict) (k k' : string) (v : json) :
  dict_has k' (dict_set d k v) = dict_has k' d || String.eqb k' k.
Proof.
  rewrite !dict_has_keys, keys_dict_set. destruct (dict_has k d) eqn:E.
  - destruct (String.eqb k' k) eqn:Ek; [|now rewrite orb_false_r].
    apply String.eqb_eq in Ek. subst k'. rewrite <- dict_has_keys, E. reflexivity.
  - rewrite existsb_app. simpl. now rewrite orb_false_r.
Qed.

Lemma fold_set_keys {A : Type} (key : A -> string) (l : list (A * json)) :
  forall acc,
  unique (keys acc) = true ->
  unique (keys (fold_left (fun acc se => dict_set acc (key (fst se)) (snd se)) l acc)) = true /\
  (forall k,
     dict_has k (fold_left (fun acc se => dict_set acc (key (fst se)) (snd se)) l acc) =
     dict_has k acc || existsb (String.eqb k) (map (fun se => key (fst se)) l)).
Proof.
  induction l as [|[s e] l IH]; intros acc Hu; simpl.
  - split; [exact Hu|]. intros k. now rewrite orb_false_r.
  - destruct (IH (dict_set acc (key s) e) (unique_dict_set acc (key s) e Hu)) as [H1 H2].
    split; [exact H1|]. intros k. rewrite H2, dict_has_set. now rewrite orb_assoc.
Qed.

(** X8: in a run that completes, [all.json] holds under [oneOf] one
    [$ref] per record, in the order of the records, each made of
    [_definitions.json#/definitions/] and the key of its record, and the
    dict written to [_definitions.json] holds under [definitions] exactly
    the keys of the records, each once.  So the key every [$ref] names
    has an entry; two records with the same group, version and kind share
    one entry and keep two references.  The key is put in the reference
    as it is: whether a reader of JSON pointers finds the entry of a key
    that holds [/] or [~] is not said here. *)
Theorem all_refs_name_entries
  urlopen open_file (fmt : option template) (str_other : json -> string)
  (lower : string -> string) (open_error : string -> option exn)
  (script : string) (paths : list string) (w : world)
  (schemas : list Schema) (names : list string) (entries : list json) :
  load_files urlopen open_file paths [] = Ok schemas ->
  Forall2 (schema_file fmt str_other lower open_error) schemas names ->
  Forall2 (fun s e => definitions_entry str_other s = Some e) schemas entries ->
  open_error "_definitions.json" = None -> open_error "all.json" = None ->
  let w' := snd (main urlopen open_file fmt str_other lower open_error (script :: paths) w) in
  exists definitions,
    fs_read "_definitions.json" (files w') =
      Some [JDict [("definitions", JDict definitions)]] /\
    fs_read "all.json" (files w') =
      Some [JDict [("oneOf",
                    JList (map (fun s =>
                                  JDict [("$ref",
                                          JStr ("_definitions.json#/definitions/"
                                                ++ definition_key str_other s)%string)])
                               schemas))]] /\
    unique (keys definitions) = true /\
    (forall k, dict_has k definitions =
               existsb (String.eqb k) (map (definition_key str_other) schemas)) /\
    (forall s, In s schemas ->
       exists def, dict_get (definition_key str_other s) definitions = Some def).
Proof.
  intros Hload Hnames Hentries Hd Ha w'. unfold w'.
  rewrite (main_completes urlopen open_file fmt str_other lower open_error script paths w
             schemas names entries Hload Hnames Hentries Hd Ha).
  assert (Hlen : List.length schemas = List.length entries)
    by (eapply Forall2_length; eauto).
  destruct (fold_set_keys (definition_key str_other) (combine schemas entries) [] eq_refl)
    as [Hu Hk].
  rewrite combine_keys in Hk by exact Hlen.
  exists (definitions_of str_other schemas entries).
  split; [|split; [|split; [exact Hu|split; [exact Hk|]]]].
  - simpl. rewrite (fs_read_other "_definitions.json" "all.json" _ _ eq_refl).
    apply fs_read_open_write.
  - simpl. apply fs_read_open_write.
  - intros s Hin.
    assert (Hh : dict_has (definition_key str_other s)
                   (definitions_of str_other schemas entries) = true).
    { unfold definitions_of. rewrite Hk. apply existsb_eqb_In. now apply in_map. }
    rewrite dict_get_has in Hh.
    destruct (dict_get _ _) as [def|]; [now exists def | discriminate].
Qed.

Lemma all_refs_name_entries_witness :
  exists definitions,
    fs_read "_definitions.json"
      (files (snd (main foo_loader foo_loader None no_str lower_ascii posix_open
                     ["openapi2jsonschema.py"; "foo.yaml"] fresh))) =
      Some [JDict [("definitions", JDict definitions)]] /\
    fs_read "all.json"
      (files (snd (main foo_loader foo_loader None no_str lower_ascii posix_open
                     ["openapi2jsonschema.py"; "foo.yaml"] fresh))) =
      Some [JDict [("oneOf",
                    JList [JDict [("$ref",
                                   JStr "_definitions.json#/definitions/example.com.v1.Foo")]])]] /\
    exists def, dict_get "example.com.v1.Foo" definitions = Some def.
Proof.
  assert (Hn : Forall2 (schema_file None no_str lower_ascii posix_open)
                 [foo_v1] ["foo-example-v1.json"]).
  { constructor; [|constructor]. exists "foo-example-v1.json". repeat split. }
  assert (He : Forall2 (fun s e => definitions_entry no_str s = Some e)
                 [foo_v1] [foo_v1_entry]).
  { constructor; [reflexivity | constructor]. }
  destruct (all_refs_name_entries foo_loader foo_loader None no_str lower_ascii posix_open
              "openapi2jsonschema.py" ["foo.yaml"] fresh [foo_v1]
              ["foo-example-v1.json"] [foo_v1_entry] eq_refl Hn He eq_refl eq_refl)
    as (definitions & H1 & H2 & _ & _ & H5).
  exists definitions. split; [exact H1|]. split; [exact H2|].
  exact (H5 foo_v1 (or_introl eq_refl)).
Defined.

(** The loop that writes the schema files, whatever the records: it
    changes no file but those whose names it prints, and these hold no
    [/]. *)
Lemma write_schema_files_touch fmt str_other lower open_error (schemas : list Schema) :
  forall w,
  exists printed,
    stdout (snd (write_schema_files fmt str_other lower open_error schemas w)) =
      stdout w ++ printed /\
    Forall (fun n => has_slash n = false) printed /\
    (forall n, ~ In n printed ->
       fs_read n (files (snd (write_schema_files fmt str_other lower open_error schemas w))) =
       fs_read n (files w)).
Proof.
  induction schemas as [|s schemas IH]; intros w.
  - exists []. simpl. rewrite app_nil_r. repeat split; auto.
  - simpl. destruct (schema_filename fmt str_other lower s) as [filename|e].
    2: { exists []. simpl. rewrite app_nil_r. repeat split; auto. }
    unfold write_schema_file.
    destruct (open_error (basename filename)).
    { exists []. simpl. rewrite app_nil_r. repeat split; auto. }
    set (n0 := basename filename).
    set (w1 := print n0 (write n0 _ (open_w n0 w))).
    destruct (IH w1) as (printed & Hout & Hsl & Hfr).
    exists (n0 :: printed).
    destruct (write_schema_files fmt str_other lower open_error schemas w1) as [[r|e] w2];
      simpl in *.
    all: split; [rewrite Hout; unfold w1; simpl; now rewrite <- app_assoc|].
    all: split; [constructor; [now apply basename_from_no_slash | exact Hsl]|].
    all: intros n Hnot; rewrite Hfr by tauto; unfold w1; simpl;
      apply fs_read_other; apply String.eqb_neq; intros ->; apply Hnot; now left.
Qed.

(** X9: whatever its arguments and however it ends, a run changes no
    file but the files whose names it printed, [_definitions.json] and
    [all.json]; in particular it changes no file outside the working
    directory. *)
Theorem main_touches_only_its_files
  urlopen open_file (fmt : option template) (str_other : json -> string)
  (lower : string -> string) (open_error : string -> option exn)
  (argv : list string) (w : world) :
  let w' := snd (main urlopen open_file fmt str_other lower open_error argv w) in
  exists printed,
    stdout w' = stdout w ++ printed /\
    (forall n,
       existsb (String.eqb n) ("_definitions.json" :: "all.json" :: printed) = false ->
       fs_read n (files w') = fs_read n (files w)) /\
    (forall n, has_slash n = true -> fs_read n (files w') = fs_read n (files w)).
Proof.
  intros w'.
  assert (H : exists printed,
             stdout w' = stdout w ++ printed /\
             Forall (fun n => has_slash n = false) printed /\
             (forall n,
                existsb (String.eqb n) ("_definitions.json" :: "all.json" :: printed) = false ->
                fs_read n (files w') = fs_read n (files w))).
  { unfold w', main. destruct argv as [|script paths]; simpl.
    { exists ["missing file"]. repeat split; auto. }
    destruct (load_files urlopen open_file paths []) as [schemas|e]; simpl.
    2: { exists []. rewrite app_nil_r. repeat split; auto. }
    destruct (write_schema_files_touch fmt str_other lower open_error schemas w)
      as (printed & Hout & Hsl & Hfr).
    assert (Hfr' : forall n,
               existsb (String.eqb n) ("_definitions.json" :: "all.json" :: printed) = false ->
               fs_read n (files (snd (write_schema_files fmt str_other lower open_error
                                        schemas w))) = fs_read n (files w)).
    { intros n Hn. simpl in Hn. apply orb_false_iff in Hn as [_ Hn].
      apply orb_false_iff in Hn as [_ Hn]. apply Hfr.
      intros Hin. apply existsb_eqb_In in Hin. congruence. }
    exists printed.
    destruct (write_schema_files fmt str_other lower open_error schemas w) as [[r|e] w1];
      simpl in *; [|repeat split; auto].
    destruct (open_error "_definitions.json"); simpl; [repeat split; auto|].
    destruct (build_definitions str_other r []) as [definitions|e]; simpl.
    2: { split; [exact Hout|]. split; [exact Hsl|]. intros n Hn.
         rewrite <- (Hfr' n Hn). simpl in Hn. apply orb_false_iff in Hn as [Hd _].
         now apply fs_read_open_other. }
    destruct (open_error "all.json"); simpl.
    all: split; [exact Hout|]; split; [exact Hsl|]; intros n Hn;
      rewrite <- (Hfr' n Hn); simpl in Hn;
      apply orb_false_iff in Hn as [Hd Hn]; apply orb_false_iff in Hn as [Ha _].
    - now apply fs_read_other.
    - rewrite (fs_read_other n "all.json" _ _ Ha). now apply fs_read_other. }
  destruct H as (printed & Hout & Hsl & Hfr).
  exists printed. split; [exact Hout|]. split; [exact Hfr|].
  intros n Hn. apply Hfr. simpl.
  destruct (String.eqb n "_definitions.json") eqn:E1;
    [apply String.eqb_eq in E1; subst; discriminate|].
  destruct (String.eqb n "all.json") eqn:E2;
    [apply String.eqb_eq in E2; subst; discriminate|].
  simpl. destruct (existsb (String.eqb n) printed) eqn:E; [|reflexivity].
  apply existsb_eqb_In in E. rewrite Forall_forall in Hsl.
  specialize (Hsl n E). congruence.
Qed.

(** ** The names of the schema files *)

Lemma schema_filename_ok fmt str_other lower (s : Schema) (f : string) :
  schema_filename fmt str_other lower s = Ok f ->
  exists name, f = (lower name ++ ".json")%string.
Proof.
  unfold schema_filename.
  destruct (group_segment (group s)) as [g|]; simpl; [|discriminate].
  destruct (format _ _) as [name|]; simpl; [|discriminate].
  intros [= <-]. now exists name.
Qed.

Lemma string_length_app (a b : string) :
  String.length (a ++ b)%string = String.length a + String.length b.
Proof. induction a as [|c a IH]; simpl; [reflexivity | now rewrite IH]. Qed.

(** X10: whatever the format string, the record and the case mapping, the
    name under which a schema file is written holds no [/] and ends with
    [.json], so it is never empty: the loop writes in the working
    directory only, and never asks [open] for the empty name. *)
Theorem schema_file_name_shape
  (fmt : option template) (str_other : json -> string) (lower : string -> string)
  (s : Schema) (f : string) :
  schema_filename fmt str_other lower s = Ok f ->
  has_slash (basename f) = false /\
  (exists stem, basename f = (stem ++ ".json")%string) /\
  5 <= String.length (basename f).
Proof.
  intros H. destruct (schema_filename_ok fmt str_other lower s f H) as [name ->].
  unfold basename.
  assert (Hstem : basename_from (lower name ++ ".json") "" =
                  (basename_from (lower name) "" ++ ".json")%string)
    by now apply basename_from_tail.
  split; [|split].
  - now apply basename_from_no_slash.
  - now exists (basename_from (lower name) "").
  - rewrite Hstem, string_length_app. simpl. lia.
Qed.

Lemma schema_file_name_shape_witness :
  schema_filename (Some [Field "group"; Lit "/../"; Field "kind"]) no_str lower_ascii
    foo_upper = Ok "example/../foo.json" /\
  basename "example/../foo.json" = "foo.json" /\
  has_slash (basename "example/../foo.json") = false.
Proof.
  split; [reflexivity|]. split; [reflexivity|].
  exact (proj1 (schema_file_name_shape (Some [Field "group"; Lit "/../"; Field "kind"])
                  no_str lower_ascii foo_upper "example/../foo.json" eq_refl)).
Defined.

(** X11: [write_schema_file] writes in the working directory only.  When
    [open] accepts the part of [filename] after the last [/], the file of
    that name holds the schema after the two passes, the name is printed,
    and a path that holds a [/] is left as it was; when [open] refuses
    it, the call ends with the exception of [open]. *)
Theorem write_schema_file_stays_in_directory
  (open_error : string -> option exn)
  (schema : json) (filename : string) (w : world) (n : string) :
  has_slash n = true ->
  match snd (write_schema_file open_error schema filename w) with
  | Ok w' =>
      open_error (basename filename) = None /\
      fs_read n (files w') = fs_read n (files w) /\
      stdout w' = stdout w ++ [basename filename] /\
      has_slash (basename filename) = false /\
      fs_read (basename filename) (files w') =
      Some [replace_int_or_string (additional_properties schema)]
  | Raise e => open_error (basename filename) = Some e
  end.
Proof.
  intros Hn. unfold write_schema_file. simpl.
  assert (Hb : has_slash (basename filename) = false)
    by now apply basename_from_no_slash.
  destruct (open_error (basename filename)); [reflexivity|].
  split; [reflexivity|].
  split; [|split; [reflexivity|split; [exact Hb|apply fs_read_open_write]]].
  apply fs_read_other. apply String.eqb_neq. intros ->. congruence.
Qed.

Lemma write_schema_file_stays_in_directory_witness :
  (exists w',
     snd (write_schema_file posix_open open_node "../secret.json"
            (mkWorld [] [("../secret.json", [JStr "kept"])])) = Ok w' /\
     fs_read "../secret.json" (files w') = Some [JStr "kept"] /\
     fs_read "secret.json" (files w') = Some [open_node]) /\
  snd (write_schema_file posix_open open_node "a/" fresh) = Raise OSError.
Proof.
  split; [|reflexivity].
  pose proof (write_schema_file_stays_in_directory posix_open open_node "../secret.json"
                (mkWorld [] [("../secret.json", [JStr "kept"])])
                "../secret.json" eq_refl) as H.
  destruct (snd (write_schema_file posix_open open_node "../secret.json"
                   (mkWorld [] [("../secret.json", [JStr "kept"])]))) as [w'|e].
  - destruct H as (_ & H1 & _ & _ & H4). exists w'. split; [reflexivity|].
    split; [exact H1 | exact H4].
  - discriminate H.
Defined.

Lemma lower_char_dot (c : ascii) : Ascii.eqb (lower_char c) "." = Ascii.eqb c ".".
Proof. destruct c as [[] [] [] [] [] [] [] []]; reflexivity. Qed.

Lemma lower_char_ascii (c : ascii) : is_ascii_char (lower_char c) = is_ascii_char c.
Proof. destruct c as [[] [] [] [] [] [] [] []]; reflexivity. Qed.

Lemma lower_ascii_app (a b : string) :
  lower_ascii (a ++ b) = (lower_ascii a ++ lower_ascii b)%string.
Proof. induction a as [|c a IH]; simpl; [reflexivity | now rewrite IH]. Qed.

Lemma lower_ascii_first_segment (s : string) :
  lower_ascii (first_segment s) = first_segment (lower_ascii s).
Proof.
  induction s as [|c s IH]; simpl; [reflexivity|].
  rewrite lower_char_dot. destruct (Ascii.eqb c "."); simpl; [reflexivity|].
  now rewrite IH.
Qed.

Lemma is_ascii_lower (s : string) : is_ascii (lower_ascii s) = is_ascii s.
Proof.
  induction s as [|c s IH]; simpl; [reflexivity|]. now rewrite lower_char_ascii, IH.
Qed.

Lemma is_ascii_app (a b : string) : is_ascii (a ++ b) = is_ascii a && is_ascii b.
Proof.
  induction a as [|c a IH]; simpl; [reflexivity|]. now rewrite IH, andb_assoc.
Qed.

Lemma is_ascii_first_segment (s : string) :
  is_ascii s = true -> is_ascii (first_segment s) = true.
Proof.
  induction s as [|c s IH]; simpl; [reflexivity|].
  intros H. apply andb_true_iff in H as [Hc Hs].
  destruct (Ascii.eqb c "."); simpl; [reflexivity|]. now rewrite Hc, IH.
Qed.

(** Two renderings of an ASCII format string with ASCII values that
    agree up to case agree up to case, and are ASCII. *)
Lemma format_lower (tpl : template) (kw kw' : list (string * string)) :
  ascii_template tpl = true ->
  (forall name,
     match kw_get name kw, kw_get name kw' with
     | Some a, Some b => lower_ascii a = lower_ascii b /\ is_ascii a = true
     | None, None => True
     | _, _ => False
     end) ->
  match format tpl kw, format tpl kw' with
  | Ok a, Ok b => lower_ascii a = lower_ascii b /\ is_ascii a = true
  | Raise e, Raise e' => e = e'
  | _, _ => False
  end.
Proof.
  intros Ht H. induction tpl as [|[lit|field] tpl IH]; simpl; [now split| |].
  - simpl in Ht. apply andb_true_iff in Ht as [Hl Ht]. specialize (IH Ht).
    destruct (format tpl kw), (format tpl kw'); simpl; try contradiction; auto.
    destruct IH as [IH1 IH2]. rewrite !lower_ascii_app, is_ascii_app, IH1, Hl, IH2.
    now split.
  - simpl in Ht. specialize (IH Ht). destruct (positional field); [reflexivity|].
    specialize (H field).
    destruct (kw_get field kw), (kw_get field kw'); try contradiction; [|reflexivity].
    destruct H as [H1 H2].
    destruct (format tpl kw), (format tpl kw'); simpl; try contradiction; auto.
    destruct IH as [IH1 IH2]. rewrite !lower_ascii_app, is_ascii_app, H1, H2, IH1, IH2.
    now split.
Qed.

(** X12: the name of a schema file does not tell upper case from lower
    case.  [str.lower] maps the letters [A] to [Z] of an ASCII string to
    [a] to [z] and leaves its other characters, which is the first
    hypothesis.  So when the format
    string is ASCII, two records whose kind, group and version are ASCII
    strings that agree up to the case of their letters get the same file
    name, or the same exception. *)
Theorem schema_filename_ignores_case
  (fmt : option template) (str_other : json -> string) (lower : string -> string)
  (s s' : Schema) (k g v k' g' v' : string) :
  (forall x, is_ascii x = true -> lower x = lower_ascii x) ->
  ascii_template (filename_format fmt) = true ->
  kind s = JStr k -> group s = JStr g -> version s = JStr v ->
  kind s' = JStr k' -> group s' = JStr g' -> version s' = JStr v' ->
  is_ascii k = true -> is_ascii g = true -> is_ascii v = true ->
  lower_ascii k = lower_ascii k' -> lower_ascii g = lower_ascii g' ->
  lower_ascii v = lower_ascii v' ->
  schema_filename fmt str_other lower s = schema_filename fmt str_other lower s'.
Proof.
  intros Hlow Ht Hk Hg Hv Hk' Hg' Hv' Ak Ag Av Ek Eg Ev. unfold schema_filename.
  rewrite Hk, Hg, Hv, Hk', Hg', Hv'. simpl.
  assert (Hkw : forall name,
             match kw_get name [("kind", k); ("group", first_segment g); ("version", v)],
                   kw_get name [("kind", k'); ("group", first_segment g'); ("version", v')]
             with
             | Some a, Some b => lower_ascii a = lower_ascii b /\ is_ascii a = true
             | None, None => True
             | _, _ => False
             end).
  { intros name. simpl.
    destruct (String.eqb name "kind"); [now split|].
    destruct (String.eqb name "group").
    { split; [now rewrite !lower_ascii_first_segment, Eg|].
      now apply is_ascii_first_segment. }
    destruct (String.eqb name "version"); [now split | exact I]. }
  pose proof (format_lower (filename_format fmt) _ _ Ht Hkw) as H.
  destruct (format _ _) as [a|e], (format _ _) as [b|e']; simpl;
    try contradiction; [|now rewrite H].
  destruct H as [H Ha].
  assert (Hb : is_ascii b = true) by now rewrite <- is_ascii_lower, <- H, is_ascii_lower.
  now rewrite (Hlow a Ha), (Hlow b Hb), H.
Qed.

Lemma schema_filename_ignores_case_witness :
  schema_filename None no_str lower_ascii foo_v1 =
  schema_filename None no_str lower_ascii foo_upper /\
  schema_filename None no_str lower_ascii foo_upper = Ok "foo-example-v1.json".
Proof.
  split; [|reflexivity].
  exact (schema_filename_ignores_case None no_str lower_ascii foo_v1 foo_upper
           "Foo" "example.com" "v1" "FOO" "Example.com" "V1"
           (fun x _ => eq_refl) eq_refl
           eq_refl eq_refl eq_refl eq_refl eq_refl eq_refl eq_refl eq_refl eq_refl
           eq_refl eq_refl eq_refl).
Defined.

(** ** The two passes of the write path together *)

Lemma is_str_close_value (f : json) (s : string) :
  is_str (close_value f) s = is_str f s.
Proof. now destruct f. Qed.

Lemma dict_has_map_values (g : json -> json) (k : string) (d : dict) :
  dict_has k (map (fun kv => (fst kv, g (snd kv))) d) = dict_has k d.
Proof. now rewrite !dict_has_keys, keys_map. Qed.

Lemma closes_map_values (g : json -> json) (d : dict) :
  closes (map (fun kv => (fst kv, g (snd kv))) d) = closes d.
Proof. unfold closes. now rewrite !dict_has_map_values. Qed.

Lemma is_int_or_string_closed (vd : dict) :
  is_int_or_string
    (map (fun kv => (fst kv, close_value (snd kv))) vd
     ++ (if closes vd then [("additionalProperties", JBool false)] else [])) =
  is_int_or_string vd.
Proof.
  unfold is_int_or_string. rewrite dict_get_app, dict_get_map.
  destruct (dict_get "format" vd) as [f|]; simpl; [apply is_str_close_value|].
  destruct (closes vd); reflexivity.
Qed.

Lemma close_value_dict (vd : dict) :
  close_value (JDict vd) =
  JDict (map (fun kv => (fst kv, close_value (snd kv))) vd
         ++ (if closes vd then [("additionalProperties", JBool false)] else [])).
Proof. reflexivity. Qed.

Lemma close_widen_commute (v : json) :
  wf v = true -> close_value (widen_value v) = widen_value (close_value v).
Proof.
  induction v as [| | | | xs _ | vd IH] using json_ind; intros Hwf; try reflexivity.
  pose proof (wf_close_value (JDict vd) Hwf) as Hwc.
  rewrite close_value_dict in *. apply wf_dict in Hwc as [Huc _].
  apply wf_dict in Hwf as [Hu Hf].
  unfold widen_value at 2. rewrite is_int_or_string_closed.
  unfold widen_value at 1. destruct (is_int_or_string vd) eqn:E; [reflexivity|].
  rewrite (replace_int_or_string_dict vd Hu), (replace_int_or_string_dict _ Huc).
  rewrite close_value_dict, closes_map_values, map_app, !map_map.
  f_equal. f_equal.
  - apply map_ext_Forall. rewrite Forall_forall in *. intros kv Hin. simpl.
    f_equal. apply IH; auto.
  - destruct (closes vd); reflexivity.
Qed.

Lemma close_then_widen (t : json) :
  wf t = true ->
  replace_int_or_string (additional_properties t) =
  additional_properties (replace_int_or_string t).
Proof.
  intros Hwf.
  rewrite (additional_properties_spec t Hwf).
  rewrite (additional_properties_spec _ (proj2 (wf_widen t Hwf))).
  destruct t as [| | | | xs | d]; try reflexivity.
  pose proof (wf_close_root (JDict d) Hwf) as Hwc. simpl in Hwc.
  apply andb_true_iff in Hwc as [Huc _].
  apply wf_dict in Hwf as [Hu Hf].
  rewrite (replace_int_or_string_dict d Hu).
  simpl close_root. rewrite (replace_int_or_string_dict _ Huc), !map_map.
  f_equal. apply map_ext_Forall. rewrite Forall_forall in *. intros kv Hin. simpl.
  f_equal. symmetry. apply close_widen_commute. auto.
Qed.

(** X13: the two passes of the write path commute: on a well-formed tree,
    closing and then widening returns the same tree as widening and then
    closing. *)
Theorem write_passes_commute (t : json) :
  wf t = true ->
  replace_int_or_string (additional_properties t) =
  additional_properties (replace_int_or_string t).
Proof. exact (close_then_widen t). Qed.

Lemma write_passes_commute_witness :
  replace_int_or_string (additional_properties sample_schema) =
  additional_properties (replace_int_or_string sample_schema).
Proof. exact (write_passes_commute sample_schema eq_refl). Defined.

(** ** What the passes leave behind *)

Lemma subtree_scalar (v : json) (path : list string) (d : dict) :
  is_scalar v = true -> subtree v path = Some (JDict d) -> False.
Proof.
  destruct path as [|k path]; destruct v; simpl; intros Hs H; discriminate.
Qed.

Lemma dict_get_in (k : string) (v : json) (d : dict) :
  dict_get k d = Some v -> In (k, v) d.
Proof.
  induction d as [|[k' v'] d IH]; simpl; [discriminate|].
  destruct (String.eqb k k') eqn:E.
  - intros [= ->]. apply String.eqb_eq in E. subst. now left.
  - intros H. right. now apply IH.
Qed.

Lemma wf_entry (k : string) (v : json) (d : dict) :
  wf (JDict d) = true -> dict_get k d = Some v -> wf v = true.
Proof.
  intros Hwf Hk. apply wf_dict in Hwf as [_ Hf]. rewrite Forall_forall in Hf.
  apply (Hf (k, v)). now apply dict_get_in.
Qed.

Lemma close_value_closed (path : list string) :
  forall v d',
  subtree (close_value v) path = Some (JDict d') -> closes d' = false.
Proof.
  induction path as [|k path IH]; intros v d' H.
  - destruct v as [| | | | xs | vd]; simpl in H; try discriminate.
    injection H as <-. apply closes_close_value.
  - destruct v as [| | | | xs | vd]; try discriminate.
    rewrite close_value_dict in H. simpl in H.
    rewrite dict_get_app, dict_get_map in H.
    destruct (dict_get k vd) as [x|]; simpl in H; [now apply (IH x)|].
    destruct (closes vd); simpl in H; [|discriminate].
    destruct (String.eqb k "additionalProperties"); [|discriminate].
    exfalso. now apply (subtree_scalar (JBool false) path d').
Qed.

Lemma additional_properties_closed (t : json) (path : list string) (d' : dict) :
  wf t = true ->
  is_root path = false ->
  subtree (additional_properties t) path = Some (JDict d') ->
  closes d' = false.
Proof.
  intros Hwf Hp. rewrite (additional_properties_spec t Hwf).
  destruct path as [|k path]; [discriminate|].
  destruct t as [| | | | xs | d]; try discriminate.
  simpl. rewrite dict_get_map.
  destruct (dict_get k d) as [x|]; simpl; [|discriminate].
  apply close_value_closed.
Qed.

(** X14: in the tree returned by the close-by-default pass, no dict
    reached from the root through keys, the root apart, declares
    [properties] without [additionalProperties]. *)
Theorem additional_properties_leaves_none_open
  (t : json) (path : list string) (d' : dict) :
  wf t = true ->
  is_root path = false ->
  subtree (additional_properties t) path = Some (JDict d') ->
  closes d' = false.
Proof. exact (additional_properties_closed t path d'). Qed.

Lemma additional_properties_leaves_none_open_witness :
  closes [("type", JStr "object");
          ("properties", JDict [("port", JDict [("format", JStr "int-or-string");
                                                ("description", JStr "a port")]);
                                ("ports", JDict [("type", JStr "array");
                                                 ("items", JList [JDict [("format", JStr "int-or-string")]])])]);
          ("additionalProperties", JBool false)] = false.
Proof.
  exact (additional_properties_leaves_none_open sample_schema ["properties"; "spec"] _
           eq_refl eq_refl eq_refl).
Defined.

Lemma widen_value_widened (path : list string) :
  forall v d',
  wf v = true ->
  subtree (widen_value v) path = Some (JDict d') -> is_int_or_string d' = false.
Proof.
  induction path as [|k path IH]; intros v d' Hwf H.
  - cbn [subtree] in H.
    destruct v as [| | | | xs | vd]; try discriminate.
    pose proof Hwf as Hwf'. apply wf_dict in Hwf' as [Hu _]. unfold widen_value in H.
    destruct (is_int_or_string vd) eqn:E.
    + injection H as <-. reflexivity.
    + rewrite (replace_int_or_string_dict vd Hu) in H. injection H as <-.
      now rewrite is_int_or_string_map.
  - destruct v as [| | | | xs | vd]; try discriminate.
    pose proof Hwf as Hwf'. apply wf_dict in Hwf' as [Hu _]. unfold widen_value in H.
    destruct (is_int_or_string vd) eqn:E.
    + simpl in H. destruct (String.eqb k "oneOf"); [|discriminate].
      destruct path; discriminate.
    + rewrite (replace_int_or_string_dict vd Hu) in H. cbn [subtree] in H.
      rewrite dict_get_map in H.
      destruct (dict_get k vd) as [x|] eqn:Hk; simpl in H; [|discriminate].
      apply (IH x d'); [|exact H]. exact (wf_entry k x vd Hwf Hk).
Qed.

Lemma replace_int_or_string_widened (t : json) (path : list string) (d' : dict) :
  wf t = true ->
  is_root path = false ->
  subtree (replace_int_or_string t) path = Some (JDict d') ->
  is_int_or_string d' = false.
Proof.
  intros Hwf Hp H. destruct path as [|k path]; [discriminate|].
  destruct t as [| | | | xs | d]; try discriminate.
  pose proof Hwf as Hwf'. apply wf_dict in Hwf' as [Hu _].
  rewrite (replace_int_or_string_dict d Hu) in H. cbn [subtree] in H.
  rewrite dict_get_map in H.
  destruct (dict_get k d) as [x|] eqn:Hk; simpl in H; [|discriminate].
  apply (widen_value_widened path x d'); [|exact H]. exact (wf_entry k x d Hwf Hk).
Qed.

(** X15: in the tree returned by the int-or-string pass, no dict reached
    from the root through keys, the root apart, has the format
    ["int-or-string"]. *)
Theorem replace_int_or_string_leaves_none
  (t : json) (path : list string) (d' : dict) :
  wf t = true ->
  is_root path = false ->
  subtree (replace_int_or_string t) path = Some (JDict d') ->
  is_int_or_string d' = false.
Proof. exact (replace_int_or_string_widened t path d'). Qed.

Lemma replace_int_or_string_leaves_none_witness :
  is_int_or_string
    [("oneOf", JList [JDict [("type", JStr "string")]; JDict [("type", JStr "integer")]])]
  = false.
Proof.
  exact (replace_int_or_string_leaves_none sample_schema
           ["properties"; "spec"; "properties"; "port"] _ eq_refl eq_refl eq_refl).
Defined.

(** X16: the document [write_schema_file] writes has both properties:
    below its root, no dict reached through keys declares [properties]
    without [additionalProperties], and none has the format
    ["int-or-string"]. *)
Theorem written_schema_closed_and_widened
  (open_error : string -> option exn)
  (schema : json) (filename : string) (w w' : world)
  (doc : json) (path : list string) (d' : dict) :
  wf schema = true ->
  is_root path = false ->
  snd (write_schema_file open_error schema filename w) = Ok w' ->
  fs_read (basename filename) (files w') = Some [doc] ->
  subtree doc path = Some (JDict d') ->
  closes d' = false /\ is_int_or_string d' = false.
Proof.
  intros Hwf Hp Hw Hread H.
  assert (Hdoc : doc = replace_int_or_string (additional_properties schema)).
  { unfold write_schema_file in Hw. simpl in Hw.
    destruct (open_error (basename filename)); [discriminate|].
    injection Hw as <-. simpl in Hread. rewrite fs_read_open_write in Hread.
    now injection Hread. }
  subst doc. split.
  - rewrite (close_then_widen schema Hwf) in H.
    exact (additional_properties_closed _ path d' (proj2 (wf_widen schema Hwf)) Hp H).
  - apply (replace_int_or_string_widened (additional_properties schema) path d'); auto.
    rewrite (additional_properties_spec schema Hwf). now apply wf_close_root.
Qed.

Lemma written_schema_closed_and_widened_witness :
  closes [("type", JStr "object");
          ("properties",
           JDict [("port", int_or_string_schema);
                  ("ports",
                   JDict [("type", JStr "array");
                          ("items", JList [JDict [("format", JStr "int-or-string")]])])]);
          ("additionalProperties", JBool false)] = false /\
  is_int_or_string
    [("type", JStr "object");
     ("properties",
      JDict [("port", int_or_string_schema);
             ("ports",
              JDict [("type", JStr "array");
                     ("items", JList [JDict [("format", JStr "int-or-string")]])])]);
     ("additionalProperties", JBool false)] = false.
Proof.
  exact (written_schema_closed_and_widened posix_open sample_schema "foo-example-v1.json"
           fresh _ _ ["properties"; "spec"] _ eq_refl eq_refl eq_refl eq_refl eq_refl).
Defined.

(** X17: [write_schema_file] changes the tree it is given: when it
    returns, the caller's tree is equal to the tree the close-by-default
    pass returned, and a second call on it changes it no more.  The
    int-or-string pass works on the returned tree and leaves the caller's
    as the first pass made it. *)
Theorem write_schema_file_marks_argument
  (open_error : string -> option exn)
  (schema : json) (filename : string) (w : world) :
  wf schema = true ->
  fst (write_schema_file open_error schema filename w) = additional_properties schema /\
  fst (write_schema_file open_error
         (fst (write_schema_file open_error schema filename w)) filename w) =
  fst (write_schema_file open_error schema filename w) /\
  (is_dict schema = false ->
   fst (write_schema_file open_error schema filename w) = schema).
Proof.
  intros Hwf. simpl.
  rewrite (additional_properties_arg_spec schema Hwf).
  rewrite (additional_properties_arg_spec _ (wf_close_root schema Hwf)).
  rewrite (additional_properties_spec schema Hwf).
  split; [reflexivity|]. split; [apply close_root_idem|].
  destruct schema; try reflexivity. discriminate.
Qed.

Lemma write_schema_file_marks_argument_witness :
  fst (write_schema_file posix_open sample_schema "foo-example-v1.json" fresh) =
  additional_properties sample_schema.
Proof.
  exact (proj1 (write_schema_file_marks_argument posix_open sample_schema
                  "foo-example-v1.json" fresh eq_refl)).
Defined.

(** ** Appending to something that is no list *)

(** X18: [append_no_duplicates] never adds to anything but a list.  On an
    object that is no dict it raises [TypeError].  On a dict whose [key]
    holds a value that is no list, it returns the dict as it is when
    Python's [in] finds [value] there (a substring of a string, a key of
    a dict), raises [AttributeError] when it does not, and [TypeError]
    when the test itself is not defined. *)
Theorem append_no_duplicates_needs_list
  (obj : json) (d : dict) (key : string) (x value : json) :
  (is_dict obj = false -> append_no_duplicates obj key value = Raise TypeError) /\
  (dict_get key d = Some x -> is_list x = false ->
   append_no_duplicates (JDict d) key value =
   match py_contains x value with
   | Ok true => Ok (JDict d)
   | Ok false => Raise AttributeError
   | Raise e => Raise e
   end).
Proof.
  split.
  - unfold append_no_duplicates.
    destruct obj as [| | | s | xs | items]; simpl; intros H; try reflexivity.
    + destruct (is_substring key s); reflexivity.
    + destruct (existsb _ xs); reflexivity.
    + discriminate.
  - intros Hk Hl. unfold append_no_duplicates. simpl.
    rewrite dict_get_has, Hk. simpl. rewrite Hk. simpl.
    destruct (py_contains x value) as [[|]|e]; simpl; try reflexivity.
    destruct x; try reflexivity. discriminate.
Qed.

Lemma append_no_duplicates_needs_list_witness :
  append_no_duplicates (JDict [("enum", JStr "Foo, Bar")]) "enum" (JStr "Foo") =
  Ok (JDict [("enum", JStr "Foo, Bar")]) /\
  append_no_duplicates (JDict [("enum", JStr "Foo, Bar")]) "enum" (JStr "Baz") =
  Raise AttributeError /\
  append_no_duplicates (JList [JStr "enum"]) "enum" (JStr "Foo") = Raise TypeError.
Proof.
  split; [|split].
  - exact (proj2 (append_no_duplicates_needs_list JNull [("enum", JStr "Foo, Bar")]
                    "enum" (JStr "Foo, Bar") (JStr "Foo")) eq_refl eq_refl).
  - exact (proj2 (append_no_duplicates_needs_list JNull [("enum", JStr "Foo, Bar")]
                    "enum" (JStr "Foo, Bar") (JStr "Baz")) eq_refl eq_refl).
  - exact (proj1 (append_no_duplicates_needs_list (JList [JStr "enum"]) []
                    "enum" JNull (JStr "Foo")) eq_refl).
Defined.

(** ** A schema file that cannot be written *)

(** X19: the loop that writes the schema files stops at the first record
    whose file cannot be written: its file name cannot be made (its group
    is no string, which raises [AttributeError] before the format string
    is read, or [str.format] raises), or [open] refuses the name.  The
    files of the records before it are written and printed, no other file
    is changed, and the run ends there with that exception:
    [_definitions.json] and [all.json] are not opened. *)
Theorem write_schema_files_stops
  urlopen open_file (fmt : option template) (str_other : json -> string)
  (lower : string -> string) (open_error : string -> option exn)
  (script : string) (paths : list string) (w : world)
  (before after : list Schema) (names : list string) (s : Schema) (e : exn) :
  load_files urlopen open_file paths [] = Ok (before ++ s :: after) ->
  Forall2 (schema_file fmt str_other lower open_error) before names ->
  (schema_filename fmt str_other lower s = Raise e \/
   exists f, schema_filename fmt str_other lower s = Ok f /\
             open_error (basename f) = Some e) ->
  let w1 := snd (write_schema_files fmt str_other lower open_error before w) in
  write_schema_files fmt str_other lower open_error (before ++ s :: after) w =
    (Raise e, w1) /\
  main urlopen open_file fmt str_other lower open_error (script :: paths) w =
    (Traceback e, w1) /\
  stdout w1 = stdout w ++ names /\
  (forall n, ~ In n names -> fs_read n (files w1) = fs_read n (files w)) /\
  match group s with
  | JStr _ => True
  | _ => e = AttributeError
  end.
Proof.
  intros Hload Hnames He.
  assert (Hs : forall w0,
             write_schema_files fmt str_other lower open_error (s :: after) w0 =
             (Raise e, w0)).
  { intros w0. simpl. destruct He as [He | (f & Hf & Ho)].
    - now rewrite He.
    - rewrite Hf. unfold write_schema_file. now rewrite Ho. }
  assert (Hw : forall w0,
             write_schema_files fmt str_other lower open_error (before ++ s :: after) w0 =
             (Raise e, snd (write_schema_files fmt str_other lower open_error before w0))).
  { clear Hload.
    induction Hnames as [|s0 n0 before names H0 Hrest IH]; intros w0.
    - simpl app. rewrite Hs. reflexivity.
    - destruct H0 as (filename & Hf & Hb & Ho).
      rewrite <- Hb in Ho.
      simpl. rewrite Hf. unfold write_schema_file. rewrite Ho. rewrite IH.
      destruct (write_schema_files fmt str_other lower open_error before _)
        as [[r|e'] w2]; reflexivity. }
  intros w1. split; [apply Hw|]. split; [|split; [|split]].
  - unfold main. simpl. rewrite Hload, Hw. reflexivity.
  - now destruct (write_schema_files_run fmt str_other lower open_error before names
                    Hnames w) as (_ & H & _).
  - now destruct (write_schema_files_run fmt str_other lower open_error before names
                    Hnames w) as (_ & _ & H & _).
  - unfold schema_filename in He.
    destruct (group s); simpl in He; try exact I;
      destruct He as [He | (f & Hf & _)]; congruence.
Qed.

Lemma write_schema_files_stops_witness :
  load_files foo_then_numbered foo_then_numbered ["crds.yaml"] [] =
  Ok [foo_v1; numbered_v1] /\
  main foo_then_numbered foo_then_numbered None no_str lower_ascii posix_open
    ["openapi2jsonschema.py"; "crds.yaml"] fresh =
  (Traceback AttributeError,
   snd (write_schema_files None no_str lower_ascii posix_open [foo_v1] fresh)) /\
  fs_read "_definitions.json"
    (files (snd (write_schema_files None no_str lower_ascii posix_open [foo_v1] fresh))) =
  None /\
  main foo_loader foo_loader (Some [Field "kind"; Lit (String zero "")]) no_str
    lower_ascii posix_open ["openapi2jsonschema.py"; "foo.yaml"] fresh =
  (Traceback ValueError, fresh).
Proof.
  assert (Hn : Forall2 (schema_file None no_str lower_ascii posix_open)
                 [foo_v1] ["foo-example-v1.json"]).
  { constructor; [|constructor]. exists "foo-example-v1.json". repeat split. }
  split; [reflexivity|]. split; [|split; [reflexivity|]].
  - exact (proj1 (proj2 (write_schema_files_stops foo_then_numbered foo_then_numbered
                           None no_str lower_ascii posix_open
                           "openapi2jsonschema.py" ["crds.yaml"] fresh
                           [foo_v1] [] ["foo-example-v1.json"] numbered_v1 AttributeError
                           eq_refl Hn (or_introl eq_refl)))).
  - exact (proj1 (proj2 (write_schema_files_stops foo_loader foo_loader
                           (Some [Field "kind"; Lit (String zero "")]) no_str
                           lower_ascii posix_open
                           "openapi2jsonschema.py" ["foo.yaml"] fresh
                           [] [] [] foo_v1 ValueError
                           eq_refl (Forall2_nil _)
                           (or_intror (ex_intro _ (String "f" (String "o" (String "o"
                                         (String zero ".json"))))
                                         (conj eq_refl eq_refl)))))).
Defined.

(** ** The definitions step on one definition *)

Lemma append_no_duplicates_shape (obj : json) (key : string) (value r : json) :
  append_no_duplicates obj key value = Ok r ->
  exists d,
    obj = JDict d /\
    (r = JDict d \/
     exists l, list_at key d = Some l /\
               r = JDict (dict_set d key (JList (with_value l value)))).
Proof.
  destruct obj as [| | | s | xs | d].
  1-5: unfold append_no_duplicates; simpl; try discriminate.
  - destruct (is_substring key s); discriminate.
  - destruct (existsb _ xs); discriminate.
  - intros H. exists d. split; [reflexivity|].
    destruct (list_at key d) as [l|] eqn:El.
    + right. exists l. split; [reflexivity|].
      rewrite (append_no_duplicates_once d key value l El) in H. now injection H.
    + left. unfold list_at in El.
      destruct (dict_get key d) as [x|] eqn:Ek; [|discriminate].
      unfold append_no_duplicates in H. simpl in H.
      rewrite dict_get_has, Ek in H. simpl in H. rewrite Ek in H. simpl in H.
      destruct (py_contains x value) as [[|]|]; simpl in H; try discriminate.
      * now injection H.
      * destruct x; simpl in H; discriminate.
Qed.

Lemma with_value_idem (l : list json) (value : json) :
  py_eq value value = true ->
  with_value (with_value l value) value = with_value l value.
Proof.
  intros Hr. unfold with_value at 1.
  assert (existsb (py_eq value) (with_value l value) = true) as ->; [|reflexivity].
  unfold with_value. destruct (existsb (py_eq value) l) eqn:E; [exact E|].
  now apply existsb_snoc_self.
Qed.

Lemma append_no_duplicates_again (obj : json) (key : string) (value r : json) :
  wf value = true ->
  append_no_duplicates obj key value = Ok r ->
  append_no_duplicates r key value = Ok r.
Proof.
  intros Hwf H.
  destruct (append_no_duplicates_shape obj key value r H) as (d & -> & [-> | (l & Hl & ->)]).
  - exact H.
  - rewrite (append_no_duplicates_once _ key value _ (list_at_set d key _)).
    now rewrite dict_set_set, (with_value_idem l value (py_eq_refl value Hwf)).
Qed.

Lemma add_enum_shape (def : json) (field : string) (value r : json) :
  add_enum def field value = Ok r ->
  exists d p target target',
    def = JDict d /\ dict_get "properties" d = Some (JDict p) /\
    dict_get field p = Some target /\
    append_no_duplicates target "enum" value = Ok target' /\
    r = JDict (dict_set d "properties" (JDict (dict_set p field target'))).
Proof.
  unfold add_enum. destruct def as [| | | | |d]; simpl; try discriminate.
  destruct (dict_get "properties" d) as [[| | | | |p]|] eqn:Hp; simpl; try discriminate.
  destruct (dict_get field p) as [target|] eqn:Hf; simpl; [|discriminate].
  destruct (append_no_duplicates target "enum" value) as [target'|] eqn:Ha;
    simpl; [|discriminate].
  intros [= <-]. exists d, p, target, target'. repeat split; assumption || reflexivity.
Qed.

(** X20: the step that adds a value to [properties.field.enum] of a
    definition is idempotent: when it succeeds, doing it again on the
    definition it left, with the same value, succeeds and changes
    nothing. *)
Theorem add_enum_idempotent (def : json) (field : string) (value r : json) :
  wf value = true ->
  add_enum def field value = Ok r ->
  add_enum r field value = Ok r.
Proof.
  intros Hwf H.
  destruct (add_enum_shape def field value r H)
    as (d & p & target & target' & -> & Hp & Hf & Ha & ->).
  unfold add_enum. simpl. rewrite dict_get_set_same. simpl.
  rewrite dict_get_set_same. simpl.
  rewrite (append_no_duplicates_again target "enum" value target' Hwf Ha). simpl.
  now rewrite !dict_set_set.
Qed.

Lemma add_enum_idempotent_witness :
  add_enum sample_schema "kind" (JStr "Foo") =
  Ok (set_path sample_schema ["properties"; "kind"; "enum"] (JList [JStr "Foo"])) /\
  add_enum (set_path sample_schema ["properties"; "kind"; "enum"] (JList [JStr "Foo"]))
    "kind" (JStr "Foo") =
  Ok (set_path sample_schema ["properties"; "kind"; "enum"] (JList [JStr "Foo"])).
Proof.
  split; [reflexivity|].
  exact (add_enum_idempotent sample_schema "kind" (JStr "Foo") _ eq_refl eq_refl).
Defined.

(** The step on the value of a definition changes nothing but
    [properties.field.enum]. *)
Lemma add_enum_frame_all (def : json) (field : string) (value r : json) :
  add_enum def field value = Ok r ->
  (exists d d', def = JDict d /\ r = JDict d' /\ keys d' = keys d) /\
  (forall k, String.eqb k "properties" = false -> subtree r [k] = subtree def [k]) /\
  (forall k, String.eqb k field = false ->
     subtree r ["properties"; k] = subtree def ["properties"; k]) /\
  (forall k, String.eqb k "enum" = false ->
     subtree r ["properties"; field; k] = subtree def ["properties"; field; k]).
Proof.
  intros H.
  destruct (add_enum_shape def field value r H)
    as (d & p & target & target' & -> & Hp & Hf & Ha & ->).
  split; [|split; [|split]].
  - exists d, (dict_set d "properties" (JDict (dict_set p field target'))).
    repeat split. rewrite keys_dict_set, dict_get_has, Hp. reflexivity.
  - intros k Hk. simpl. now rewrite (dict_get_set_other d "properties" k _ Hk).
  - intros k Hk. simpl. rewrite dict_get_set_same, Hp.
    now rewrite (dict_get_set_other p field k _ Hk).
  - intros k Hk. simpl. rewrite dict_get_set_same, Hp, dict_get_set_same, Hf.
    destruct (append_no_duplicates_shape target "enum" value target' Ha)
      as (t & -> & [-> | (l & Hl & ->)]); [reflexivity|].
    now rewrite (dict_get_set_other t "enum" k _ Hk).
Qed.

(** X21: the step that adds a value to [properties.field.enum] of the
    record at place [k] changes nothing else, when no object occurs
    twice in the definitions.  The definitions of the other records are
    as they were.  The definition of the record is a dict with the keys
    it had; what it holds under a key other than [properties], what
    [properties] holds under a key other than [field], and what
    [properties.field] holds under a key other than [enum] are as they
    were. *)
Theorem add_enum_changes_only_enum
  (st st' : store) (k : nat) (field value : string) :
  unshared st -> k < List.length st ->
  add_enum_in_place st k field value = Ok st' ->
  List.length st' = List.length st /\
  (forall j, Nat.eqb j k = false -> nth j st' ONull = nth j st ONull) /\
  (exists d d',
     erase (nth k st ONull) = JDict d /\ erase (nth k st' ONull) = JDict d' /\
     keys d' = keys d) /\
  (forall key, String.eqb key "properties" = false ->
     subtree (erase (nth k st' ONull)) [key] = subtree (erase (nth k st ONull)) [key]) /\
  (forall key, String.eqb key field = false ->
     subtree (erase (nth k st' ONull)) ["properties"; key] =
     subtree (erase (nth k st ONull)) ["properties"; key]) /\
  (forall key, String.eqb key "enum" = false ->
     subtree (erase (nth k st' ONull)) ["properties"; field; key] =
     subtree (erase (nth k st ONull)) ["properties"; field; key]).
Proof.
  intros Hnd Hk Hrun.
  pose proof (add_enum_in_place_tree st k field value Hnd Hk) as H.
  destruct (add_enum (erase (nth k st ONull)) field (JStr value)) as [t'|e] eqn:Ht;
    [|congruence].
  destruct H as (root' & Hrun' & Her & _).
  rewrite Hrun in Hrun'. injection Hrun' as ->.
  split; [apply put_length|]. split.
  - intros j Hj. rewrite put_nth by exact Hk. now rewrite Hj.
  - rewrite put_nth, Nat.eqb_refl, Her by exact Hk.
    exact (add_enum_frame_all _ field (JStr value) t' Ht).
Qed.

Lemma add_enum_changes_only_enum_witness :
  distinct (flat_map ids copied_store) = true /\
  exists st',
    add_enum_in_place copied_store 1 "kind" "Foo" = Ok st' /\
    nth 0 st' ONull = nth 0 copied_store ONull /\
    subtree (erase (nth 1 st' ONull)) ["properties"; "kind"; "type"] = Some (JStr "string") /\
    subtree (erase (nth 1 st' ONull)) ["properties"; "kind"; "enum"] =
    Some (JList [JStr "Foo"]).
Proof.
  split; [reflexivity|].
  destruct (add_enum_in_place copied_store 1 "kind" "Foo") as [st'|e] eqn:Hrun;
    [|discriminate Hrun].
  destruct (add_enum_changes_only_enum copied_store st' 1 "kind" "Foo"
              (distinct_NoDup (flat_map ids copied_store) eq_refl)
              (le_n 2) Hrun) as (_ & H0 & _ & _ & _ & H4).
  exists st'. split; [reflexivity|]. split; [exact (H0 0 eq_refl)|].
  assert (E : st' = match add_enum_in_place copied_store 1 "kind" "Foo" with
                    | Ok x => x
                    | Raise _ => []
                    end) by now rewrite Hrun.
  split.
  - rewrite (H4 "type" eq_refl). reflexivity.
  - rewrite E. reflexivity.
Defined.

(** ** The loop on trees and the loop in place *)

Lemma label_each_spec (xs : list json) :
  Forall (fun x => forall n,
            erase (fst (label x n)) = x /\ n <= snd (label x n) /\
            ids (fst (label x n)) = seq n (snd (label x n) - n)) xs ->
  forall n,
    map erase (fst (label_each label xs n)) = xs /\
    n <= snd (label_each label xs n) /\
    flat_map ids (fst (label_each label xs n)) = seq n (snd (label_each label xs n) - n).
Proof.
  induction 1 as [|x xs Hx Hrest IH]; intros n; simpl.
  - rewrite Nat.sub_diag. repeat split; auto.
  - destruct (Hx n) as (H1 & H2 & H3). destruct (label x n) as [o n1]. simpl in *.
    destruct (IH n1) as (G1 & G2 & G3). destruct (label_each label xs n1) as [os n2].
    simpl in *. split; [now rewrite H1, G1|]. split; [lia|].
    rewrite H3, G3. replace (n2 - n) with ((n1 - n) + (n2 - n1)) by lia.
    rewrite seq_app. do 2 f_equal. lia.
Qed.

Lemma label_items_spec (items : dict) :
  Forall (fun kv => forall n,
            erase (fst (label (snd kv) n)) = snd kv /\ n <= snd (label (snd kv) n) /\
            ids (fst (label (snd kv) n)) = seq n (snd (label (snd kv) n) - n)) items ->
  forall n,
    map (fun kv => (fst kv, erase (snd kv))) (fst (label_items label items n)) = items /\
    n <= snd (label_items label items n) /\
    flat_map (fun kv => ids (snd kv)) (fst (label_items label items n)) =
    seq n (snd (label_items label items n) - n).
Proof.
  induction 1 as [|[k x] items Hx Hrest IH]; intros n; simpl.
  - rewrite Nat.sub_diag. repeat split; auto.
  - destruct (Hx n) as (H1 & H2 & H3). simpl in *. destruct (label x n) as [o n1].
    simpl in *.
    destruct (IH n1) as (G1 & G2 & G3). destruct (label_items label items n1) as [os n2].
    simpl in *. split; [now rewrite H1, G1|]. split; [lia|].
    rewrite H3, G3. replace (n2 - n) with ((n1 - n) + (n2 - n1)) by lia.
    rewrite seq_app. do 2 f_equal. lia.
Qed.

(** [label] gives an object whose value is the tree and whose lists and
    dicts have the identities from [n] on, each once. *)
Lemma label_spec (t : json) :
  forall next,
    erase (fst (label t next)) = t /\ next <= snd (label t next) /\
    ids (fst (label t next)) = seq next (snd (label t next) - next).
Proof.
  induction t as [| | | | xs IH | items IH] using json_ind; intros next;
    try (simpl; rewrite Nat.sub_diag; repeat split; auto).
  - destruct (label_each_spec xs IH (S next)) as (H1 & H2 & H3).
    simpl. split; [now rewrite H1|]. split; [lia|]. rewrite H3.
    replace (snd (label_each label xs (S next)) - next)
      with (S (snd (label_each label xs (S next)) - S next)) by lia.
    reflexivity.
  - destruct (label_items_spec items IH (S next)) as (H1 & H2 & H3).
    simpl. split; [now rewrite H1|]. split; [lia|]. rewrite H3.
    replace (snd (label_items label items (S next)) - next)
      with (S (snd (label_items label items (S next)) - S next)) by lia.
    reflexivity.
Qed.

Lemma label_all_spec (ts : list json) :
  forall n, exists m,
    map erase (label_all ts n) = ts /\ n <= m /\
    flat_map ids (label_all ts n) = seq n (m - n).
Proof.
  induction ts as [|t ts IH]; intros n; simpl.
  - exists n. rewrite Nat.sub_diag. repeat split; auto.
  - destruct (label_spec t n) as (H1 & H2 & H3). destruct (label t n) as [o n1].
    simpl in *. destruct (IH n1) as (m & G1 & G2 & G3).
    exists m. split; [now rewrite H1, G1|]. split; [lia|].
    rewrite H3, G3. replace (m - n) with ((n1 - n) + (m - n1)) by lia.
    rewrite seq_app. do 2 f_equal. lia.
Qed.

(** Trees held as separate objects: no object occurs twice, and the
    values are the trees. *)
Lemma label_all_unshared (ts : list json) (n : nat) :
  unshared (label_all ts n) /\ map erase (label_all ts n) = ts.
Proof.
  destruct (label_all_spec ts n) as (m & H1 & _ & H3).
  split; [|exact H1]. unfold unshared. rewrite H3. apply seq_NoDup.
Qed.

Lemma ref_set_bound (definitions : list (string * nat)) (key : string) (k : nat) :
  Forall (fun kr => snd kr < k) definitions ->
  Forall (fun kr => snd kr < S k) (ref_set definitions key k).
Proof.
  induction 1 as [|[key' k'] definitions Hk Hrest IH]; simpl.
  - constructor; [simpl; lia | constructor].
  - destruct (String.eqb key key'); constructor; simpl in *; try lia; auto.
    eapply Forall_impl; [|exact Hrest]. intros kr H. simpl in H. lia.
Qed.

Lemma map_below {A : Type} (f g : nat -> A) (k : nat) (definitions : list (string * nat)) :
  Forall (fun kr => snd kr < k) definitions ->
  (forall i, i < k -> f i = g i) ->
  map (fun kr => (fst kr, f (snd kr))) definitions =
  map (fun kr => (fst kr, g (snd kr))) definitions.
Proof.
  induction 1 as [|[key i] definitions Hi Hrest IH]; intros Hfg; simpl; [reflexivity|].
  rewrite IH by exact Hfg. simpl in Hi. now rewrite (Hfg i Hi).
Qed.

(** The loop on trees and the loop in place, step by step, on a store
    where no object occurs twice. *)
Lemma build_definitions_sim str_other (schemas : list Schema) (records : list heading) :
  Forall2 heading_of schemas records ->
  forall k st definitions tdone,
  unshared st ->
  map erase st = tdone ++ map definition schemas -> List.length tdone = k ->
  Forall (fun kr => snd kr < k) definitions ->
  match build_definitions str_other schemas
          (map (fun kr => (fst kr, erase (nth (snd kr) st ONull))) definitions),
        build_definitions_in_place records k st definitions with
  | Ok values, Ok (st', refs) =>
      map (fun kr => (fst kr, erase (nth (snd kr) st' ONull))) refs = values
  | Raise e, Raise e' => e = e'
  | _, _ => False
  end.
Proof.
  induction 1 as [|s h schemas records Hh Hrest IH];
    intros k st definitions tdone Hnd Hst Hk Hdefs.
  - reflexivity.
  - destruct Hh as (Hkind & Hgroup & Hversion). subst k.
    set (acc := map (fun kr => (fst kr, erase (nth (snd kr) st ONull))) definitions).
    change (build_definitions str_other (s :: schemas) acc)
      with (d <- add_enum (definition s) "apiVersion" (api_version str_other s) ;;
            d0 <- add_enum d "kind" (kind s) ;;
            build_definitions str_other schemas
              (dict_set acc (definition_key str_other s) d0)).
    cbn [build_definitions_in_place].
    assert (Hv : api_version str_other s = JStr (h_group h ++ "/" ++ h_version h)%string).
    { unfold api_version. now rewrite Hgroup, Hversion. }
    assert (Hkey : definition_key str_other s = heading_key h).
    { unfold definition_key, heading_key. now rewrite Hgroup, Hversion, Hkind. }
    rewrite Hv, Hkind, Hkey.
    assert (Hlt : List.length tdone < List.length st).
    { rewrite <- (length_map erase), Hst, length_app. simpl. lia. }
    assert (Hroot : erase (nth (List.length tdone) st ONull) = definition s).
    { rewrite nth_erase, Hst. simpl. now rewrite nth_middle_tree. }
    pose proof (add_enum_in_place_tree st (List.length tdone) "apiVersion"
                  (h_group h ++ "/" ++ h_version h) Hnd Hlt) as Ha.
    rewrite Hroot in Ha.
    destruct (add_enum (definition s) "apiVersion" _) as [d1|e]; cbn [bind].
    2: { now rewrite Ha. }
    destruct Ha as (r1 & Hrun1 & Her1 & Hnd1). rewrite Hrun1. cbn [bind].
    assert (Hlt1 : List.length tdone < List.length (put (List.length tdone) r1 st))
      by now rewrite put_length.
    pose proof (add_enum_in_place_tree _ (List.length tdone) "kind" (h_kind h) Hnd1 Hlt1)
      as Hb.
    rewrite put_nth, Nat.eqb_refl, Her1 in Hb by exact Hlt.
    destruct (add_enum d1 "kind" _) as [d0|e]; cbn [bind].
    2: { now rewrite Hb. }
    destruct Hb as (r2 & Hrun2 & Her2 & Hnd2). rewrite Hrun2. cbn [bind].
    rewrite put_put in Hnd2 |- *.
    set (st2 := put (List.length tdone) r2 st) in *.
    assert (Hsame : forall i, i < List.length tdone ->
                    erase (nth i st ONull) = erase (nth i st2 ONull)).
    { intros i Hi. unfold st2. rewrite put_nth by exact Hlt.
      destruct (Nat.eqb i (List.length tdone)) eqn:E; [|reflexivity].
      apply Nat.eqb_eq in E. lia. }
    assert (Hacc : dict_set acc (heading_key h) d0 =
                   map (fun kr => (fst kr, erase (nth (snd kr) st2 ONull)))
                       (ref_set definitions (heading_key h) (List.length tdone))).
    { rewrite (map_ref_set (fun i => erase (nth i st2 ONull))).
      unfold acc. rewrite (map_below _ _ _ _ Hdefs Hsame). f_equal.
      unfold st2. rewrite put_nth by exact Hlt. now rewrite Nat.eqb_refl. }
    rewrite Hacc.
    apply (IH (S (List.length tdone)) st2 _ (tdone ++ [d0])).
    + exact Hnd2.
    + unfold st2. rewrite map_put, Hst. simpl. rewrite put_middle, Her2.
      now rewrite <- app_assoc.
    + rewrite length_app. simpl. lia.
    + now apply ref_set_bound.
Qed.

(** X22: the loop of the run, which threads each definition on its own,
    is the loop in place when no object is shared.  For records whose
    kind, group and version are strings, with their definitions held as
    separate objects, both loops end with the same exception, or the
    document the loop in place leaves for [_definitions.json] is the one
    the run writes. *)
Theorem build_definitions_agrees
  (str_other : json -> string) (schemas : list Schema) (records : list heading) :
  Forall2 heading_of schemas records ->
  match build_definitions str_other schemas [],
        build_definitions_in_place records 0 (label_all (map definition schemas) 0) [] with
  | Ok definitions, Ok (st', refs) =>
      definitions_document st' refs = JDict [("definitions", JDict definitions)]
  | Raise e, Raise e' => e = e'
  | _, _ => False
  end.
Proof.
  intros H.
  destruct (label_all_unshared (map definition schemas) 0) as [Hnd Hst].
  pose proof (build_definitions_sim str_other schemas records H 0
                (label_all (map definition schemas) 0) [] [] Hnd Hst eq_refl
                (Forall_nil _)) as G.
  simpl in G.
  destruct (build_definitions str_other schemas []) as [definitions|e];
    destruct (build_definitions_in_place _ _ _ _) as [[st' refs]|e']; auto.
  unfold definitions_document. now rewrite G.
Qed.

Lemma build_definitions_agrees_witness :
  Forall2 heading_of [foo_v1] [mkHeading "Foo" "example.com" "v1"] /\
  build_definitions no_str [foo_v1] [] =
  Ok [("example.com.v1.Foo",
       set_path (set_path sample_schema ["properties"; "apiVersion"; "enum"]
                   (JList [JStr "example.com/v1"]))
         ["properties"; "kind"; "enum"] (JList [JStr "Foo"]))] /\
  match build_definitions_in_place [mkHeading "Foo" "example.com" "v1"] 0
          (label_all [sample_schema] 0) [] with
  | Ok (st', refs) =>
      definitions_document st' refs =
      JDict [("definitions",
              JDict [("example.com.v1.Foo",
                      set_path (set_path sample_schema ["properties"; "apiVersion"; "enum"]
                                  (JList [JStr "example.com/v1"]))
                        ["properties"; "kind"; "enum"] (JList [JStr "Foo"]))])]
  | Raise _ => False
  end.
Proof.
  assert (H : Forall2 heading_of [foo_v1] [mkHeading "Foo" "example.com" "v1"]).
  { constructor; [repeat split | constructor]. }
  split; [exact H|]. split; [reflexivity|].
  exact (build_definitions_agrees no_str [foo_v1] [mkHeading "Foo" "example.com" "v1"] H).
Defined.

(** X23: a definition that lacks a key stops the loop in place with the
    exception of the lookup whether its objects are shared or not: the
    lookups read the objects and change nothing. *)
Theorem add_enum_in_place_lookup_error
  (st : store) (k : nat) (field value : string) (e : exn) :
  target_error (erase (nth k st ONull)) field = Some e ->
  add_enum_in_place st k field value = Raise e.
Proof.
  unfold target_error, add_enum_in_place.
  destruct (nth k st ONull) as [| | | | id xs | id items]; simpl;
    try (now intros [= <-]).
  rewrite erase_get.
  destruct (obj_get "properties" items) as [[| | | | id' xs | id' pitems]|]; simpl;
    try (now intros [= <-]).
  rewrite erase_get.
  destruct (obj_get field pitems) as [[| | | s | id'' xs | id'' titems]|]; simpl;
    try (now intros [= <-]); intros [= <-];
    unfold append_no_duplicates_in_place, obj_contains; simpl.
  - destruct (is_substring "enum" s); reflexivity.
  - destruct (existsb _ _); reflexivity.
Qed.

Lemma add_enum_in_place_lookup_error_witness :
  add_enum_in_place shared_store 0 "status" "v1" = Raise (KeyError "status") /\
  add_enum_in_place [ODict 0 [("properties", ODict 0 [])]] 0 "kind" "Foo" =
  Raise (KeyError "kind").
Proof.
  split.
  - exact (add_enum_in_place_lookup_error shared_store 0 "status" "v1"
             (KeyError "status") eq_refl).
  - exact (add_enum_in_place_lookup_error [ODict 0 [("properties", ODict 0 [])]] 0
             "kind" "Foo" (KeyError "kind") eq_refl).
Defined.





Lemma heading_of_written (schemas : list Schema) (records : list heading) :
  Forall2 heading_of schemas records -> Forall2 heading_of (map written schemas) records.
Proof. induction 1; simpl; constructor; auto. Qed.

(** X25: what the run leaves in [_definitions.json].  When the inputs are
    loaded, every record has strings for kind, group and version and gets
    its schema file, and both summary files can be opened, the run is the
    loop in place on the definitions as the write loop left them, held as
    separate objects: when that loop ends, the run exits with code 0 and
    [_definitions.json] holds the document of the loop; when it raises,
    the run ends with the same exception, the schema files written and
    [_definitions.json] emptied.  The schema files are written and their
    names printed before. *)
Theorem main_writes_definitions_document
  (urlopen open_file : string -> result (list json * option exn))
  (fmt : option template) (str_other : json -> string)
  (lower : string -> string) (open_error : string -> option exn)
  (script : string) (paths : list string) (w : world)
  (schemas : list Schema) (names : list string) (records : list heading) :
  load_files urlopen open_file paths [] = Ok schemas ->
  Forall2 (schema_file fmt str_other lower open_error) schemas names ->
  open_error "_definitions.json" = None -> open_error "all.json" = None ->
  Forall2 heading_of schemas records ->
  let w1 := snd (write_schema_files fmt str_other lower open_error schemas w) in
  stdout w1 = stdout w ++ names /\
  match build_definitions_in_place records 0
          (label_all (map definition (map written schemas)) 0) [] with
  | Ok (st', refs) =>
      exists w',
        main urlopen open_file fmt str_other lower open_error (script :: paths) w =
          (Exit 0, w') /\
        fs_read "_definitions.json" (files w') = Some [definitions_document st' refs] /\
        stdout w' = stdout w1 /\
        (forall n, String.eqb n "_definitions.json" = false ->
                   String.eqb n "all.json" = false ->
                   fs_read n (files w') = fs_read n (files w1))
  | Raise e =>
      main urlopen open_file fmt str_other lower open_error (script :: paths) w =
        (Traceback e, open_w "_definitions.json" w1)
  end.
Proof.
  intros Hload Hnames Hd Ha Hh w1.
  destruct (write_schema_files_run fmt str_other lower open_error schemas names Hnames w)
    as (Hfst & Hout & _).
  split; [exact Hout|].
  destruct (label_all_unshared (map definition (map written schemas)) 0) as [Hnd Hst].
  pose proof (build_definitions_sim str_other (map written schemas) records
                (heading_of_written schemas records Hh) 0
                (label_all (map definition (map written schemas)) 0) [] [] Hnd Hst eq_refl
                (Forall_nil _)) as G.
  simpl in G.
  assert (Hmain : main urlopen open_file fmt str_other lower open_error (script :: paths) w =
                  match build_definitions str_other (map written schemas) [] with
                  | Raise e => (Traceback e, open_w "_definitions.json" w1)
                  | Ok definitions =>
                      (Exit 0,
                       write "all.json"
                         (JDict [("oneOf", JList (all_refs str_other (map written schemas)))])
                         (open_w "all.json"
                            (write "_definitions.json"
                               (JDict [("definitions", JDict definitions)])
                               (open_w "_definitions.json" w1))))
                  end).
  { unfold main, w1. simpl. rewrite Hload.
    destruct (write_schema_files fmt str_other lower open_error schemas w) as [r w0].
    simpl in Hfst. subst r. simpl. rewrite Hd.
    destruct (build_definitions str_other (map written schemas) []); [|reflexivity].
    now rewrite Ha. }
  rewrite Hmain.
  destruct (build_definitions str_other (map written schemas) []) as [definitions|e];
    destruct (build_definitions_in_place _ _ _ _) as [[st' refs]|e'];
    try contradiction.
  - eexists. split; [reflexivity|]. split; [|split].
    + simpl. rewrite (fs_read_other "_definitions.json" "all.json" _ _ eq_refl).
      unfold definitions_document. rewrite G. apply fs_read_open_write.
    + reflexivity.
    + intros n Hn1 Hn2. simpl.
      rewrite (fs_read_other n "all.json" _ _ Hn2).
      now rewrite (fs_read_other n "_definitions.json" _ _ Hn1).
  - now subst e'.
Qed.

Lemma main_writes_definitions_document_witness :
  exists w',
    main foo_loader foo_loader None no_str lower_ascii posix_open
      ["openapi2jsonschema.py"; "foo.yaml"] fresh = (Exit 0, w') /\
    fs_read "_definitions.json" (files w') =
    Some [JDict [("definitions", JDict [("example.com.v1.Foo", foo_v1_entry)])]] /\
    stdout w' = ["foo-example-v1.json"].
Proof.
  assert (Hn : Forall2 (schema_file None no_str lower_ascii posix_open)
                 [foo_v1] ["foo-example-v1.json"]).
  { constructor; [|constructor]. exists "foo-example-v1.json". repeat split. }
  assert (Hh : Forall2 heading_of [foo_v1] [mkHeading "Foo" "example.com" "v1"]).
  { constructor; [repeat split | constructor]. }
  destruct (main_writes_definitions_document foo_loader foo_loader None no_str lower_ascii
              posix_open "openapi2jsonschema.py" ["foo.yaml"] fresh [foo_v1]
              ["foo-example-v1.json"] [mkHeading "Foo" "example.com" "v1"]
              eq_refl Hn eq_refl eq_refl Hh) as (_ & w' & Hm & Hf & Ho & _).
  exists w'. split; [exact Hm|]. split; [exact Hf | exact Ho].
Defined.
